(** * prodahza-auto: the dealership catalogue of [Kozevnikov_Rabota/app.py]

    A shallow embedding of the Flask application in [app.py]: the four SQLite
    tables, the helpers ([safe_int], [get_current_user], [latest_tracking]),
    the two guards ([login_required], [role_required]) and the request
    handlers ([index], [add_car], [create_lead], [leads_list],
    [manage_tracking], [register]), followed by the properties of the
    specification that concern them.

    Conventions of the model.
    - Text is [string]: the bytes of its UTF-8 encoding, which is how SQLite
      stores it and how Python's [sqlite3] binds and reads it. Equality and
      the order of texts are those of their bytes, which for UTF-8 are those
      of their code points.
    - Python's [str.strip], [str.lower], [str.capitalize] and [int] work on
      Unicode text. They are parameters of the application (class
      [Python.Text]); [PyStr] defines them on ASCII text, which is what the
      requests of the examples carry. SQLite's [LOWER] and [LIKE] fold the
      ASCII letters only and are defined on the bytes.
    - A table is the list of its rows in rowid order together with the
      counter that [AUTOINCREMENT] keeps in [sqlite_sequence].
    - Integers are [Z]. Python integers are unbounded, SQLite's [INTEGER] is a
      signed 64-bit value: binding a larger parameter raises [OverflowError]
      before the statement runs.
    - The connection is opened by Python's [sqlite3] module with its default
      settings, so foreign keys are not enforced. *)

From Stdlib Require Import ZArith List Bool Ascii String Lia Permutation Sorted.
Import ListNotations.

Set Implicit Arguments.

Local Open Scope string_scope.
Local Open Scope Z_scope.

(* ================================================================== *)
(** ** Python's text functions on ASCII text *)
(* ================================================================== *)

(** What [str] and [int] do when every character is an ASCII character.
    [lower] is also what SQLite's [LOWER] does to the bytes of any text. *)
Module PyStr.

(** [str.isspace] on one ASCII character: TAB, LF, VT, FF, CR, the four
    separators FS GS RS US, and the space. *)
Definition isspace (c : ascii) : bool :=
  let n := nat_of_ascii c in
  (((9 <=? n) && (n <=? 13)) || ((28 <=? n) && (n <=? 32)))%nat.

Definition isupper (c : ascii) : bool :=
  let n := nat_of_ascii c in ((65 <=? n) && (n <=? 90))%nat.

Definition islower (c : ascii) : bool :=
  let n := nat_of_ascii c in ((97 <=? n) && (n <=? 122))%nat.

Definition lower_char (c : ascii) : ascii :=
  if isupper c then ascii_of_nat (nat_of_ascii c + 32) else c.

Definition upper_char (c : ascii) : ascii :=
  if islower c then ascii_of_nat (nat_of_ascii c - 32) else c.

(** [s.lower()] *)
Fixpoint lower (s : string) : string :=
  match s with
  | EmptyString => EmptyString
  | String c r => String (lower_char c) (lower r)
  end.

(** [s.capitalize()]: first character upper-cased, the rest lower-cased. *)
Definition capitalize (s : string) : string :=
  match s with
  | EmptyString => EmptyString
  | String c r => String (upper_char c) (lower r)
  end.

Section Strip.

(** The characters to drop. *)
Variable space : ascii -> bool.

Fixpoint lstrip_of (s : string) : string :=
  match s with
  | EmptyString => EmptyString
  | String c r => if space c then lstrip_of r else s
  end.

(** A character is dropped when it is white space and everything after it
    has been dropped too. *)
Fixpoint rstrip_of (s : string) : string :=
  match s with
  | EmptyString => EmptyString
  | String c r =>
      match rstrip_of r with
      | EmptyString => if space c then EmptyString else String c EmptyString
      | r' => String c r'
      end
  end.

End Strip.

(** [s.lstrip()], [s.rstrip()] and [s.strip()] *)
Definition lstrip (s : string) : string := lstrip_of isspace s.

Definition rstrip (s : string) : string := rstrip_of isspace s.

Definition strip (s : string) : string := rstrip (lstrip s).

(** [s.isascii()] *)
Fixpoint isascii (s : string) : bool :=
  match s with
  | EmptyString => true
  | String c r => (nat_of_ascii c <? 128)%nat && isascii r
  end.

(** Truth value of a [str]: the empty string is falsy. *)
Definition truthy (s : string) : bool :=
  match s with EmptyString => false | _ => true end.

(** Truth value of an optional [str] ([None] is falsy). *)
Definition truthy_opt (o : option string) : bool :=
  match o with Some s => truthy s | None => false end.

(** [needle in hay] *)
Fixpoint contains (needle hay : string) : bool :=
  String.prefix needle hay ||
  match hay with
  | EmptyString => false
  | String _ r => contains needle r
  end.

Definition isdigit (c : ascii) : bool :=
  let n := nat_of_ascii c in ((48 <=? n) && (n <=? 57))%nat.

Definition digit_value (c : ascii) : Z := Z.of_nat (nat_of_ascii c) - 48.

(** The digits of an integer literal as [int()] accepts them: one or more
    decimal digits, where a single underscore may stand between two
    digits. [after_digit] tells whether the previous character was a
    digit, [acc] is the value read so far. *)
Fixpoint int_digits (after_digit : bool) (acc : Z) (s : string) : option Z :=
  match s with
  | EmptyString => if after_digit then Some acc else None
  | String c r =>
      if isdigit c then int_digits true (10 * acc + digit_value c) r
      else if Ascii.eqb c "_" then
        if after_digit then int_digits false acc r else None
      else None
  end.

(** The white space [int()] skips around an ASCII literal is that of C's
    [isspace]: TAB, LF, VT, FF, CR and the space. The separators FS, GS, RS
    and US, which [str.strip] drops, are no part of it: [int] of a text
    that holds one raises [ValueError]. *)
Definition isspace_c (c : ascii) : bool :=
  let n := nat_of_ascii c in
  (((9 <=? n) && (n <=? 13)) || (n =? 32))%nat.

(** The number of decimal digits in a text. *)
Fixpoint count_digits (s : string) : Z :=
  match s with
  | EmptyString => 0
  | String c r => (if isdigit c then 1 else 0) + count_digits r
  end.

(** [sys.int_info.default_max_str_digits]: since CPython 3.11 [int()]
    refuses a decimal literal of more digits. *)
Definition max_str_digits : Z := 4300.

(** [int(s)] for a [str]: surrounding white space is ignored, one sign is
    allowed; [None] stands for [ValueError]. *)
Definition int (s : string) : option Z :=
  let literal := rstrip_of isspace_c (lstrip_of isspace_c s) in
  if max_str_digits <? count_digits literal then None
  else
    match literal with
    | String "+" r => int_digits false 0 r
    | String "-" r => option_map Z.opp (int_digits false 0 r)
    | r => int_digits false 0 r
    end.

End PyStr.

Example strip_ex : PyStr.strip "  Kia Rio  " = "Kia Rio".
Proof. reflexivity. Qed.

Example capitalize_ex : PyStr.capitalize (PyStr.lower (PyStr.strip " cHINA ")) = "China".
Proof. reflexivity. Qed.

Example int_ex1 : PyStr.int " 2_020 " = Some 2020.
Proof. reflexivity. Qed.

Example int_ex2 : PyStr.int "-15" = Some (-15).
Proof. reflexivity. Qed.

Example int_ex3 : PyStr.int "20a" = None /\ PyStr.int "" = None /\ PyStr.int "_1" = None
                  /\ PyStr.int "1__0" = None /\ PyStr.int "1_" = None /\ PyStr.int "+ 1" = None.
Proof. repeat split; reflexivity. Qed.

(** The separator FS (code 28) is white space for [strip] and not for
    [int]. *)
Example int_ex4 :
  let s := String (ascii_of_nat 28) "3" in PyStr.strip s = "3" /\ PyStr.int s = None.
Proof. split; reflexivity. Qed.

(* ================================================================== *)
(** ** Python's text functions as parameters *)
(* ================================================================== *)

(** [str.strip], [str.lower], [str.capitalize] and [int] on Unicode text:
    white space, cased letters and decimal digits are those of the Unicode
    database, which is not reproduced here. The application is defined over
    any four functions on UTF-8 text. One fact about them is used: on ASCII
    text [lower] folds the letters A to Z and nothing else. *)
Module Python.

Class Text : Type := {
  strip : string -> string;
  lower : string -> string;
  capitalize : string -> string;
  int : string -> option Z;
  lower_ascii : forall s, PyStr.isascii s = true -> lower s = PyStr.lower s
}.

End Python.

(** The four functions as [PyStr] defines them, for requests that carry
    ASCII text. *)
Definition ascii_text : Python.Text :=
  {| Python.strip := PyStr.strip;
     Python.lower := PyStr.lower;
     Python.capitalize := PyStr.capitalize;
     Python.int := PyStr.int;
     Python.lower_ascii := fun s _ => eq_refl |}.

(* ================================================================== *)
(** ** SQLite primitives used by the queries *)
(* ================================================================== *)

Module Sql.

(** [LOWER(x)]: folds the ASCII letters only; the bytes of the other
    characters are left as they are. *)
Definition LOWER (s : string) : string := PyStr.lower s.

(** Text as SQLite's string functions read it: the bytes of the UTF-8
    encoding, one character being a lead byte (192 and above) with the
    continuation bytes (binary 10xxxxxx) that follow it, or a single byte. *)
Definition is_continuation (c : ascii) : bool :=
  let n := nat_of_ascii c in ((128 <=? n) && (n <? 192))%nat.

Fixpoint skip_continuation (s : string) : string :=
  match s with
  | EmptyString => EmptyString
  | String c r => if is_continuation c then skip_continuation r else s
  end.

(** What follows the character that starts with byte [d]. *)
Definition after_char (d : ascii) (s : string) : string :=
  if (192 <=? nat_of_ascii d)%nat then skip_continuation s else s.

(** The suffixes of a text that start at a character, the empty suffix
    last. [inside] tells that the byte before was part of a character
    whose continuation bytes are being passed. *)
Fixpoint char_tails_from (inside : bool) (s : string) : list string :=
  match s with
  | EmptyString => [EmptyString]
  | String c r =>
      if inside && is_continuation c then char_tails_from true r
      else s :: char_tails_from (192 <=? nat_of_ascii c)%nat r
  end.

Definition char_tails (s : string) : list string := char_tails_from false s.

(** The comparison behind [LIKE] with SQLite's defaults: [%] matches any
    run of characters, [_] matches exactly one character, any other
    character matches itself up to ASCII case; there is no escape
    character. *)
Fixpoint pattern_compare (p s : string) {struct p} : bool :=
  match p with
  | EmptyString => match s with EmptyString => true | _ => false end
  | String c p' =>
      if Ascii.eqb c "%" then existsb (pattern_compare p') (char_tails s)
      else
        match s with
        | EmptyString => false
        | String d s' =>
            if Ascii.eqb c "_" then pattern_compare p' (after_char d s')
            else Ascii.eqb (PyStr.lower_char c) (PyStr.lower_char d)
                 && pattern_compare p' s'
        end
  end.

(** The text up to its first NUL: what a C string holds. *)
Fixpoint c_string (s : string) : string :=
  match s with
  | EmptyString => EmptyString
  | String c r => if Ascii.eqb c zero then EmptyString else String c (c_string r)
  end.

(** [s LIKE p]: pattern and text are read as C strings. *)
Definition like (p s : string) : bool := pattern_compare (c_string p) (c_string s).

(** [SQLITE_MAX_LIKE_PATTERN_LENGTH]: a [LIKE] whose pattern has more
    bytes is not evaluated, the statement fails with "LIKE or GLOB pattern
    too complex". *)
Definition like_pattern_limit : Z := 50000.

Definition too_complex (p : string) : bool :=
  like_pattern_limit <? Z.of_nat (String.length p).

(** The text holds no NUL. *)
Fixpoint nul_free (s : string) : bool :=
  match s with
  | EmptyString => true
  | String c r => negb (Ascii.eqb c zero) && nul_free r
  end.

(** A Python [int] can be bound to a parameter only when it is a signed
    64-bit value. *)
Definition fits_integer (n : Z) : bool :=
  (- 2 ^ 63 <=? n) && (n <? 2 ^ 63).

Definition fits_integer_opt (o : option Z) : bool :=
  match o with Some n => fits_integer n | None => true end.

(** [MAX] of two [TEXT] values under the default BINARY collation. *)
Definition text_max (a b : string) : string :=
  if String.leb a b then b else a.

Section OrderBy.
Variable A : Type.
Variable le : A -> A -> bool.

Fixpoint insert_sorted (x : A) (l : list A) : list A :=
  match l with
  | [] => [x]
  | y :: r => if le x y then x :: l else y :: insert_sorted x r
  end.

(** [ORDER BY]: rows with equal keys keep the order of the scan. *)
Definition order_by (l : list A) : list A :=
  fold_right insert_sorted [] l.
End OrderBy.

(** [LIMIT n] *)
Definition limit (A : Type) (n : nat) (l : list A) : list A := firstn n l.

(** A table: its rows in rowid order and the [sqlite_sequence] counter of
    its [AUTOINCREMENT] key. *)
Record Table (R : Type) : Type := mkTable { rows : list R; seq : Z }.

Definition empty_table (R : Type) : Table R := mkTable [] 0.

Section Insert.
Variable R : Type.
Variable id_of : R -> Z.

Definition max_rowid (t : Table R) : Z :=
  fold_right (fun r m => Z.max (id_of r) m) 0 (rows t).

(** The key [AUTOINCREMENT] gives to the next row. *)
Definition next_rowid (t : Table R) : Z :=
  Z.max (seq t) (max_rowid t) + 1.

(** [INSERT]: the new row is built from its key and is appended. *)
Definition insert (mk : Z -> R) (t : Table R) : Table R :=
  let i := next_rowid t in mkTable (rows t ++ [mk i]) i.
End Insert.

End Sql.

Example like_ex1 : Sql.like "%rio%" "kia rio x" = true.
Proof. reflexivity. Qed.

Example like_ex2 : Sql.like "%rio%" "kia ri" = false.
Proof. reflexivity. Qed.

Example like_ex3 : Sql.like "%_%" "kia" = true /\ PyStr.contains "_" "kia" = false.
Proof. split; reflexivity. Qed.

(** One [_] stands for one character, whatever the number of its bytes:
    here the two bytes of a Cyrillic letter and the three of the euro
    sign. *)
Example like_ex4 :
  let zhe := String (ascii_of_nat 208) (String (ascii_of_nat 150) "k") in
  let euro := String (ascii_of_nat 226) (String (ascii_of_nat 130) (String (ascii_of_nat 172) "")) in
  Sql.like "_k" zhe = true /\ Sql.like "__k" zhe = false
  /\ Sql.like "%_%" euro = true /\ Sql.like "%__%" euro = false.
Proof. repeat split; reflexivity. Qed.

(** Pattern and text end at their first NUL. *)
Example like_ex5 :
  let nul := String zero "" in
  Sql.like ("%a" ++ nul ++ "b%") "kia" = true
  /\ Sql.like "%zz%" ("a" ++ nul ++ "zzb") = false.
Proof. split; reflexivity. Qed.

Example order_by_ex :
  Sql.order_by (fun a b => b <=? a) [2020; 2023; 2021; 2023] = [2023; 2023; 2021; 2020].
Proof. reflexivity. Qed.

(* ================================================================== *)
(** ** The tables *)
(* ================================================================== *)

(** The timestamp columns ([created_at], [updated_at]) are filled by
    [DEFAULT CURRENT_TIMESTAMP] in every [INSERT] of the application, so they
    are text and never [NULL]. A nullable column is an [option]. *)

Module User.
Record t : Type := mk {
  id : Z;
  name : string;
  email : string;
  phone : option string;
  password_hash : string;
  role : string;
  created_at : string
}.
End User.

Module Car.
Record t : Type := mk {
  id : Z;
  brand : string;
  model : string;
  year : Z;
  price : Z;
  mileage : option Z;
  fuel_type : option string;
  country : string;
  image_url : option string;
  description : option string
}.
End Car.

Module Lead.
Record t : Type := mk {
  id : Z;
  name : string;
  phone : string;
  email : option string;
  car_id : option Z;
  preferred_brand : option string;
  preferred_model : option string;
  country : option string;
  budget : option Z;
  comment : option string;
  created_at : string;
  user_id : option Z
}.
End Lead.

Module TrackingEvent.
Record t : Type := mk {
  id : Z;
  car_id : Z;
  status : string;
  location : string;
  eta : option string;
  comment : option string;
  updated_at : string
}.
End TrackingEvent.

Record Database : Type := mkDatabase {
  users : Sql.Table User.t;
  cars : Sql.Table Car.t;
  leads : Sql.Table Lead.t;
  tracking_events : Sql.Table TrackingEvent.t
}.

Inductive TableName : Type := t_users | t_cars | t_leads | t_tracking_events.

(** What [cursor.execute] was asked to run, by the tables it touches. *)
Inductive Statement : Type :=
| SELECT (from : list TableName)
| INSERT (into : TableName).

Definition touches (t : TableName) (s : Statement) : bool :=
  let same a b :=
    match a, b with
    | t_users, t_users | t_cars, t_cars | t_leads, t_leads
    | t_tracking_events, t_tracking_events => true
    | _, _ => false
    end in
  match s with
  | SELECT from => existsb (same t) from
  | INSERT into => same t into
  end.

(* ================================================================== *)
(** ** Python dictionaries *)
(* ================================================================== *)

(** A [dict] keyed by integers: the items in insertion order. Assigning to a
    key that is present replaces its value where it stands. *)
Module PyDict.
Section Dict.
Variable V : Type.

Definition t : Type := list (Z * V).

Fixpoint setitem (k : Z) (v : V) (d : t) : t :=
  match d with
  | [] => [(k, v)]
  | (k', v') :: r =>
      if k' =? k then (k, v) :: r else (k', v') :: setitem k v r
  end.

Fixpoint get (k : Z) (d : t) : option V :=
  match d with
  | [] => None
  | (k', v') :: r => if k' =? k then Some v' else get k r
  end.

Definition keys (d : t) : list Z := map fst d.
End Dict.
End PyDict.

(* ================================================================== *)
(** ** Requests, responses and the state a handler runs in *)
(* ================================================================== *)

Inductive Method : Type := GET | POST.

(** [request.args] and [request.form] are multi-dicts: [get] answers with the
    first value stored under the key. *)
Definition MultiDict : Type := list (string * string).

Fixpoint multidict_get (k : string) (d : MultiDict) : option string :=
  match d with
  | [] => None
  | (k', v) :: r => if String.eqb k' k then Some v else multidict_get k r
  end.

(** [d.get(k, '')] *)
Definition multidict_get_or_empty (k : string) (d : MultiDict) : string :=
  match multidict_get k d with Some v => v | None => "" end.

Record Request : Type := mkRequest {
  method : Method;
  url : string;
  args : MultiDict;
  form : MultiDict
}.

Inductive Endpoint : Type :=
| ep_index | ep_login | ep_register | ep_add_car_form | ep_manage_tracking.

(** Where a redirect leads: [url_for(endpoint)], [url_for(endpoint, next=..)],
    such a URL followed by a fragment, or a URL taken from the request. *)
Inductive Location : Type :=
| url_for (e : Endpoint)
| url_for_next (e : Endpoint) (next : Location)
| with_fragment (l : Location) (fragment : string)
| given_url (u : string).

(** The messages passed to [flash], in the order they appear in [app.py]. *)
Inductive Notice : Type :=
| n_login_to_send_lead          (* login_required: log in to send a request *)
| n_login_to_continue           (* role_required: log in to continue *)
| n_no_permission               (* role_required: no right for this action *)
| n_car_fields_required         (* add_car: fill in all required fields *)
| n_car_added                   (* add_car: the car was added *)
| n_lead_name_phone_required    (* create_lead: name and phone are required *)
| n_lead_sent                   (* create_lead: the request was sent *)
| n_tracking_fields_required    (* manage_tracking: choose car, status, place *)
| n_tracking_updated            (* manage_tracking: the status was updated *)
| n_register_fields_required    (* register: fill in all required fields *)
| n_passwords_differ            (* register: the passwords do not match *)
| n_email_taken                 (* register: this email is registered already *)
| n_registered.                 (* register: registration succeeded *)

Inductive Category : Type := error | success.

Definition category (n : Notice) : Category :=
  match n with
  | n_car_added | n_lead_sent | n_tracking_updated | n_registered => success
  | _ => error
  end.

(** One row of the [leads_list] query: the lead, the brand and model of its
    car and the name, email and role of its user, where the joins find them. *)
Definition LeadRow : Type :=
  (Lead.t * option (string * string) * option (string * string * string))%type.

(** One row of the event list of [manage_tracking]: the event with the brand
    and model of its car. *)
Definition EventRow : Type := (TrackingEvent.t * string * string)%type.

(** The templates with the values handed to them. *)
Inductive Page : Type :=
| index_html (cars : list Car.t) (countries : list string)
    (selected_country : option string) (search_query : option string)
    (tracking_map : PyDict.t TrackingEvent.t)
| leads_html (leads : list LeadRow)
| tracking_manage_html (cars : list (Z * string * string * Z)) (events : list EventRow)
| auth_register_html (next_url : Location).

Inductive Response : Type :=
| redirect (to : Location)
| render_template (page : Page).

(** What a request can see and change: the database, the session cookie,
    the request-scoped [g.current_user] (absent until the first call of
    [get_current_user]), the flashed messages, the statements executed so far
    and the clock behind [CURRENT_TIMESTAMP]. *)
Record World : Type := mkWorld {
  db : Database;
  session_user_id : option Z;
  g_current_user : option (option User.t);
  flashed : list Notice;
  executed : list Statement;
  current_timestamp : string
}.

(** The exceptions the statements of a handler can raise: an integer
    parameter too large for SQLite, a method called on [None], [None]
    subscripted, a [NOT NULL] column given [None], a statement SQLite gives
    up. *)
Inductive Exception : Type :=
| OverflowError | AttributeError | TypeError | IntegrityError | OperationalError.

Inductive Outcome (A : Type) : Type :=
| Returned (a : A)
| Raised (e : Exception).

Arguments Returned {A} a.
Arguments Raised {A} e.

(** A computation of a handler: it reads and updates the world and either
    returns or raises. *)
Definition Handler (A : Type) : Type := World -> Outcome A * World.

Definition ret (A : Type) (a : A) : Handler A := fun w => (Returned a, w).

Definition bind (A B : Type) (m : Handler A) (k : A -> Handler B) : Handler B :=
  fun w =>
    match m w with
    | (Returned a, w') => k a w'
    | (Raised e, w') => (Raised e, w')
    end.

Definition raise (A : Type) (e : Exception) : Handler A := fun w => (Raised e, w).

Arguments raise {A} e.

Declare Scope handler_scope.
Delimit Scope handler_scope with handler.

Notation "x <- m ;; k" := (bind m (fun x => k))
  (at level 61, m at next level, right associativity) : handler_scope.
Notation "m ;; k" := (bind m (fun _ => k))
  (at level 61, right associativity) : handler_scope.

Local Open Scope handler_scope.

(** [flash(message, category)] *)
Definition flash (n : Notice) : Handler unit :=
  fun w => (Returned tt,
            mkWorld (db w) (session_user_id w) (g_current_user w)
                    (flashed w ++ [n]) (executed w) (current_timestamp w)).

(** [cursor.execute] of a [SELECT] over the tables [from], followed by the
    fetch: the statement is recorded and the rows are computed from the
    database. *)
Definition execute_select (A : Type) (from : list TableName)
    (query : Database -> A) : Handler A :=
  fun w => (Returned (query (db w)),
            mkWorld (db w) (session_user_id w) (g_current_user w)
                    (flashed w) (executed w ++ [SELECT from]) (current_timestamp w)).

(** [cursor.execute] of a [SELECT] that SQLite gives up on the databases
    where [fails] holds: it raises [OperationalError] there. *)
Definition execute_select_or_fail (A : Type) (from : list TableName)
    (fails : Database -> bool) (query : Database -> A) : Handler A :=
  fun w =>
    if fails (db w) then (Raised OperationalError, w)
    else execute_select from query w.

(** [cursor.execute] of an [INSERT] and [connection.commit()]. The integer
    parameters are bound first; [statement] receives [CURRENT_TIMESTAMP] and
    answers with the new database and [cursor.lastrowid]. *)
Definition execute_insert (into : TableName) (integers : list (option Z))
    (statement : string -> Database -> Database * Z) : Handler Z :=
  fun w =>
    if forallb Sql.fits_integer_opt integers then
      let (db', lastrowid) := statement (current_timestamp w) (db w) in
      (Returned lastrowid,
       mkWorld db' (session_user_id w) (g_current_user w)
               (flashed w) (executed w ++ [INSERT into]) (current_timestamp w))
    else (Raised OverflowError, w).

(** [session['user_id'] = user_id] *)
Definition session_set_user_id (user_id : Z) : Handler unit :=
  fun w => (Returned tt,
            mkWorld (db w) (Some user_id) (g_current_user w)
                    (flashed w) (executed w) (current_timestamp w)).

(** [g.current_user = user] *)
Definition g_set_current_user (user : option User.t) : Handler unit :=
  fun w => (Returned tt,
            mkWorld (db w) (session_user_id w) (Some user)
                    (flashed w) (executed w) (current_timestamp w)).

(** A case for each of the 256 characters. *)
Ltac each_ascii c := destruct c as [[] [] [] [] [] [] [] []].

(* ================================================================== *)
(** ** The application *)
(* ================================================================== *)

Section Application.

(** Python's text functions. *)
Context {python : Python.Text}.

(* ================================================================== *)
(** ** Helpers of [app.py] *)
(* ================================================================== *)

(** [safe_int(value)]: [int(value)], or [None] when it raises [TypeError]
    (the value is [None]) or [ValueError]. *)
Definition safe_int (value : option string) : option Z :=
  match value with
  | None => None
  | Some s => Python.int s
  end.

(** [safe_int(value) or 0] *)
Definition or_zero (n : option Z) : Z :=
  match n with Some v => v | None => 0 end.

(** [not n] for an optional integer: [None] and [0] are falsy. *)
Definition falsy_int (n : option Z) : bool :=
  match n with None => true | Some v => v =? 0 end.

(** [get_current_user()] *)
Definition get_current_user : Handler (option User.t) :=
  fun w =>
    match g_current_user w with
    | Some user => (Returned user, w)
    | None =>
        let user_id := session_user_id w in
        if falsy_int user_id then
          (g_set_current_user None ;; ret None) w
        else
          (user <- execute_select [t_users]
                     (fun d => find (fun u => User.id u =? or_zero user_id)
                                    (Sql.rows (users d))) ;;
           g_set_current_user user ;;
           ret user) w
    end.

Definition View : Type := Request -> Handler Response.

(** [@login_required] *)
Definition login_required (view : View) : View :=
  fun request =>
    user <- get_current_user ;;
    match user with
    | None =>
        flash n_login_to_send_lead ;;
        ret (redirect (url_for_next ep_login (given_url (url request))))
    | Some _ => view request
    end.

(** The decorator [role_required] applied to the roles it is given. *)
Definition role_required (roles : list string) (view : View) : View :=
  fun request =>
    user <- get_current_user ;;
    match user with
    | None =>
        flash n_login_to_continue ;;
        ret (redirect (url_for_next ep_login (given_url (url request))))
    | Some u =>
        if negb (match roles with [] => true | _ => false end)
           && negb (existsb (String.eqb (User.role u)) roles)
        then flash n_no_permission ;; ret (redirect (url_for ep_index))
        else view request
    end.

(** [value or ''] *)
Definition or_empty (value : option string) : string :=
  match value with Some s => s | None => "" end.

(** [value.strip()], where [value] may be [None]. *)
Definition strip_of (value : option string) : Handler string :=
  match value with
  | Some s => ret (Python.strip s)
  | None => raise AttributeError
  end.

(** A value bound to a [NOT NULL] text column. *)
Definition not_null (value : option string) : Handler string :=
  match value with
  | Some s => ret s
  | None => raise IntegrityError
  end.

(** Python's [sorted] on strings (code point order). *)
Definition sorted (l : list string) : list string := Sql.order_by String.leb l.

(* ================================================================== *)
(** ** [latest_tracking] *)
(* ================================================================== *)

(** [SELECT car_id, MAX(updated_at) AS max_updated FROM tracking_events
    GROUP BY car_id]: the groups are built in one scan of the table. *)
Fixpoint group_add (car_id : Z) (updated_at : string) (groups : list (Z * string))
  : list (Z * string) :=
  match groups with
  | [] => [(car_id, updated_at)]
  | (c, max_updated) :: r =>
      if c =? car_id then (c, Sql.text_max max_updated updated_at) :: r
      else (c, max_updated) :: group_add car_id updated_at r
  end.

Definition latest (events : list TrackingEvent.t) : list (Z * string) :=
  fold_left (fun groups e =>
               group_add (TrackingEvent.car_id e) (TrackingEvent.updated_at e) groups)
            events [].

(** The [ON] condition of the join. *)
Definition join_on (l : Z * string) (t : TrackingEvent.t) : bool :=
  (fst l =? TrackingEvent.car_id t) && String.eqb (snd l) (TrackingEvent.updated_at t).

(** [SELECT t.* FROM tracking_events t INNER JOIN (...) latest ON ...]: one
    output row per pair of an event and a group that satisfies [join_on]. *)
Definition latest_rows (events : list TrackingEvent.t) : list TrackingEvent.t :=
  flat_map (fun t => map (fun _ => t) (filter (fun l => join_on l t) (latest events)))
           events.

(** [{row['car_id']: row for row in rows}] *)
Definition dict_by_car_id (rows : list TrackingEvent.t) : PyDict.t TrackingEvent.t :=
  fold_left (fun d row => PyDict.setitem (TrackingEvent.car_id row) row d) rows [].

Definition latest_tracking : Handler (PyDict.t TrackingEvent.t) :=
  rows <- execute_select [t_tracking_events]
            (fun d => latest_rows (Sql.rows (tracking_events d))) ;;
  ret (dict_by_car_id rows).

(* ================================================================== *)
(** ** [index]: the catalogue *)
(* ================================================================== *)

(** The two conditions [index] can put in its [WHERE], each with the
    parameters bound to its placeholders. *)
Inductive Clause : Type :=
| lower_country_eq (param : string)              (* LOWER(country) = ? *)
| lower_brand_or_model_like (p1 p2 : string).    (* (LOWER(brand) LIKE ? OR LOWER(model) LIKE ?) *)

Definition clause_holds (c : Clause) (car : Car.t) : bool :=
  match c with
  | lower_country_eq param => String.eqb (Sql.LOWER (Car.country car)) param
  | lower_brand_or_model_like p1 p2 =>
      Sql.like p1 (Sql.LOWER (Car.brand car)) || Sql.like p2 (Sql.LOWER (Car.model car))
  end.

(** ["SELECT * FROM cars" + " WHERE " + " AND ".join(clauses)
     + " ORDER BY year DESC"]; without clauses there is no [WHERE]. *)
Definition select_cars (clauses : list Clause) (d : Database) : list Car.t :=
  Sql.order_by (fun a b => Car.year b <=? Car.year a)
    (filter (fun car => forallb (fun c => clause_holds c car) clauses)
            (Sql.rows (cars d))).

(** Testing [c] on [car] evaluates a [LIKE] whose pattern is too complex.
    Of the two [LIKE]s joined by [OR] the second is evaluated only when
    the first does not hold. *)
Definition clause_fails (c : Clause) (car : Car.t) : bool :=
  match c with
  | lower_country_eq _ => false
  | lower_brand_or_model_like p1 p2 =>
      Sql.too_complex p1
      || (negb (Sql.like p1 (Sql.LOWER (Car.brand car))) && Sql.too_complex p2)
  end.

(** The conditions joined by [AND] are tested from left to right, and a
    row is given up at the first condition that does not hold. *)
Fixpoint where_fails (clauses : list Clause) (car : Car.t) : bool :=
  match clauses with
  | [] => false
  | c :: r => clause_fails c car || (clause_holds c car && where_fails r car)
  end.

(** The query fails when the scan of [cars] meets a row on which the
    [WHERE] fails. *)
Definition select_cars_fails (clauses : list Clause) (d : Database) : bool :=
  existsb (where_fails clauses) (Sql.rows (cars d)).

(** [SELECT DISTINCT country FROM cars] *)
Definition select_distinct_country (d : Database) : list string :=
  nodup string_dec (map Car.country (Sql.rows (cars d))).

(** [normalized_country.lower() in {'china', 'korea'}] *)
Definition in_allow_list (normalized_country : string) : bool :=
  existsb (String.eqb (Python.lower normalized_country)) ["china"; "korea"].

Definition index : View :=
  fun request =>
    let country_filter := multidict_get "country" (args request) in
    let normalized_country :=
      match country_filter with
      | Some c =>
          if PyStr.truthy c
          then Some (Python.capitalize (Python.lower (Python.strip c)))
          else None
      | None => None
      end in
    let search_query := multidict_get "q" (args request) in
    let clauses : list Clause := [] in
    let clauses :=
      match normalized_country with
      | Some n =>
          if PyStr.truthy n && in_allow_list n
          then (clauses ++ [lower_country_eq n])%list
          else clauses
      | None => clauses
      end in
    let clauses :=
      match search_query with
      | Some q =>
          if PyStr.truthy q
          then let like_pattern := "%" ++ Python.lower q ++ "%" in
               (clauses ++ [lower_brand_or_model_like like_pattern like_pattern])%list
          else clauses
      | None => clauses
      end in
    cars <- execute_select_or_fail [t_cars] (select_cars_fails clauses)
              (select_cars clauses) ;;
    tracking_map <- latest_tracking ;;
    distinct <- execute_select [t_cars] select_distinct_country ;;
    let countries := sorted (nodup string_dec (filter PyStr.truthy distinct)) in
    ret (render_template
           (index_html cars countries normalized_country search_query tracking_map)).

(* ================================================================== *)
(** ** [add_car] *)
(* ================================================================== *)

Definition add_car_body : View :=
  fun request =>
    let required_fields := ["brand"; "model"; "year"; "price"; "country"] in
    let missing :=
      filter (fun field => negb (PyStr.truthy_opt (multidict_get field (form request))))
             required_fields in
    match missing with
    | _ :: _ =>
        flash n_car_fields_required ;;
        ret (redirect (url_for ep_add_car_form))
    | [] =>
        brand <- strip_of (multidict_get "brand" (form request)) ;;
        model <- strip_of (multidict_get "model" (form request)) ;;
        let year := or_zero (safe_int (multidict_get "year" (form request))) in
        let price := or_zero (safe_int (multidict_get "price" (form request))) in
        let mileage := or_zero (safe_int (multidict_get "mileage" (form request))) in
        let fuel_type := multidict_get "fuel_type" (form request) in
        country <- not_null (multidict_get "country" (form request)) ;;
        let image_url := or_empty (multidict_get "image_url" (form request)) in
        let description := or_empty (multidict_get "description" (form request)) in
        execute_insert t_cars [Some year; Some price; Some mileage]
          (fun _ d =>
             let cars' :=
               Sql.insert Car.id
                 (fun i => Car.mk i brand model year price (Some mileage) fuel_type
                                  country (Some image_url) (Some description))
                 (cars d) in
             (mkDatabase (users d) cars' (leads d) (tracking_events d), Sql.seq cars')) ;;
        flash n_car_added ;;
        ret (redirect (url_for ep_index))
    end.

Definition add_car : View := role_required ["admin"; "moderator"] add_car_body.

(* ================================================================== *)
(** ** [create_lead] and [leads_list] *)
(* ================================================================== *)

Definition create_lead_body : View :=
  fun request =>
    let name := Python.strip (multidict_get_or_empty "name" (form request)) in
    let phone := Python.strip (multidict_get_or_empty "phone" (form request)) in
    let email := Python.strip (multidict_get_or_empty "email" (form request)) in
    let preferred_brand :=
      Python.strip (multidict_get_or_empty "preferred_brand" (form request)) in
    let preferred_model :=
      Python.strip (multidict_get_or_empty "preferred_model" (form request)) in
    let budget := multidict_get "budget" (form request) in
    let country := multidict_get "preferred_country" (form request) in
    let comment := Python.strip (multidict_get_or_empty "comment" (form request)) in
    let car_id := multidict_get "car_id" (form request) in
    if negb (PyStr.truthy name) || negb (PyStr.truthy phone) then
      flash n_lead_name_phone_required ;;
      ret (redirect (with_fragment (url_for ep_index) "#request"))
    else
      user <- get_current_user ;;
      user_id <- match user with
                 | Some u => ret (User.id u)
                 | None => raise TypeError
                 end ;;
      execute_insert t_leads [safe_int car_id; safe_int budget; Some user_id]
        (fun now d =>
           let leads' :=
             Sql.insert Lead.id
               (fun i => Lead.mk i name phone (Some email) (safe_int car_id)
                                 (Some preferred_brand) (Some preferred_model) country
                                 (safe_int budget) (Some comment) now (Some user_id))
               (leads d) in
           (mkDatabase (users d) (cars d) leads' (tracking_events d), Sql.seq leads')) ;;
      flash n_lead_sent ;;
      ret (redirect (url_for ep_index)).

Definition create_lead : View := login_required create_lead_body.

(** [SELECT leads.*, cars.brand, cars.model, users.name, users.email,
    users.role FROM leads LEFT JOIN cars ON cars.id = leads.car_id
    LEFT JOIN users ON users.id = leads.user_id
    ORDER BY leads.created_at DESC]; [id] is the primary key of [cars] and of
    [users], so each join finds at most one row. *)
Definition select_leads (d : Database) : list LeadRow :=
  map (fun l =>
         (l,
          match Lead.car_id l with
          | Some c =>
              option_map (fun car => (Car.brand car, Car.model car))
                (find (fun car => Car.id car =? c) (Sql.rows (cars d)))
          | None => None
          end,
          match Lead.user_id l with
          | Some u =>
              option_map (fun usr => (User.name usr, User.email usr, User.role usr))
                (find (fun usr => User.id usr =? u) (Sql.rows (users d)))
          | None => None
          end))
      (Sql.order_by (fun a b => String.leb (Lead.created_at b) (Lead.created_at a))
                    (Sql.rows (leads d))).

Definition leads_list_body : View :=
  fun _ =>
    leads <- execute_select [t_leads; t_cars; t_users] select_leads ;;
    ret (render_template (leads_html leads)).

Definition leads_list : View := role_required ["admin"] leads_list_body.

(* ================================================================== *)
(** ** [manage_tracking] *)
(* ================================================================== *)

(** [SELECT id, brand, model, year FROM cars ORDER BY brand] *)
Definition select_cars_by_brand (d : Database) : list (Z * string * string * Z) :=
  map (fun car => (Car.id car, Car.brand car, Car.model car, Car.year car))
      (Sql.order_by (fun a b => String.leb (Car.brand a) (Car.brand b))
                    (Sql.rows (cars d))).

(** [SELECT tracking_events.*, cars.brand, cars.model FROM tracking_events
    JOIN cars ON cars.id = tracking_events.car_id
    ORDER BY tracking_events.updated_at DESC LIMIT 20] *)
Definition select_recent_events (d : Database) : list EventRow :=
  Sql.limit 20
    (Sql.order_by
       (fun a b : EventRow =>
          String.leb (TrackingEvent.updated_at (fst (fst b)))
                     (TrackingEvent.updated_at (fst (fst a))))
       (flat_map
          (fun e =>
             map (fun car => (e, Car.brand car, Car.model car))
                 (filter (fun car => Car.id car =? TrackingEvent.car_id e)
                         (Sql.rows (cars d))))
          (Sql.rows (tracking_events d)))).

Definition manage_tracking_body : View :=
  fun request =>
    match method request with
    | POST =>
        let car_id := safe_int (multidict_get "car_id" (form request)) in
        let status := Python.strip (multidict_get_or_empty "status" (form request)) in
        let location := Python.strip (multidict_get_or_empty "location" (form request)) in
        let eta := Python.strip (multidict_get_or_empty "eta" (form request)) in
        let comment := Python.strip (multidict_get_or_empty "comment" (form request)) in
        (if falsy_int car_id || negb (PyStr.truthy status) || negb (PyStr.truthy location)
         then flash n_tracking_fields_required
         else
           execute_insert t_tracking_events [car_id]
             (fun now d =>
                let events' :=
                  Sql.insert TrackingEvent.id
                    (fun i => TrackingEvent.mk i (or_zero car_id) status location
                                               (Some eta) (Some comment) now)
                    (tracking_events d) in
                (mkDatabase (users d) (cars d) (leads d) events', Sql.seq events')) ;;
           flash n_tracking_updated) ;;
        ret (redirect (url_for ep_manage_tracking))
    | GET =>
        cars <- execute_select [t_cars] select_cars_by_brand ;;
        events <- execute_select [t_tracking_events; t_cars] select_recent_events ;;
        ret (render_template (tracking_manage_html cars events))
    end.

Definition manage_tracking : View :=
  role_required ["admin"; "moderator"] manage_tracking_body.

(* ================================================================== *)
(** ** [register] *)
(* ================================================================== *)

Section Registration.

(** [werkzeug.security.generate_password_hash]: salted, so nothing is
    assumed about it. *)
Variable generate_password_hash : string -> string.

(** [SELECT id FROM users WHERE email = ?] and [fetchone()] *)
Definition select_user_id_by_email (email : string) (d : Database) : option Z :=
  option_map User.id
    (find (fun u => String.eqb (User.email u) email) (Sql.rows (users d))).

Definition register : View :=
  fun request =>
    user <- get_current_user ;;
    match user with
    | Some _ => ret (redirect (url_for ep_index))
    | None =>
        let next_url :=
          if PyStr.truthy_opt (multidict_get "next" (args request))
          then given_url (or_empty (multidict_get "next" (args request)))
          else if PyStr.truthy_opt (multidict_get "next" (form request))
          then given_url (or_empty (multidict_get "next" (form request)))
          else url_for ep_index in
        match method request with
        | POST =>
            let name := Python.strip (multidict_get_or_empty "name" (form request)) in
            let email :=
              Python.lower (Python.strip (multidict_get_or_empty "email" (form request))) in
            let phone := Python.strip (multidict_get_or_empty "phone" (form request)) in
            let password :=
              Python.strip (multidict_get_or_empty "password" (form request)) in
            let password_confirm :=
              Python.strip (multidict_get_or_empty "password_confirm" (form request)) in
            if negb (forallb PyStr.truthy [name; email; password; password_confirm]) then
              flash n_register_fields_required ;;
              ret (redirect (url_for_next ep_register next_url))
            else if negb (String.eqb password password_confirm) then
              flash n_passwords_differ ;;
              ret (redirect (url_for_next ep_register next_url))
            else
              existing <- execute_select [t_users] (select_user_id_by_email email) ;;
              match existing with
              | Some _ =>
                  flash n_email_taken ;;
                  ret (redirect (url_for_next ep_register next_url))
              | None =>
                  user_id <-
                    execute_insert t_users []
                      (fun now d =>
                         let users' :=
                           Sql.insert User.id
                             (fun i => User.mk i name email (Some phone)
                                               (generate_password_hash password)
                                               "customer" now)
                             (users d) in
                         (mkDatabase users' (cars d) (leads d) (tracking_events d),
                          Sql.seq users')) ;;
                  session_set_user_id user_id ;;
                  flash n_registered ;;
                  ret (redirect next_url)
              end
        | GET => ret (render_template (auth_register_html next_url))
        end
    end.

End Registration.

(** A request starts with no [g.current_user], nothing flashed by it and no
    statement executed. *)
Definition fresh (d : Database) (user_id : option Z) (now : string) : World :=
  mkWorld d user_id None [] [] now.

(** The answer of a view, when it returned. *)
Definition response_of (A : Type) (r : Outcome A * World) : option A :=
  match fst r with Returned a => Some a | Raised _ => None end.

Definition world_of (A : Type) (r : Outcome A * World) : World := snd r.

(** The list of cars a response shows, when it is the catalogue page. *)
Definition cars_shown (r : option Response) : option (list Car.t) :=
  match r with
  | Some (render_template (index_html cars _ _ _ _)) => Some cars
  | _ => None
  end.

(** The tracking map handed to the catalogue page. *)
Definition tracking_map_shown (r : option Response)
  : option (PyDict.t TrackingEvent.t) :=
  match r with
  | Some (render_template (index_html _ _ _ _ m)) => Some m
  | _ => None
  end.

(* ================================================================== *)
(** ** A small catalogue to run the handlers on *)
(* ================================================================== *)

(** The four cars, the two staff accounts and the four tracking events that
    [init_db.py] seeds (image links and descriptions left empty). *)
Definition seed_cars : list Car.t :=
  [ Car.mk 1 "Hyundai" "Sonata" 2021 25000 (Some 15000) (Some "Petrol") "Korea" (Some "") (Some "");
    Car.mk 2 "Kia" "Sorento" 2022 42000 (Some 5000) (Some "Hybrid") "Korea" (Some "") (Some "");
    Car.mk 3 "BYD" "Han" 2023 45000 (Some 0) (Some "Electric") "China" (Some "") (Some "");
    Car.mk 4 "Geely" "Monjaro" 2022 36000 (Some 8000) (Some "Petrol") "China" (Some "") (Some "") ].

Definition seed_users : list User.t :=
  [ User.mk 1 "Demo Manager" "demo@asiadrive.com" (Some "+82 10 1234 5678")
            "hash-of-demo1234" "admin" "2024-01-01 10:00:00";
    User.mk 2 "Moderator Kim" "moderator@asiadrive.com" (Some "+82 10 3434 5656")
            "hash-of-mod1234" "moderator" "2024-01-01 10:00:00" ].

Definition seed_events : list TrackingEvent.t :=
  [ TrackingEvent.mk 1 1 "Busan warehouse" "Busan" (Some "7 days") (Some "") "2024-01-01 10:00:00";
    TrackingEvent.mk 2 2 "At sea" "Yellow Sea" (Some "12 days") (Some "") "2024-01-01 10:00:00";
    TrackingEvent.mk 3 3 "Customs" "Vladivostok" (Some "5 days") (Some "") "2024-01-01 10:00:00";
    TrackingEvent.mk 4 4 "Delivery" "Novosibirsk" (Some "3 days") (Some "") "2024-01-01 10:00:00" ].

Definition seed_db : Database :=
  mkDatabase (Sql.mkTable seed_users 2) (Sql.mkTable seed_cars 4)
             (Sql.empty_table Lead.t) (Sql.mkTable seed_events 4).

Definition get_request (u : string) (a : MultiDict) : Request := mkRequest GET u a [].

Definition post_request (u : string) (f : MultiDict) : Request := mkRequest POST u [] f.

(* ================================================================== *)
(** ** Facts about the text primitives *)
(* ================================================================== *)

Lemma lower_char_not_upper (c : ascii) : PyStr.isupper (PyStr.lower_char c) = false.
Proof. each_ascii c; reflexivity. Qed.

Lemma lower_char_idem (c : ascii) :
  PyStr.lower_char (PyStr.lower_char c) = PyStr.lower_char c.
Proof. each_ascii c; reflexivity. Qed.

Lemma lower_idem (s : string) : PyStr.lower (PyStr.lower s) = PyStr.lower s.
Proof.
  induction s as [|c r IH]; simpl; [reflexivity|].
  now rewrite lower_char_idem, IH.
Qed.

(** The allow-list test of [index], in the words of the specification. *)
Lemma in_allow_list_spec (n : string) :
  in_allow_list n = true <-> Python.lower n = "china" \/ Python.lower n = "korea".
Proof.
  unfold in_allow_list; simpl. rewrite !orb_true_iff, !String.eqb_eq.
  intuition discriminate.
Qed.

(* ================================================================== *)
(** ** The catalogue query *)
(* ================================================================== *)

(** The normalisation [index] applies to a non-empty [country] argument. *)
Definition normalize_country (c : string) : string :=
  Python.capitalize (Python.lower (Python.strip c)).

(** The condition [index] builds from a non-empty search query. *)
Definition search_clause (q : string) : Clause :=
  lower_brand_or_model_like ("%" ++ Python.lower q ++ "%") ("%" ++ Python.lower q ++ "%").

(** The conditions [index] queries with, as a function of its two
    arguments. *)
Definition index_clauses (country_filter search_query : option string) : list Clause :=
  (match country_filter with
   | Some c =>
       if PyStr.truthy c && PyStr.truthy (normalize_country c)
          && in_allow_list (normalize_country c)
       then [lower_country_eq (normalize_country c)] else []
   | None => []
   end ++
   match search_query with
   | Some q => if PyStr.truthy q then [search_clause q] else []
   | None => []
   end)%list.

(** The page [index] renders on database [d]. *)
Definition index_page (request : Request) (d : Database) : Page :=
  index_html
    (select_cars (index_clauses (multidict_get "country" (args request))
                                (multidict_get "q" (args request))) d)
    (sorted (nodup string_dec (filter PyStr.truthy (select_distinct_country d))))
    (match multidict_get "country" (args request) with
     | Some c => if PyStr.truthy c then Some (normalize_country c) else None
     | None => None
     end)
    (multidict_get "q" (args request))
    (dict_by_car_id (latest_rows (Sql.rows (tracking_events d)))).

(** The query of [index] fails on the database. *)
Definition index_fails (request : Request) (d : Database) : bool :=
  select_cars_fails (index_clauses (multidict_get "country" (args request))
                                   (multidict_get "q" (args request))) d.

(** [index] raises [OperationalError] when its query fails; otherwise it
    answers with the catalogue page, and the cars on it are those of
    [select_cars] under [index_clauses]. *)
Lemma index_run (request : Request) (w : World) :
  fst (index request w)
  = if index_fails request (db w) then Raised OperationalError
    else Returned (render_template (index_page request (db w))).
Proof.
  unfold index, index_fails, index_page, index_clauses, normalize_country, search_clause.
  destruct (multidict_get "country" (args request)) as [c|];
    destruct (multidict_get "q" (args request)) as [q|];
    try destruct (PyStr.truthy c); try destruct (PyStr.truthy q);
    try destruct (PyStr.truthy (Python.capitalize _));
    try destruct (in_allow_list _);
    cbv beta iota delta [andb app bind execute_select_or_fail];
    match goal with
    | |- context [select_cars_fails ?cl (db w)] => destruct (select_cars_fails cl (db w))
    end; reflexivity.
Qed.

Lemma index_cars_shown (request : Request) (w : World) :
  cars_shown (response_of (index request w))
  = if index_fails request (db w) then None
    else Some (select_cars (index_clauses (multidict_get "country" (args request))
                                          (multidict_get "q" (args request)))
                           (db w)).
Proof.
  unfold response_of. rewrite index_run.
  destruct (index_fails request (db w)); reflexivity.
Qed.

Lemma In_insert_sorted (A : Type) (le : A -> A -> bool) (x y : A) (l : list A) :
  In y (Sql.insert_sorted le x l) <-> y = x \/ In y l.
Proof.
  induction l as [|z r IH]; simpl.
  - intuition.
  - destruct (le x z); simpl; rewrite ?IH; intuition.
Qed.

(** [ORDER BY] keeps exactly the rows it is given. *)
Lemma In_order_by (A : Type) (le : A -> A -> bool) (y : A) (l : list A) :
  In y (Sql.order_by le l) <-> In y l.
Proof.
  unfold Sql.order_by. induction l as [|x r IH]; simpl; [tauto|].
  rewrite In_insert_sorted, IH. intuition.
Qed.

Lemma order_by_nil_inv (A : Type) (le : A -> A -> bool) (l : list A) :
  Sql.order_by le l = [] -> l = [].
Proof.
  destruct l as [|x r]; [reflexivity|]. intros E.
  assert (H : In x (Sql.order_by le (x :: r))) by (apply In_order_by; now left).
  rewrite E in H. destruct H.
Qed.

(** Membership in the result of [select_cars]. *)
Lemma In_select_cars (clauses : list Clause) (d : Database) (car : Car.t) :
  In car (select_cars clauses d) <->
  In car (Sql.rows (cars d)) /\ forall c, In c clauses -> clause_holds c car = true.
Proof.
  unfold select_cars. rewrite In_order_by, filter_In, forallb_forall. tauto.
Qed.

(** [LOWER(country) = ?] holds of no row when the parameter is a text that
    [LOWER] changes. *)
Lemma lower_country_never_holds (n : string) (car : Car.t) :
  Sql.LOWER n <> n -> clause_holds (lower_country_eq n) car = false.
Proof.
  intros H. cbn. apply String.eqb_neq. intros E. apply H.
  rewrite <- E. unfold Sql.LOWER. apply lower_idem.
Qed.

(** Whenever [index] applies its country condition with a normalised name
    that is not in lower case, as a capitalised name is, it shows no car:
    [LOWER(country)] is compared with that name. *)
Lemma index_country_shows_nothing (request : Request) (w : World) (c : string) :
  multidict_get "country" (args request) = Some c ->
  PyStr.truthy c = true ->
  in_allow_list (normalize_country c) = true ->
  Sql.LOWER (normalize_country c) <> normalize_country c ->
  cars_shown (response_of (index request w)) = Some [].
Proof.
  intros Hc Ht Ha Hl. rewrite index_cars_shown. unfold index_fails. rewrite Hc.
  assert (Hn : PyStr.truthy (normalize_country c) = true).
  { destruct (normalize_country c); [now contradiction Hl | reflexivity]. }
  unfold index_clauses. rewrite Ht, Hn, Ha. cbn [andb app].
  unfold select_cars_fails, select_cars.
  induction (Sql.rows (cars (db w))) as [|car l IH]; [reflexivity|].
  cbn [existsb where_fails clause_fails filter forallb orb].
  rewrite (lower_country_never_holds car Hl). exact IH.
Qed.

Definition china_request : Request := get_request "/?country=china" [("country", "china")].

(** The pattern [index] builds from the search query is within the limit
    of [LIKE]; so it is when there is no query. *)
Definition within_like_limit (search_query : option string) : bool :=
  match search_query with
  | Some q => negb (Sql.too_complex ("%" ++ Python.lower q ++ "%"))
  | None => true
  end.

Lemma where_fails_none (clauses : list Clause) (car : Car.t) :
  (forall c, In c clauses -> clause_fails c car = false) ->
  where_fails clauses car = false.
Proof.
  induction clauses as [|c r IH]; intros H; [reflexivity|]. cbn [where_fails].
  rewrite (H c (or_introl eq_refl)), IH, andb_false_r; [reflexivity|].
  intros c' Hc'. apply H. now right.
Qed.

(** A query within the limit of [LIKE] does not fail. *)
Lemma index_within_limit (request : Request) (d : Database) :
  within_like_limit (multidict_get "q" (args request)) = true ->
  index_fails request d = false.
Proof.
  intros H. unfold index_fails, select_cars_fails.
  destruct (existsb _ (Sql.rows (cars d))) eqn:E; [|reflexivity].
  apply existsb_exists in E. destruct E as (car & _ & E).
  rewrite where_fails_none in E; [discriminate E|].
  intros c Hc. unfold index_clauses in Hc. apply in_app_or in Hc.
  destruct Hc as [Hc|Hc].
  - destruct (multidict_get "country" (args request)) as [x|]; [|destruct Hc].
    destruct (PyStr.truthy x && PyStr.truthy (normalize_country x)
              && in_allow_list (normalize_country x)); [|destruct Hc].
    destruct Hc as [<-|[]]. reflexivity.
  - destruct (multidict_get "q" (args request)) as [q|]; [|destruct Hc].
    destruct (PyStr.truthy q); [|destruct Hc].
    destruct Hc as [<-|[]]. cbv beta iota delta [within_like_limit] in H.
    apply negb_true_iff in H.
    unfold search_clause, clause_fails. now rewrite H, andb_false_r.
Qed.

(** A country outside the allow-list adds no condition to the query. *)
Lemma index_clauses_not_allowed (c : string) (search_query : option string) :
  in_allow_list (normalize_country c) = false ->
  index_clauses (Some c) search_query = index_clauses None search_query.
Proof. intros H. unfold index_clauses. now rewrite H, andb_false_r. Qed.

(** C5. A [country] argument whose normalised form is not, up to case,
    "china" or "korea" (the empty argument included) changes nothing:
    [index] shows the cars it shows for the same search without any
    [country] argument, and it raises an error only if that request raises
    the same error. No error is raised when the pattern of the search is
    within the limit of [LIKE]: the catalogue page is shown. *)
Theorem index_ignores_country_outside_allow_list
    (w : World) (request request0 : Request) (c : string) :
  multidict_get "country" (args request) = Some c ->
  Python.lower (normalize_country c) <> "china" ->
  Python.lower (normalize_country c) <> "korea" ->
  multidict_get "country" (args request0) = None ->
  multidict_get "q" (args request0) = multidict_get "q" (args request) ->
  cars_shown (response_of (index request w))
  = cars_shown (response_of (index request0 w))
  /\ (forall e, fst (index request w) = Raised e <-> fst (index request0 w) = Raised e)
  /\ (within_like_limit (multidict_get "q" (args request)) = true ->
      exists shown, cars_shown (response_of (index request w)) = Some shown).
Proof.
  intros Hc H1 H2 H0 Hq.
  assert (Ha : in_allow_list (normalize_country c) = false).
  { destruct (in_allow_list (normalize_country c)) eqn:E; [|reflexivity].
    apply in_allow_list_spec in E. tauto. }
  assert (Hf : index_fails request (db w) = index_fails request0 (db w)).
  { unfold index_fails. now rewrite Hc, H0, Hq, index_clauses_not_allowed. }
  split; [|split].
  - rewrite !index_cars_shown, Hf, Hc, H0, Hq, index_clauses_not_allowed by exact Ha.
    reflexivity.
  - intros e. rewrite !index_run, Hf.
    destruct (index_fails request0 (db w)); [tauto|]. split; discriminate.
  - intros Hl. rewrite index_cars_shown, index_within_limit by exact Hl. eauto.
Qed.

(* ------------------------------------------------------------------ *)
(** *** The search condition *)

(** A query without the two wildcard characters of [LIKE]. *)
Fixpoint wildcard_free (q : string) : bool :=
  match q with
  | EmptyString => true
  | String c r => negb (Ascii.eqb c "%") && negb (Ascii.eqb c "_") && wildcard_free r
  end.

Lemma lower_char_percent (c : ascii) :
  Ascii.eqb (PyStr.lower_char c) "%" = Ascii.eqb c "%".
Proof. each_ascii c; reflexivity. Qed.

Lemma lower_char_underscore (c : ascii) :
  Ascii.eqb (PyStr.lower_char c) "_" = Ascii.eqb c "_".
Proof. each_ascii c; reflexivity. Qed.

Lemma char_tails_end (inside : bool) (s : string) :
  In EmptyString (Sql.char_tails_from inside s).
Proof.
  revert inside. induction s as [|c r IH]; intros inside; cbn; [now left|].
  destruct (inside && Sql.is_continuation c); [apply IH | right; apply IH].
Qed.

(** [%] alone matches every text. *)
Lemma pattern_percent_only (s : string) : Sql.pattern_compare "%" s = true.
Proof.
  cbn. apply existsb_exists. exists EmptyString. split; [apply char_tails_end | reflexivity].
Qed.

(** A literal pattern followed by [%] is a prefix test. *)
Lemma pattern_literal_prefix (p s : string) :
  wildcard_free p = true ->
  Sql.pattern_compare (PyStr.lower p ++ "%") (PyStr.lower s)
  = String.prefix (PyStr.lower p) (PyStr.lower s).
Proof.
  revert s. induction p as [|c p' IH]; intros s Hp.
  - change (PyStr.lower "" ++ "%") with "%". rewrite pattern_percent_only.
    now destruct (PyStr.lower s).
  - simpl in Hp. apply andb_true_iff in Hp. destruct Hp as [Hc Hp'].
    apply andb_true_iff in Hc. destruct Hc as [H1 H2].
    apply negb_true_iff in H1, H2.
    simpl. rewrite lower_char_percent, H1.
    destruct s as [|d s']; [reflexivity|]. simpl.
    rewrite lower_char_underscore, H2, !lower_char_idem, IH by exact Hp'.
    destruct (ascii_dec (PyStr.lower_char c) (PyStr.lower_char d)) as [E|N].
    + rewrite E, Ascii.eqb_refl. reflexivity.
    + apply Ascii.eqb_neq in N. rewrite N. reflexivity.
Qed.

(** Every suffix of a text, the empty suffix last. *)
Fixpoint all_tails (s : string) : list string :=
  match s with
  | EmptyString => [EmptyString]
  | String _ r => s :: all_tails r
  end.

Lemma contains_all_tails (needle hay : string) :
  PyStr.contains needle hay = existsb (String.prefix needle) (all_tails hay).
Proof.
  induction hay as [|c r IH]; cbn; [reflexivity|]. now rewrite IH.
Qed.

(** A test that fails on the texts that start inside a character cannot
    tell the suffixes that start at a character from all the suffixes. *)
Lemma char_tails_all (f : string -> bool) (inside : bool) (s : string) :
  (forall c r, Sql.is_continuation c = true -> f (String c r) = false) ->
  existsb f (Sql.char_tails_from inside s) = existsb f (all_tails s).
Proof.
  intros Hf. revert inside. induction s as [|c r IH]; intros inside; [reflexivity|].
  cbn [Sql.char_tails_from all_tails].
  destruct (inside && Sql.is_continuation c) eqn:E.
  - apply andb_true_iff in E. destruct E as [_ E].
    cbn [existsb]. now rewrite (Hf c r E), IH.
  - cbn [existsb]. now rewrite IH.
Qed.

(** The top bit of a byte: clear in an ASCII character, set in a
    continuation byte, and kept by [lower_char]. *)
Definition top_bit (c : ascii) : bool :=
  match c with Ascii _ _ _ _ _ _ _ b => b end.

Lemma top_bit_ascii (c : ascii) : (nat_of_ascii c <? 128)%nat = negb (top_bit c).
Proof. each_ascii c; reflexivity. Qed.

Lemma top_bit_continuation (c : ascii) : Sql.is_continuation c = true -> top_bit c = true.
Proof. each_ascii c; intros H; first [reflexivity | discriminate H]. Qed.

Lemma top_bit_lower_char (c : ascii) : top_bit (PyStr.lower_char c) = top_bit c.
Proof. each_ascii c; reflexivity. Qed.

(** For a non-empty ASCII query without wildcards, the pattern [index]
    builds matches exactly the texts that contain the lower-cased query. *)
Lemma pattern_contains (q s : string) :
  PyStr.truthy q = true ->
  PyStr.isascii q = true ->
  wildcard_free q = true ->
  Sql.pattern_compare ("%" ++ PyStr.lower q ++ "%") (PyStr.lower s)
  = PyStr.contains (PyStr.lower q) (PyStr.lower s).
Proof.
  intros Ht Ha Hq.
  change ("%" ++ PyStr.lower q ++ "%") with (String "%" (PyStr.lower q ++ "%")).
  cbn [Sql.pattern_compare]. change (Ascii.eqb "%" "%") with true. cbv iota.
  unfold Sql.char_tails. rewrite char_tails_all.
  - rewrite contains_all_tails.
    induction s as [|d s' IH].
    + pose proof (pattern_literal_prefix q "" Hq) as K. cbn [PyStr.lower] in K.
      cbn [PyStr.lower all_tails existsb]. now rewrite K.
    + change (PyStr.lower (String d s')) with (String (PyStr.lower_char d) (PyStr.lower s')).
      cbn [all_tails existsb]. rewrite IH.
      change (String (PyStr.lower_char d) (PyStr.lower s')) with (PyStr.lower (String d s')).
      now rewrite pattern_literal_prefix by exact Hq.
  - intros c r Hc. destruct q as [|a q']; [discriminate Ht|].
    cbn [PyStr.isascii] in Ha. apply andb_true_iff in Ha. destruct Ha as [Ha _].
    cbn [wildcard_free] in Hq. apply andb_true_iff in Hq. destruct Hq as [Hq _].
    apply andb_true_iff in Hq. destruct Hq as [H1 H2]. apply negb_true_iff in H1, H2.
    cbn [PyStr.lower append Sql.pattern_compare].
    rewrite lower_char_percent, H1, lower_char_underscore, H2.
    replace (Ascii.eqb (PyStr.lower_char (PyStr.lower_char a)) (PyStr.lower_char c))
      with false; [reflexivity|].
    symmetry. apply Ascii.eqb_neq. intros E. apply (f_equal top_bit) in E.
    rewrite !top_bit_lower_char, (top_bit_continuation c Hc) in E.
    rewrite top_bit_ascii, E in Ha. discriminate Ha.
Qed.

Lemma c_string_nul_free (s : string) : Sql.nul_free s = true -> Sql.c_string s = s.
Proof.
  induction s as [|c r IH]; cbn; [reflexivity|]. intros H.
  apply andb_true_iff in H. destruct H as [H1 H2]. apply negb_true_iff in H1.
  now rewrite H1, IH.
Qed.

Lemma nul_free_lower (s : string) : Sql.nul_free (PyStr.lower s) = Sql.nul_free s.
Proof.
  induction s as [|c r IH]; cbn; [reflexivity|]. rewrite IH. f_equal. f_equal.
  each_ascii c; reflexivity.
Qed.

Lemma nul_free_app (a b : string) :
  Sql.nul_free (a ++ b) = Sql.nul_free a && Sql.nul_free b.
Proof. induction a as [|c r IH]; cbn; [reflexivity|]. now rewrite IH, andb_assoc. Qed.

(** For a non-empty ASCII query without wildcards and without NUL, the
    [LIKE] that [index] builds holds exactly of the texts without NUL that
    contain the lower-cased query. *)
Lemma like_contains (q s : string) :
  PyStr.truthy q = true ->
  PyStr.isascii q = true ->
  Sql.nul_free q = true ->
  wildcard_free q = true ->
  Sql.nul_free s = true ->
  Sql.like ("%" ++ PyStr.lower q ++ "%") (Sql.LOWER s)
  = PyStr.contains (PyStr.lower q) (PyStr.lower s).
Proof.
  intros Ht Ha Hn Hq Hs. unfold Sql.like, Sql.LOWER.
  rewrite !c_string_nul_free.
  - now apply pattern_contains.
  - now rewrite nul_free_lower.
  - change ("%" ++ PyStr.lower q ++ "%") with (String "%" (PyStr.lower q ++ "%")).
    cbn [Sql.nul_free]. now rewrite nul_free_app, nul_free_lower, Hn.
Qed.

(** The brand and the model of every car hold no NUL. *)
Definition names_nul_free (d : Database) : Prop :=
  forall car, In car (Sql.rows (cars d)) ->
    Sql.nul_free (Car.brand car) = true /\ Sql.nul_free (Car.model car) = true.

(** With no country filter and a non-empty search query of ASCII
    characters other than NUL and the wildcards, whose pattern is within
    the limit of [LIKE], [index] shows exactly the cars whose brand or
    model contains the query up to the case of the ASCII letters. The
    brands and models hold no NUL, at which [LIKE] stops reading them. *)
Lemma index_search_without_wildcards (request : Request) (w : World) (q : string) :
  multidict_get "country" (args request) = None ->
  multidict_get "q" (args request) = Some q ->
  PyStr.truthy q = true ->
  PyStr.isascii q = true ->
  Sql.nul_free q = true ->
  wildcard_free q = true ->
  within_like_limit (Some q) = true ->
  names_nul_free (db w) ->
  exists shown,
    cars_shown (response_of (index request w)) = Some shown
    /\ forall car,
         In car shown <->
         In car (Sql.rows (cars (db w)))
         /\ (PyStr.contains (PyStr.lower q) (PyStr.lower (Car.brand car))
             || PyStr.contains (PyStr.lower q) (PyStr.lower (Car.model car))) = true.
Proof.
  intros Hc Hq Ht Ha Hn Hw Hl Hnf. eexists. split.
  - rewrite index_cars_shown, index_within_limit, Hc, Hq by (now rewrite Hq).
    reflexivity.
  - intros car. unfold index_clauses. rewrite Ht. cbn [app].
    rewrite In_select_cars.
    assert (K : In car (Sql.rows (cars (db w))) ->
                clause_holds (search_clause q) car
                = PyStr.contains (PyStr.lower q) (PyStr.lower (Car.brand car))
                  || PyStr.contains (PyStr.lower q) (PyStr.lower (Car.model car))).
    { intros Hin. destruct (Hnf car Hin) as [Hb Hm].
      cbv beta iota delta [clause_holds search_clause].
      rewrite Python.lower_ascii by exact Ha. now rewrite !like_contains by assumption. }
    split; intros [Hin H]; (split; [exact Hin|]).
    + rewrite <- (K Hin). apply H. now left.
    + intros c [<-|[]]. now rewrite (K Hin).
Qed.

Definition underscore_request : Request := get_request "/?q=_" [("q", "_")].

(* ================================================================== *)
(** ** The latest tracking event of each car *)
(* ================================================================== *)

(* ------------------------------------------------------------------ *)
(** *** The order of [TEXT] values *)

Lemma ascii_compare_refl (a : ascii) : Ascii.compare a a = Eq.
Proof. unfold Ascii.compare. apply N.compare_refl. Qed.

Lemma text_compare_refl (s : string) : String.compare s s = Eq.
Proof.
  induction s as [|a r IH]; simpl; [reflexivity|].
  now rewrite ascii_compare_refl.
Qed.

Lemma text_leb_refl (s : string) : String.leb s s = true.
Proof. unfold String.leb. now rewrite text_compare_refl. Qed.

Lemma text_leb_trans (a b c : string) :
  String.leb a b = true -> String.leb b c = true -> String.leb a c = true.
Proof.
  unfold String.leb. revert b c.
  induction a as [|x a' IH]; intros [|y b'] [|z c']; simpl; try easy.
  unfold Ascii.compare.
  destruct (N.compare_spec (N_of_ascii x) (N_of_ascii y)) as [E1|L1|G1];
    destruct (N.compare_spec (N_of_ascii y) (N_of_ascii z)) as [E2|L2|G2];
    try easy; intros H1 H2.
  - rewrite E1, E2, N.compare_refl. now apply IH with b'.
  - rewrite E1. now apply N.compare_lt_iff in L2 as ->.
  - rewrite <- E2. now apply N.compare_lt_iff in L1 as ->.
  - assert (L : (N_of_ascii x < N_of_ascii z)%N) by lia.
    now apply N.compare_lt_iff in L as ->.
Qed.

Lemma text_max_cases (a b : string) :
  (Sql.text_max a b = a /\ String.leb b a = true)
  \/ (Sql.text_max a b = b /\ String.leb a b = true).
Proof.
  unfold Sql.text_max. destruct (String.leb a b) eqn:E.
  - right. auto.
  - left. split; [reflexivity|].
    destruct (String.leb_total a b) as [H|H]; congruence.
Qed.

(* ------------------------------------------------------------------ *)
(** *** Keyed updates of an association list *)

(** [setitem] and [group_add] both walk the list to the first item with the
    key, rewrite its value, and append an item when there is none. *)
Section Upsert.
Variable V : Type.
Variable f : option V -> V.

Fixpoint upsert (k : Z) (d : list (Z * V)) : list (Z * V) :=
  match d with
  | [] => [(k, f None)]
  | (k', v') :: r =>
      if k' =? k then (k', f (Some v')) :: r else (k', v') :: upsert k r
  end.

Lemma get_upsert (k k0 : Z) (d : list (Z * V)) :
  PyDict.get k0 (upsert k d)
  = if k0 =? k then Some (f (PyDict.get k d)) else PyDict.get k0 d.
Proof.
  induction d as [|[k' v'] r IH]; simpl.
  - rewrite (Z.eqb_sym k k0). reflexivity.
  - destruct (k' =? k) eqn:E; simpl.
    + apply Z.eqb_eq in E. subst k'.
      rewrite (Z.eqb_sym k k0). now destruct (k0 =? k).
    + rewrite IH. destruct (k' =? k0) eqn:E0; [|reflexivity].
      apply Z.eqb_eq in E0. subst k'. now rewrite E.
Qed.

Lemma keys_upsert (k : Z) (d : list (Z * V)) :
  PyDict.keys (upsert k d)
  = if existsb (Z.eqb k) (PyDict.keys d) then PyDict.keys d
    else (PyDict.keys d ++ [k])%list.
Proof.
  unfold PyDict.keys. induction d as [|[k' v'] r IH]; simpl; [reflexivity|].
  rewrite (Z.eqb_sym k k'). destruct (k' =? k); simpl; [reflexivity|].
  rewrite IH. now destruct (existsb (Z.eqb k) (map fst r)).
Qed.

Lemma NoDup_keys_upsert (k : Z) (d : list (Z * V)) :
  NoDup (PyDict.keys d) -> NoDup (PyDict.keys (upsert k d)).
Proof.
  intros H. rewrite keys_upsert.
  destruct (existsb (Z.eqb k) (PyDict.keys d)) eqn:E; [exact H|].
  apply NoDup_app; [exact H | apply NoDup_cons; [intros [] | apply NoDup_nil] |].
  intros x Hx [Ek|[]].
  assert (existsb (Z.eqb k) (PyDict.keys d) = true); [|congruence].
  apply existsb_exists. exists x. split; [exact Hx | now apply Z.eqb_eq].
Qed.
End Upsert.

Lemma setitem_upsert (V : Type) (k : Z) (v : V) (d : PyDict.t V) :
  PyDict.setitem k v d = upsert (fun _ => v) k d.
Proof.
  induction d as [|[k' v'] r IH]; simpl; [reflexivity|].
  destruct (k' =? k) eqn:E; [|now rewrite IH].
  apply Z.eqb_eq in E. now subst.
Qed.

Lemma group_add_upsert (c : Z) (u : string) (groups : list (Z * string)) :
  group_add c u groups
  = upsert (fun o => match o with Some m => Sql.text_max m u | None => u end) c groups.
Proof.
  induction groups as [|[k' v'] r IH]; simpl; [reflexivity|].
  now rewrite IH.
Qed.

Lemma get_some_In (V : Type) (k : Z) (v : V) (d : PyDict.t V) :
  PyDict.get k d = Some v -> In (k, v) d.
Proof.
  induction d as [|[k' v'] r IH]; simpl; [discriminate|].
  destruct (k' =? k) eqn:E.
  - apply Z.eqb_eq in E. intros [= ->]. left. now subst.
  - auto.
Qed.

Lemma In_get_some (V : Type) (k : Z) (v : V) (d : PyDict.t V) :
  NoDup (PyDict.keys d) -> In (k, v) d -> PyDict.get k d = Some v.
Proof.
  unfold PyDict.keys. induction d as [|[k' v'] r IH]; simpl; [easy|].
  intros Hnd [E|Hin].
  - injection E as -> ->. now rewrite Z.eqb_refl.
  - inversion Hnd as [|? ? Hnot Hnd']; subst.
    destruct (k' =? k) eqn:E; [|auto].
    apply Z.eqb_eq in E. subst k'. exfalso. apply Hnot.
    change k with (fst (k, v)). now apply in_map.
Qed.

Lemma In_keys_get (V : Type) (k : Z) (d : PyDict.t V) :
  In k (PyDict.keys d) <-> exists v, PyDict.get k d = Some v.
Proof.
  unfold PyDict.keys. induction d as [|[k' v'] r IH]; simpl.
  - split; [easy | intros [v H]; discriminate].
  - destruct (k' =? k) eqn:E.
    + apply Z.eqb_eq in E. split; [eauto | auto].
    + apply Z.eqb_neq in E. rewrite IH. intuition.
Qed.

(* ------------------------------------------------------------------ *)
(** *** The grouped maximum and the join *)

(** The maximum of [updated_at] over the events of car [c], scanning the
    events after a maximum [acc] found so far. *)
Definition max_updated (c : Z) (events : list TrackingEvent.t) (acc : option string)
  : option string :=
  fold_left (fun acc e =>
               if c =? TrackingEvent.car_id e
               then Some (match acc with
                          | Some m => Sql.text_max m (TrackingEvent.updated_at e)
                          | None => TrackingEvent.updated_at e
                          end)
               else acc)
            events acc.

Lemma latest_from_get (c : Z) (events : list TrackingEvent.t) (groups : list (Z * string)) :
  PyDict.get c
    (fold_left (fun groups e => group_add (TrackingEvent.car_id e) (TrackingEvent.updated_at e) groups) events groups)
  = max_updated c events (PyDict.get c groups).
Proof.
  revert groups. induction events as [|e r IH]; intros groups; [reflexivity|].
  simpl. rewrite IH, group_add_upsert, get_upsert. unfold max_updated. simpl.
  destruct (c =? TrackingEvent.car_id e) eqn:E; [|reflexivity].
  apply Z.eqb_eq in E. now rewrite E.
Qed.

Lemma latest_from_NoDup (events : list TrackingEvent.t) (groups : list (Z * string)) :
  NoDup (PyDict.keys groups) ->
  NoDup (PyDict.keys
           (fold_left (fun groups e => group_add (TrackingEvent.car_id e) (TrackingEvent.updated_at e) groups)
                      events groups)).
Proof.
  revert groups. induction events as [|e r IH]; intros groups H; [exact H|].
  simpl. apply IH. rewrite group_add_upsert. now apply NoDup_keys_upsert.
Qed.

Lemma latest_NoDup (events : list TrackingEvent.t) : NoDup (PyDict.keys (latest events)).
Proof. apply latest_from_NoDup. constructor. Qed.

Lemma latest_get (c : Z) (events : list TrackingEvent.t) :
  PyDict.get c (latest events) = max_updated c events None.
Proof. unfold latest. now rewrite latest_from_get. Qed.

(** The maximum is the time of one of the events of the car (or the
    starting value). *)
Lemma max_updated_attained (c : Z) (events : list TrackingEvent.t)
    (acc : option string) (m : string) :
  max_updated c events acc = Some m ->
  acc = Some m \/ exists e, In e events /\ TrackingEvent.car_id e = c /\ TrackingEvent.updated_at e = m.
Proof.
  unfold max_updated. revert acc.
  induction events as [|e r IH]; intros acc H; simpl in H; [now left|].
  apply IH in H. destruct H as [H|(e' & Hin & Hc & Ht)].
  - destruct (c =? TrackingEvent.car_id e) eqn:E; [|now left].
    apply Z.eqb_eq in E. injection H as H. destruct acc as [a|].
    + destruct (text_max_cases a (TrackingEvent.updated_at e)) as [[Hm _]|[Hm _]]; rewrite Hm in H.
      * left. now subst.
      * right. exists e. simpl. auto.
    + right. exists e. simpl. auto.
  - right. exists e'. simpl. auto.
Qed.

(** The maximum bounds the starting value and every event of the car. *)
Lemma max_updated_bound (c : Z) (events : list TrackingEvent.t)
    (acc : option string) (m : string) :
  max_updated c events acc = Some m ->
  (forall a, acc = Some a -> String.leb a m = true)
  /\ (forall e, In e events -> TrackingEvent.car_id e = c -> String.leb (TrackingEvent.updated_at e) m = true).
Proof.
  unfold max_updated. revert acc.
  induction events as [|e r IH]; intros acc H; simpl in H.
  - split; [|easy]. intros a Ha. rewrite Ha in H. injection H as ->.
    apply text_leb_refl.
  - apply IH in H. destruct H as [Hacc Hr].
    destruct (c =? TrackingEvent.car_id e) eqn:E.
    + specialize (Hacc _ eq_refl). split.
      * intros a ->. destruct (text_max_cases a (TrackingEvent.updated_at e)) as [[Hm Hl]|[Hm Hl]];
          rewrite Hm in Hacc; [exact Hacc|].
        now apply text_leb_trans with (TrackingEvent.updated_at e).
      * intros e' [<-|Hin] Hc; [|now apply Hr].
        destruct acc as [a|]; [|exact Hacc].
        destruct (text_max_cases a (TrackingEvent.updated_at e)) as [[Hm Hl]|[Hm Hl]];
          rewrite Hm in Hacc; [|exact Hacc].
        now apply text_leb_trans with a.
    + split; [exact Hacc|]. intros e' [<-|Hin] Hc; [|now apply Hr].
      apply Z.eqb_neq in E. congruence.
Qed.

(** A car with an event has a maximum. *)
Lemma max_updated_defined (c : Z) (events : list TrackingEvent.t) (acc : option string) :
  acc <> None \/ (exists e, In e events /\ TrackingEvent.car_id e = c) ->
  exists m, max_updated c events acc = Some m.
Proof.
  unfold max_updated. revert acc.
  induction events as [|e r IH]; intros acc H; simpl.
  - destruct H as [H|(e & [] & _)]. destruct acc; [eauto|congruence].
  - apply IH. destruct (c =? TrackingEvent.car_id e) eqn:E; [left; discriminate|].
    destruct H as [H|(e' & [<-|Hin] & Hc)]; [now left | | right; eauto].
    apply Z.eqb_neq in E. congruence.
Qed.

(** The rows of the join are the events whose time is the maximum of their
    car. *)
Lemma In_latest_rows (events : list TrackingEvent.t) (t : TrackingEvent.t) :
  In t (latest_rows events) <->
  In t events /\ max_updated (TrackingEvent.car_id t) events None = Some (TrackingEvent.updated_at t).
Proof.
  unfold latest_rows. rewrite in_flat_map, <- latest_get. split.
  - intros (x & Hx & Hin). apply in_map_iff in Hin. destruct Hin as (l & <- & Hl).
    apply filter_In in Hl. destruct Hl as [Hl Hon]. split; [exact Hx|].
    unfold join_on in Hon. apply andb_true_iff in Hon. destruct Hon as [H1 H2].
    apply Z.eqb_eq in H1. apply String.eqb_eq in H2.
    apply In_get_some; [apply latest_NoDup|]. destruct l as [c m]. simpl in *. now subst.
  - intros [Hin Hget]. exists t. split; [exact Hin|].
    apply in_map_iff. exists (TrackingEvent.car_id t, TrackingEvent.updated_at t). split; [reflexivity|].
    apply filter_In. split; [now apply get_some_In|].
    unfold join_on. simpl. now rewrite Z.eqb_refl, String.eqb_refl.
Qed.

(* ------------------------------------------------------------------ *)
(** *** The dictionary built from the rows *)

(** The last row of car [c], scanning the rows after a row [acc] found so
    far. *)
Definition last_row (c : Z) (rows : list TrackingEvent.t) (acc : option TrackingEvent.t)
  : option TrackingEvent.t :=
  fold_left (fun acc row => if c =? TrackingEvent.car_id row then Some row else acc) rows acc.

Lemma dict_from_get (c : Z) (rows : list TrackingEvent.t) (d : PyDict.t TrackingEvent.t) :
  PyDict.get c (fold_left (fun d row => PyDict.setitem (TrackingEvent.car_id row) row d) rows d)
  = last_row c rows (PyDict.get c d).
Proof.
  revert d. induction rows as [|row r IH]; intros d; [reflexivity|].
  simpl. rewrite IH, setitem_upsert, get_upsert. reflexivity.
Qed.

Lemma dict_from_NoDup (rows : list TrackingEvent.t) (d : PyDict.t TrackingEvent.t) :
  NoDup (PyDict.keys d) ->
  NoDup (PyDict.keys (fold_left (fun d row => PyDict.setitem (TrackingEvent.car_id row) row d) rows d)).
Proof.
  revert d. induction rows as [|row r IH]; intros d H; [exact H|].
  simpl. apply IH. rewrite setitem_upsert. now apply NoDup_keys_upsert.
Qed.

(** A dictionary never holds two items under one key. *)
Lemma dict_by_car_id_NoDup (rows : list TrackingEvent.t) :
  NoDup (PyDict.keys (dict_by_car_id rows)).
Proof. apply dict_from_NoDup. constructor. Qed.

Lemma dict_by_car_id_get (c : Z) (rows : list TrackingEvent.t) :
  PyDict.get c (dict_by_car_id rows) = last_row c rows None.
Proof. unfold dict_by_car_id. now rewrite dict_from_get. Qed.

Lemma last_row_In (c : Z) (rows : list TrackingEvent.t)
    (acc : option TrackingEvent.t) (r : TrackingEvent.t) :
  last_row c rows acc = Some r -> acc = Some r \/ (In r rows /\ TrackingEvent.car_id r = c).
Proof.
  unfold last_row. revert acc.
  induction rows as [|row rs IH]; intros acc H; simpl in H; [now left|].
  apply IH in H. destruct H as [H|[Hin Hc]]; [|right; simpl; auto].
  destruct (c =? TrackingEvent.car_id row) eqn:E; [|now left].
  apply Z.eqb_eq in E. injection H as <-. right. simpl. auto.
Qed.

Lemma last_row_defined (c : Z) (rows : list TrackingEvent.t) (acc : option TrackingEvent.t) :
  acc <> None \/ (exists row, In row rows /\ TrackingEvent.car_id row = c) ->
  exists r, last_row c rows acc = Some r.
Proof.
  unfold last_row. revert acc.
  induction rows as [|row rs IH]; intros acc H; simpl.
  - destruct H as [H|(e & [] & _)]. destruct acc; [eauto|congruence].
  - apply IH. destruct (c =? TrackingEvent.car_id row) eqn:E; [left; discriminate|].
    destruct H as [H|(e' & [<-|Hin] & Hc)]; [now left | | right; eauto].
    apply Z.eqb_neq in E. congruence.
Qed.

(* ------------------------------------------------------------------ *)
(** *** What [latest_tracking] returns *)

Lemma latest_tracking_returns (w : World) :
  response_of (latest_tracking w)
  = Some (dict_by_car_id (latest_rows (Sql.rows (tracking_events (db w))))).
Proof. reflexivity. Qed.

(** The entry of a car is one of its events, and its time is the maximum
    over the events of the car. *)
Lemma tracking_entry_is_newest (events : list TrackingEvent.t) (c : Z) (r : TrackingEvent.t) :
  PyDict.get c (dict_by_car_id (latest_rows events)) = Some r ->
  In r events /\ TrackingEvent.car_id r = c
  /\ forall e, In e events -> TrackingEvent.car_id e = c ->
               String.leb (TrackingEvent.updated_at e) (TrackingEvent.updated_at r) = true.
Proof.
  rewrite dict_by_car_id_get. intros H.
  apply last_row_In in H. destruct H as [H|[Hin Hc]]; [discriminate|].
  apply In_latest_rows in Hin. destruct Hin as [Hin Hmax].
  rewrite Hc in Hmax. repeat split; try assumption.
  now apply (max_updated_bound _ _ _ Hmax).
Qed.

(** A car with an event has an entry. *)
Lemma tracking_entry_exists (events : list TrackingEvent.t) (c : Z) :
  (exists e, In e events /\ TrackingEvent.car_id e = c) ->
  exists r, PyDict.get c (dict_by_car_id (latest_rows events)) = Some r.
Proof.
  intros He. rewrite dict_by_car_id_get. apply last_row_defined. right.
  destruct (@max_updated_defined c events None (or_intror He)) as [m Hm].
  destruct (max_updated_attained _ _ _ Hm) as [H|(e & Hin & Hc & Ht)]; [discriminate|].
  exists e. split; [|exact Hc]. apply In_latest_rows. split; [exact Hin|].
  now rewrite Hc, Ht.
Qed.

(** C2. [latest_tracking] returns a dictionary in which every car that has
    a tracking event has an entry; the entry of a car is an event of that
    car, and no event of the same car has a later [updated_at]. *)
Theorem latest_tracking_newest_event_of_each_car (w : World) :
  exists m,
    response_of (latest_tracking w) = Some m
    /\ (forall c,
          (exists e, In e (Sql.rows (tracking_events (db w)))
                     /\ TrackingEvent.car_id e = c) ->
          exists r, PyDict.get c m = Some r)
    /\ (forall c r,
          PyDict.get c m = Some r ->
          In r (Sql.rows (tracking_events (db w)))
          /\ TrackingEvent.car_id r = c
          /\ forall e, In e (Sql.rows (tracking_events (db w))) ->
                       TrackingEvent.car_id e = c ->
                       String.leb (TrackingEvent.updated_at e)
                                  (TrackingEvent.updated_at r) = true).
Proof.
  eexists. split; [apply latest_tracking_returns|]. split.
  - intros c. apply tracking_entry_exists.
  - intros c r. apply tracking_entry_is_newest.
Qed.

(** C10. The dictionary [latest_tracking] returns has no key twice, and
    its keys are exactly the cars that have a tracking event: it holds one
    entry for each of them, as many entries as there are distinct [car_id]
    in the table, whatever the number of rows the join yields. *)
Theorem latest_tracking_one_entry_per_car (w : World) :
  exists m,
    response_of (latest_tracking w) = Some m
    /\ NoDup (PyDict.keys m)
    /\ (forall c,
          In c (PyDict.keys m) <->
          exists e, In e (Sql.rows (tracking_events (db w)))
                    /\ TrackingEvent.car_id e = c)
    /\ List.length m
       = List.length (nodup Z.eq_dec
                   (map TrackingEvent.car_id (Sql.rows (tracking_events (db w))))).
Proof.
  eexists. split; [apply latest_tracking_returns|].
  set (events := Sql.rows (tracking_events (db w))).
  assert (Hkeys : forall c,
             In c (PyDict.keys (dict_by_car_id (latest_rows events))) <->
             exists e, In e events /\ TrackingEvent.car_id e = c).
  { intros c. rewrite In_keys_get. split.
    - intros [r Hr]. apply tracking_entry_is_newest in Hr. exists r. tauto.
    - apply tracking_entry_exists. }
  split; [apply dict_by_car_id_NoDup|]. split; [exact Hkeys|].
  rewrite <- (length_map fst). fold (PyDict.keys (dict_by_car_id (latest_rows events))).
  apply Permutation_length.
  apply NoDup_Permutation; [apply dict_by_car_id_NoDup | apply NoDup_nodup |].
  intros c. rewrite nodup_In, Hkeys, in_map_iff.
  split; intros (e & H1 & H2); exists e; tauto.
Qed.

(** Two events of car 7 with the same time: the join yields both rows, the
    dictionary keeps one entry, the row the join yields last. *)
Example latest_tracking_tie :
  let e1 := TrackingEvent.mk 1 7 "At sea" "Yellow Sea" None None "2024-03-01 12:00:00" in
  let e2 := TrackingEvent.mk 2 7 "Customs" "Vladivostok" None None "2024-03-01 12:00:00" in
  latest_rows [e1; e2] = [e1; e2]
  /\ dict_by_car_id (latest_rows [e1; e2]) = [(7, e2)].
Proof. split; reflexivity. Qed.

(* ================================================================== *)
(** ** Reading the outcome of a request *)
(* ================================================================== *)

(** The error kinds of the specification. [app.py] has no exception for
    them: a rejected request flashes a notice of category [error] and is
    redirected; each such notice is read as the kind of rejection it
    reports. *)
Inductive ErrorKind : Type :=
| ValidationError | ConflictError | AuthenticationRequired | AuthorizationError.

Definition error_kind (n : Notice) : option ErrorKind :=
  match n with
  | n_login_to_send_lead | n_login_to_continue => Some AuthenticationRequired
  | n_no_permission => Some AuthorizationError
  | n_car_fields_required | n_lead_name_phone_required | n_tracking_fields_required
  | n_register_fields_required | n_passwords_differ => Some ValidationError
  | n_email_taken => Some ConflictError
  | n_car_added | n_lead_sent | n_tracking_updated | n_registered => None
  end.

Definition same_kind (a b : ErrorKind) : bool :=
  match a, b with
  | ValidationError, ValidationError | ConflictError, ConflictError
  | AuthenticationRequired, AuthenticationRequired
  | AuthorizationError, AuthorizationError => true
  | _, _ => false
  end.

(** The notices flashed and the statements executed by a run that started
    in [w]. *)
Definition flashed_by (A : Type) (w : World) (r : Outcome A * World) : list Notice :=
  skipn (List.length (flashed w)) (flashed (world_of r)).

Definition executed_by (A : Type) (w : World) (r : Outcome A * World) : list Statement :=
  skipn (List.length (executed w)) (executed (world_of r)).

(** The run flashed a rejection of kind [k]. *)
Definition failed_with (A : Type) (k : ErrorKind) (w : World) (r : Outcome A * World) : bool :=
  existsb (fun n => match error_kind n with
                    | Some k' => same_kind k k'
                    | None => false
                    end)
          (flashed_by w r).

Lemma skipn_length_app (A : Type) (l x : list A) : skipn (List.length l) (l ++ x) = x.
Proof. induction l as [|a l IH]; [reflexivity | exact IH]. Qed.

Lemma skipn_length_self (A : Type) (l : list A) : skipn (List.length l) l = [].
Proof. induction l as [|a l IH]; [reflexivity | exact IH]. Qed.

(* ------------------------------------------------------------------ *)
(** *** The current user *)

(** The user [get_current_user] answers with in [w], and the world it
    leaves. *)
Definition current_user (w : World) : option User.t :=
  match fst (get_current_user w) with
  | Returned user => user
  | Raised _ => None
  end.

Definition after_auth (w : World) : World := snd (get_current_user w).

Lemma get_current_user_run (w : World) :
  get_current_user w = (Returned (current_user w), after_auth w).
Proof.
  unfold current_user, after_auth, get_current_user.
  destruct (g_current_user w); [reflexivity|].
  destruct (falsy_int (session_user_id w)); reflexivity.
Qed.

(** [get_current_user] changes neither the database, nor the session, the
    flashed notices or the clock; it executes at most one [SELECT] on
    [users]. *)
Lemma after_auth_same (w : World) :
  db (after_auth w) = db w
  /\ session_user_id (after_auth w) = session_user_id w
  /\ flashed (after_auth w) = flashed w
  /\ current_timestamp (after_auth w) = current_timestamp w
  /\ (executed (after_auth w) = executed w
      \/ executed (after_auth w) = (executed w ++ [SELECT [t_users]])%list).
Proof.
  unfold after_auth, get_current_user.
  destruct (g_current_user w); [tauto|].
  destruct (falsy_int (session_user_id w)); cbn; tauto.
Qed.

(** The second call in a request answers from [g]. *)
Lemma get_current_user_again (w : World) :
  get_current_user (after_auth w) = (Returned (current_user w), after_auth w).
Proof.
  unfold current_user, after_auth, get_current_user.
  destruct (g_current_user w) as [u|] eqn:G.
  - cbn. now rewrite G.
  - destruct (falsy_int (session_user_id w)); reflexivity.
Qed.

(** A visitor without a session has no current user. *)
Lemma current_user_no_session (d : Database) (now : string) :
  current_user (fresh d None now) = None.
Proof. reflexivity. Qed.

(* ------------------------------------------------------------------ *)
(** *** The guards *)

Definition reject (n : Notice) (to : Location) (w : World) : Outcome Response * World :=
  (Returned (redirect to),
   mkWorld (db w) (session_user_id w) (g_current_user w)
           (flashed w ++ [n]) (executed w) (current_timestamp w)).

(** Without a current user, [role_required] answers by itself: the view it
    guards has no part in the result. *)
Lemma role_required_unauthenticated (roles : list string) (view : View)
    (request : Request) (w : World) :
  current_user w = None ->
  role_required roles view request w
  = reject n_login_to_continue (url_for_next ep_login (given_url (url request)))
           (after_auth w).
Proof.
  intros H. unfold role_required, bind. rewrite get_current_user_run, H. reflexivity.
Qed.

Definition has_role (roles : list string) (u : User.t) : bool :=
  existsb (String.eqb (User.role u)) roles.

Lemma role_required_allowed (roles : list string) (view : View)
    (request : Request) (w : World) (u : User.t) :
  current_user w = Some u ->
  has_role roles u = true ->
  role_required roles view request w = view request (after_auth w).
Proof.
  intros H Hr. unfold role_required, bind. rewrite get_current_user_run, H.
  unfold has_role in Hr. rewrite Hr, andb_false_r. reflexivity.
Qed.

Lemma login_required_unauthenticated (view : View) (request : Request) (w : World) :
  current_user w = None ->
  login_required view request w
  = reject n_login_to_send_lead (url_for_next ep_login (given_url (url request)))
           (after_auth w).
Proof.
  intros H. unfold login_required, bind. rewrite get_current_user_run, H. reflexivity.
Qed.

Lemma login_required_authenticated (view : View) (request : Request) (w : World)
    (u : User.t) :
  current_user w = Some u ->
  login_required view request w = view request (after_auth w).
Proof.
  intros H. unfold login_required, bind. rewrite get_current_user_run, H. reflexivity.
Qed.

(* ================================================================== *)
(** ** The list of leads behind its guard *)
(* ================================================================== *)

(** C9. A request to [leads_list] by a caller who is not logged in is
    answered by the guard: it is redirected to the login page with the
    requested URL as [next], the database is unchanged, no statement
    executed for the request touches the [leads] table, and the answer is
    the same whatever view stands behind the guard, so the body of
    [leads_list] has not run. *)
Theorem leads_list_unauthenticated (w : World) (request : Request) :
  current_user w = None ->
  let r := leads_list request w in
  response_of r = Some (redirect (url_for_next ep_login (given_url (url request))))
  /\ failed_with AuthenticationRequired w r = true
  /\ db (world_of r) = db w
  /\ session_user_id (world_of r) = session_user_id w
  /\ forallb (fun s => negb (touches t_leads s)) (executed_by w r) = true
  /\ (forall body : View, role_required ["admin"] body request w = r).
Proof.
  intros H r.
  assert (Hr : r = reject n_login_to_continue
                     (url_for_next ep_login (given_url (url request))) (after_auth w))
    by (apply role_required_unauthenticated; exact H).
  destruct (after_auth_same w) as (Hdb & Hs & Hf & _ & He).
  split; [now rewrite Hr|]. split.
  { unfold failed_with, flashed_by. rewrite Hr. cbn.
    rewrite Hf, skipn_length_app. reflexivity. }
  split; [now rewrite Hr|]. split; [now rewrite Hr|]. split.
  { unfold executed_by. rewrite Hr. cbn.
    destruct He as [-> | ->]; [now rewrite skipn_length_self|].
    now rewrite skipn_length_app. }
  intros body. rewrite Hr. now apply role_required_unauthenticated.
Qed.

Lemma leads_list_unauthenticated_witness :
  let w := fresh seed_db None "2024-02-01 00:00:00" in
  let request := get_request "/leads" [] in
  let r := leads_list request w in
  response_of r = Some (redirect (url_for_next ep_login (given_url "/leads")))
  /\ failed_with AuthenticationRequired w r = true
  /\ db (world_of r) = db w
  /\ session_user_id (world_of r) = session_user_id w
  /\ forallb (fun s => negb (touches t_leads s)) (executed_by w r) = true
  /\ (forall body : View, role_required ["admin"] body request w = r).
Proof.
  intros w request.
  apply (@leads_list_unauthenticated w request). reflexivity.
Defined.

(** An administrator does reach the body, which reads [leads]. *)
Example leads_list_admin :
  let w := fresh seed_db (Some 1) "2024-02-01 00:00:00" in
  let r := leads_list (get_request "/leads" []) w in
  response_of r = Some (render_template (leads_html []))
  /\ executed_by w r = [SELECT [t_users]; SELECT [t_leads; t_cars; t_users]].
Proof. split; reflexivity. Qed.

(* ================================================================== *)
(** ** Recording a tracking event *)
(* ================================================================== *)

(** The values [manage_tracking] reads from a submitted form. *)
Definition event_car_id (request : Request) : option Z :=
  safe_int (multidict_get "car_id" (form request)).

Definition event_field (field : string) (request : Request) : string :=
  Python.strip (multidict_get_or_empty field (form request)).

(** The row [manage_tracking] inserts for a request in [w]. *)
Definition new_event (w : World) (request : Request) : TrackingEvent.t :=
  TrackingEvent.mk
    (Sql.next_rowid TrackingEvent.id (tracking_events (db w)))
    (or_zero (event_car_id request))
    (event_field "status" request) (event_field "location" request)
    (Some (event_field "eta" request)) (Some (event_field "comment" request))
    (current_timestamp w).

(** The test [not car_id or not status or not location]. *)
Definition event_incomplete (request : Request) : bool :=
  falsy_int (event_car_id request)
  || negb (PyStr.truthy (event_field "status" request))
  || negb (PyStr.truthy (event_field "location" request)).

Definition staff : list string := ["admin"; "moderator"].

Section RecordEvent.

Variable w : World.
Variable request : Request.
Variable u : User.t.
Hypothesis posted : method request = POST.
Hypothesis logged_in : current_user w = Some u.
Hypothesis is_staff : has_role staff u = true.

Lemma manage_tracking_incomplete :
  event_incomplete request = true ->
  manage_tracking request w
  = reject n_tracking_fields_required (url_for ep_manage_tracking) (after_auth w).
Proof.
  intros H. unfold manage_tracking.
  rewrite (@role_required_allowed staff _ request w u logged_in is_staff).
  unfold manage_tracking_body. rewrite posted.
  unfold event_incomplete, event_car_id, event_field in H. rewrite H. reflexivity.
Qed.

Lemma manage_tracking_overflow :
  event_incomplete request = false ->
  Sql.fits_integer_opt (event_car_id request) = false ->
  manage_tracking request w = (Raised OverflowError, after_auth w).
Proof.
  intros H Hfit. unfold manage_tracking.
  rewrite (@role_required_allowed staff _ request w u logged_in is_staff).
  unfold manage_tracking_body. rewrite posted.
  unfold event_incomplete, event_car_id, event_field in H. rewrite H.
  unfold bind, execute_insert. cbn [forallb]. unfold event_car_id in Hfit.
  rewrite Hfit. reflexivity.
Qed.

Lemma manage_tracking_complete :
  event_incomplete request = false ->
  Sql.fits_integer_opt (event_car_id request) = true ->
  manage_tracking request w
  = (Returned (redirect (url_for ep_manage_tracking)),
     mkWorld (mkDatabase (users (db w)) (cars (db w)) (leads (db w))
                (Sql.mkTable
                   (Sql.rows (tracking_events (db w)) ++ [new_event w request])
                   (Sql.next_rowid TrackingEvent.id (tracking_events (db w)))))
             (session_user_id w) (g_current_user (after_auth w))
             (flashed w ++ [n_tracking_updated])
             (executed (after_auth w) ++ [INSERT t_tracking_events])
             (current_timestamp w)).
Proof.
  intros H Hfit. unfold manage_tracking.
  rewrite (@role_required_allowed staff _ request w u logged_in is_staff).
  unfold manage_tracking_body. rewrite posted.
  unfold event_incomplete, event_car_id, event_field in H. rewrite H.
  unfold bind, execute_insert. cbn [forallb]. unfold event_car_id in Hfit.
  rewrite Hfit. cbn.
  destruct (after_auth_same w) as (Hdb & Hs & Hf & Ht & _).
  rewrite Hdb, Hs, Hf, Ht. reflexivity.
Qed.

End RecordEvent.

Lemma truthy_false_iff (s : string) : PyStr.truthy s = false <-> s = "".
Proof. destruct s; simpl; split; congruence. Qed.

Lemma falsy_int_iff (n : option Z) : falsy_int n = true <-> n = None \/ n = Some 0.
Proof.
  destruct n as [v|]; simpl.
  - rewrite Z.eqb_eq. split; [intros ->; now right | intros [H|H]; congruence].
  - tauto.
Qed.

Lemma event_incomplete_iff (request : Request) :
  event_incomplete request = true <->
  event_car_id request = None \/ event_car_id request = Some 0
  \/ event_field "status" request = "" \/ event_field "location" request = "".
Proof.
  unfold event_incomplete.
  rewrite !orb_true_iff, !negb_true_iff, !truthy_false_iff, falsy_int_iff. tauto.
Qed.

(** C3, as amended. For a POST to [manage_tracking] by an administrator or
    a moderator: the request is rejected as a validation error exactly when
    [car_id] is missing, does not parse as an integer or parses to 0, or
    when [status] or [location] is blank after trimming, and then the
    database is unchanged. Otherwise, when the integer fits SQLite's
    [INTEGER], one event is appended to [tracking_events], stamped with the
    time of the insertion, and the other tables are unchanged. *)
Theorem record_event_validation (w : World) (request : Request) (u : User.t) :
  method request = POST ->
  current_user w = Some u ->
  has_role staff u = true ->
  let r := manage_tracking request w in
  (failed_with ValidationError w r = true <->
   event_car_id request = None \/ event_car_id request = Some 0
   \/ event_field "status" request = "" \/ event_field "location" request = "")
  /\ (failed_with ValidationError w r = true -> db (world_of r) = db w)
  /\ (failed_with ValidationError w r = false ->
      Sql.fits_integer_opt (event_car_id request) = true ->
      response_of r = Some (redirect (url_for ep_manage_tracking))
      /\ Sql.rows (tracking_events (db (world_of r)))
         = (Sql.rows (tracking_events (db w)) ++ [new_event w request])%list
      /\ TrackingEvent.updated_at (new_event w request) = current_timestamp w
      /\ users (db (world_of r)) = users (db w)
      /\ cars (db (world_of r)) = cars (db w)
      /\ leads (db (world_of r)) = leads (db w)).
Proof.
  intros Hp Hu Hs r. rewrite <- event_incomplete_iff.
  destruct (after_auth_same w) as (Hdb & _ & Hf & _ & _).
  destruct (event_incomplete request) eqn:E.
  - assert (Hr : r = reject n_tracking_fields_required (url_for ep_manage_tracking)
                       (after_auth w))
      by (apply manage_tracking_incomplete with u; assumption).
    assert (Hv : failed_with ValidationError w r = true).
    { unfold failed_with, flashed_by. rewrite Hr. cbn.
      rewrite Hf, skipn_length_app. reflexivity. }
    rewrite Hv. split; [tauto|]. split; [intros _; now rewrite Hr|]. discriminate.
  - destruct (Sql.fits_integer_opt (event_car_id request)) eqn:F.
    + pose proof (@manage_tracking_complete w request u Hp Hu Hs E F) as Hr.
      fold r in Hr.
      assert (Hv : failed_with ValidationError w r = false).
      { unfold failed_with, flashed_by. rewrite Hr. cbn.
        rewrite skipn_length_app. reflexivity. }
      rewrite Hv. split; [split; discriminate|]. split; [discriminate|].
      intros _ _. rewrite Hr. cbn. repeat split; reflexivity.
    + pose proof (@manage_tracking_overflow w request u Hp Hu Hs E F) as Hr.
      fold r in Hr.
      assert (Hv : failed_with ValidationError w r = false).
      { unfold failed_with, flashed_by. rewrite Hr. cbn.
        rewrite Hf, skipn_length_self. reflexivity. }
      rewrite Hv. split; [split; discriminate|]. split; discriminate.
Qed.

Definition admin_world : World := fresh seed_db (Some 1) "2024-02-01 00:00:00".

Definition event_request (car_id : string) : Request :=
  post_request "/tracking/manage"
    [("car_id", car_id); ("status", "At sea"); ("location", "Busan")].

(** The claim as the specification words it: the request is rejected
    exactly when [car_id], [status] or [location] is missing or blank, and a
    request that is not rejected appends an event. *)
Definition blank (value : option string) : bool :=
  negb (PyStr.truthy (Python.strip (or_empty value))).

Definition record_event_as_specified (w : World) (request : Request) : Prop :=
  let r := manage_tracking request w in
  (failed_with ValidationError w r = true <->
   blank (multidict_get "car_id" (form request)) = true
   \/ blank (multidict_get "status" (form request)) = true
   \/ blank (multidict_get "location" (form request)) = true)
  /\ (failed_with ValidationError w r = false ->
      List.length (Sql.rows (tracking_events (db (world_of r))))
      = S (List.length (Sql.rows (tracking_events (db w))))).

(* ================================================================== *)
(** ** Sending a lead *)
(* ================================================================== *)

(** The values [create_lead] reads from a submitted form. *)
Definition lead_field (field : string) (request : Request) : string :=
  Python.strip (multidict_get_or_empty field (form request)).

Definition lead_number (field : string) (request : Request) : option Z :=
  safe_int (multidict_get field (form request)).

(** The test [not name or not phone]. *)
Definition lead_incomplete (request : Request) : bool :=
  negb (PyStr.truthy (lead_field "name" request))
  || negb (PyStr.truthy (lead_field "phone" request)).

(** The integers [create_lead] binds for user [u]. *)
Definition lead_integers (request : Request) (u : User.t) : list (option Z) :=
  [lead_number "car_id" request; lead_number "budget" request; Some (User.id u)].

(** The row [create_lead] inserts for a request of user [u] in [w]. *)
Definition new_lead (w : World) (request : Request) (u : User.t) : Lead.t :=
  Lead.mk
    (Sql.next_rowid Lead.id (leads (db w)))
    (lead_field "name" request) (lead_field "phone" request)
    (Some (lead_field "email" request))
    (lead_number "car_id" request)
    (Some (lead_field "preferred_brand" request))
    (Some (lead_field "preferred_model" request))
    (multidict_get "preferred_country" (form request))
    (lead_number "budget" request)
    (Some (lead_field "comment" request))
    (current_timestamp w)
    (Some (User.id u)).

Section CreateLead.

Variable w : World.
Variable request : Request.
Variable u : User.t.
Hypothesis logged_in : current_user w = Some u.

Lemma create_lead_incomplete :
  lead_incomplete request = true ->
  create_lead request w
  = reject n_lead_name_phone_required (with_fragment (url_for ep_index) "#request")
           (after_auth w).
Proof.
  intros H. unfold create_lead.
  rewrite (@login_required_authenticated _ request w u logged_in).
  unfold create_lead_body. unfold lead_incomplete, lead_field in H. rewrite H.
  reflexivity.
Qed.

Lemma create_lead_overflow :
  lead_incomplete request = false ->
  forallb Sql.fits_integer_opt (lead_integers request u) = false ->
  create_lead request w = (Raised OverflowError, after_auth w).
Proof.
  intros H Hfit. unfold create_lead.
  rewrite (@login_required_authenticated _ request w u logged_in).
  unfold create_lead_body. unfold lead_incomplete, lead_field in H. rewrite H.
  unfold bind at 1. rewrite get_current_user_again, logged_in.
  unfold bind, ret, execute_insert.
  unfold lead_integers, lead_number in Hfit. rewrite Hfit. reflexivity.
Qed.

Lemma create_lead_complete :
  lead_incomplete request = false ->
  forallb Sql.fits_integer_opt (lead_integers request u) = true ->
  create_lead request w
  = (Returned (redirect (url_for ep_index)),
     mkWorld (mkDatabase (users (db w)) (cars (db w))
                (Sql.mkTable (Sql.rows (leads (db w)) ++ [new_lead w request u])
                             (Sql.next_rowid Lead.id (leads (db w))))
                (tracking_events (db w)))
             (session_user_id w) (g_current_user (after_auth w))
             (flashed w ++ [n_lead_sent])
             (executed (after_auth w) ++ [INSERT t_leads])
             (current_timestamp w)).
Proof.
  intros H Hfit. unfold create_lead.
  rewrite (@login_required_authenticated _ request w u logged_in).
  unfold create_lead_body. unfold lead_incomplete, lead_field in H. rewrite H.
  unfold bind at 1. rewrite get_current_user_again, logged_in.
  unfold bind, ret, execute_insert.
  unfold lead_integers, lead_number in Hfit. rewrite Hfit. cbn.
  destruct (after_auth_same w) as (Hdb & Hs & Hf & Ht & _).
  rewrite Hdb, Hs, Hf, Ht. reflexivity.
Qed.

End CreateLead.

Lemma lead_incomplete_iff (request : Request) :
  lead_incomplete request = true <->
  lead_field "name" request = "" \/ lead_field "phone" request = "".
Proof.
  unfold lead_incomplete.
  rewrite orb_true_iff, !negb_true_iff, !truthy_false_iff. tauto.
Qed.

(** C7. For a logged-in caller, [create_lead] rejects the request as a
    validation error exactly when the name or the phone is blank after
    trimming; a rejected request is redirected back to the form and leaves
    the database as it was, so no lead is stored. With a name and a phone
    that are not blank the validation passes. *)
Theorem create_lead_validation (w : World) (request : Request) (u : User.t) :
  current_user w = Some u ->
  let r := create_lead request w in
  (failed_with ValidationError w r = true <->
   lead_field "name" request = "" \/ lead_field "phone" request = "")
  /\ (failed_with ValidationError w r = true ->
      response_of r = Some (redirect (with_fragment (url_for ep_index) "#request"))
      /\ db (world_of r) = db w).
Proof.
  intros Hu r. rewrite <- lead_incomplete_iff.
  destruct (after_auth_same w) as (Hdb & _ & Hf & _ & _).
  destruct (lead_incomplete request) eqn:E.
  - pose proof (@create_lead_incomplete w request u Hu E) as Hr. fold r in Hr.
    assert (Hv : failed_with ValidationError w r = true).
    { unfold failed_with, flashed_by. rewrite Hr. cbn.
      rewrite Hf, skipn_length_app. reflexivity. }
    rewrite Hv. split; [tauto|]. intros _. rewrite Hr. split; [reflexivity | exact Hdb].
  - assert (Hv : failed_with ValidationError w r = false).
    { destruct (forallb Sql.fits_integer_opt (lead_integers request u)) eqn:F.
      - pose proof (@create_lead_complete w request u Hu E F) as Hr. fold r in Hr.
        unfold failed_with, flashed_by. rewrite Hr. cbn.
        rewrite skipn_length_app. reflexivity.
      - pose proof (@create_lead_overflow w request u Hu E F) as Hr. fold r in Hr.
        unfold failed_with, flashed_by. rewrite Hr. cbn.
        rewrite Hf, skipn_length_self. reflexivity. }
    rewrite Hv. split; [split; discriminate | discriminate].
Qed.

Definition customer : User.t :=
  User.mk 3 "Ivan" "ivan@example.com" (Some "") "hash-of-secret" "customer"
          "2024-01-15 09:00:00".

(** The seeded database with one customer account. *)
Definition shop_db : Database :=
  mkDatabase (Sql.mkTable (seed_users ++ [customer]) 3) (cars seed_db)
             (leads seed_db) (tracking_events seed_db).

Definition customer_world : World := fresh shop_db (Some 3) "2024-02-01 00:00:00".

(* ================================================================== *)
(** ** Adding a car *)
(* ================================================================== *)

(** No required field of [add_car] is missing or empty. *)
Definition car_fields_present (request : Request) : bool :=
  forallb (fun field => PyStr.truthy_opt (multidict_get field (form request)))
          ["brand"; "model"; "year"; "price"; "country"].

(** [safe_int(request.form.get(field)) or 0] *)
Definition car_number (field : string) (request : Request) : Z :=
  or_zero (safe_int (multidict_get field (form request))).

Definition car_integers (request : Request) : list (option Z) :=
  [Some (car_number "year" request); Some (car_number "price" request);
   Some (car_number "mileage" request)].

(** The row [add_car] inserts for a request in [w]. *)
Definition new_car (w : World) (request : Request) : Car.t :=
  Car.mk
    (Sql.next_rowid Car.id (cars (db w)))
    (Python.strip (or_empty (multidict_get "brand" (form request))))
    (Python.strip (or_empty (multidict_get "model" (form request))))
    (car_number "year" request) (car_number "price" request)
    (Some (car_number "mileage" request))
    (multidict_get "fuel_type" (form request))
    (or_empty (multidict_get "country" (form request)))
    (Some (or_empty (multidict_get "image_url" (form request))))
    (Some (or_empty (multidict_get "description" (form request)))).

Lemma truthy_opt_some (value : option string) :
  PyStr.truthy_opt value = true -> exists s, value = Some s.
Proof. destruct value; [eauto | discriminate]. Qed.

Section AddCar.

Variable w : World.
Variable request : Request.
Variable u : User.t.
Hypothesis logged_in : current_user w = Some u.
Hypothesis is_staff : has_role staff u = true.

Lemma add_car_missing :
  car_fields_present request = false ->
  add_car request w
  = reject n_car_fields_required (url_for ep_add_car_form) (after_auth w).
Proof.
  intros H. unfold add_car.
  rewrite (@role_required_allowed staff _ request w u logged_in is_staff).
  unfold add_car_body. unfold car_fields_present in H. cbn [forallb filter] in *.
  repeat match goal with
         | |- context [PyStr.truthy_opt ?v] => destruct (PyStr.truthy_opt v)
         end; cbn [negb]; try reflexivity; discriminate H.
Qed.

Lemma add_car_run :
  car_fields_present request = true ->
  add_car request w
  = if forallb Sql.fits_integer_opt (car_integers request) then
      (Returned (redirect (url_for ep_index)),
       mkWorld (mkDatabase (users (db w))
                  (Sql.mkTable (Sql.rows (cars (db w)) ++ [new_car w request])
                               (Sql.next_rowid Car.id (cars (db w))))
                  (leads (db w)) (tracking_events (db w)))
               (session_user_id w) (g_current_user (after_auth w))
               (flashed w ++ [n_car_added])
               (executed (after_auth w) ++ [INSERT t_cars])
               (current_timestamp w))
    else (Raised OverflowError, after_auth w).
Proof.
  intros H. unfold add_car.
  rewrite (@role_required_allowed staff _ request w u logged_in is_staff).
  unfold add_car_body, new_car, car_integers, car_number.
  unfold car_fields_present in H. cbn [forallb] in H.
  repeat (apply andb_true_iff in H; destruct H as [?H H]).
  cbn [filter]. rewrite H0, H1, H2, H3, H4. cbn [negb].
  destruct (truthy_opt_some _ H0) as [brand ->].
  destruct (truthy_opt_some _ H1) as [model ->].
  destruct (truthy_opt_some _ H4) as [country ->].
  unfold bind, ret, strip_of, not_null, execute_insert.
  destruct (forallb Sql.fits_integer_opt _); [|reflexivity].
  cbn. destruct (after_auth_same w) as (Hdb & Hs & Hf & Ht & _).
  rewrite Hdb, Hs, Hf, Ht. reflexivity.
Qed.

End AddCar.

(** C8, as amended. Numeric input that does not parse is no ground for
    rejecting a request that is otherwise accepted. [add_car], for an
    administrator or a moderator and a form with the five required fields,
    inserts the car and stores 0 in each of [year], [price] and [mileage]
    that does not parse as an integer. [create_lead], for any logged-in
    caller with a name and a phone, inserts the lead and stores [NULL] in
    each of [car_id] and [budget] that does not parse. The integers that
    are bound must fit SQLite's [INTEGER]. *)
Theorem unparsable_numbers_are_not_rejected
    (w w' : World) (car_request lead_request : Request) (u u' : User.t) :
  current_user w = Some u ->
  has_role staff u = true ->
  car_fields_present car_request = true ->
  forallb Sql.fits_integer_opt (car_integers car_request) = true ->
  current_user w' = Some u' ->
  lead_incomplete lead_request = false ->
  forallb Sql.fits_integer_opt (lead_integers lead_request u') = true ->
  let rc := add_car car_request w in
  let rl := create_lead lead_request w' in
  (response_of rc = Some (redirect (url_for ep_index))
   /\ failed_with ValidationError w rc = false
   /\ Sql.rows (cars (db (world_of rc)))
      = (Sql.rows (cars (db w)) ++ [new_car w car_request])%list
   /\ (safe_int (multidict_get "year" (form car_request)) = None ->
       Car.year (new_car w car_request) = 0)
   /\ (safe_int (multidict_get "price" (form car_request)) = None ->
       Car.price (new_car w car_request) = 0)
   /\ (safe_int (multidict_get "mileage" (form car_request)) = None ->
       Car.mileage (new_car w car_request) = Some 0))
  /\ (response_of rl = Some (redirect (url_for ep_index))
      /\ failed_with ValidationError w' rl = false
      /\ Sql.rows (leads (db (world_of rl)))
         = (Sql.rows (leads (db w')) ++ [new_lead w' lead_request u'])%list
      /\ (safe_int (multidict_get "car_id" (form lead_request)) = None ->
          Lead.car_id (new_lead w' lead_request u') = None)
      /\ (safe_int (multidict_get "budget" (form lead_request)) = None ->
          Lead.budget (new_lead w' lead_request u') = None)).
Proof.
  intros Hu Hs Hc Hcf Hu' Hl Hlf rc rl. split.
  - pose proof (@add_car_run w car_request u Hu Hs Hc) as Hr. fold rc in Hr.
    rewrite Hcf in Hr. rewrite Hr. repeat split.
    + unfold failed_with, flashed_by. cbn. now rewrite skipn_length_app.
    + cbn. unfold car_number. now intros ->.
    + cbn. unfold car_number. now intros ->.
    + cbn. unfold car_number. now intros ->.
  - pose proof (@create_lead_complete w' lead_request u' Hu' Hl Hlf) as Hr. fold rl in Hr.
    rewrite Hr. repeat split.
    + unfold failed_with, flashed_by. cbn. now rewrite skipn_length_app.
    + cbn. unfold lead_number. now intros ->.
    + cbn. unfold lead_number. now intros ->.
Qed.

(** The claim as the specification words it, for the year of [add_car]: a
    year that does not parse is no ground for rejection, the car is
    inserted with the year 0. *)
Definition unparsable_year_as_specified (w : World) (request : Request) : Prop :=
  safe_int (multidict_get "year" (form request)) = None ->
  exists car,
    Sql.rows (cars (db (world_of (add_car request w))))
    = (Sql.rows (cars (db w)) ++ [car])%list
    /\ Car.year car = 0.

(* ================================================================== *)
(** ** Registration *)
(* ================================================================== *)

(** The values [register] reads from a submitted form. *)
Definition reg_field (field : string) (request : Request) : string :=
  Python.strip (multidict_get_or_empty field (form request)).

Definition reg_email (request : Request) : string :=
  Python.lower (reg_field "email" request).

(** Both checks of [register] pass: the four fields are filled in and the
    two passwords are equal. *)
Definition reg_valid (request : Request) : bool :=
  forallb PyStr.truthy
    [reg_field "name" request; reg_email request; reg_field "password" request;
     reg_field "password_confirm" request]
  && String.eqb (reg_field "password" request) (reg_field "password_confirm" request).

(** [request.args.get('next') or request.form.get('next') or url_for('index')] *)
Definition reg_next_url (request : Request) : Location :=
  if PyStr.truthy_opt (multidict_get "next" (args request))
  then given_url (or_empty (multidict_get "next" (args request)))
  else if PyStr.truthy_opt (multidict_get "next" (form request))
  then given_url (or_empty (multidict_get "next" (form request)))
  else url_for ep_index.

Section RegistrationFacts.

Variable generate_password_hash : string -> string.

(** The row [register] inserts for a request in [w]. *)
Definition new_user (w : World) (request : Request) : User.t :=
  User.mk
    (Sql.next_rowid User.id (users (db w)))
    (reg_field "name" request) (reg_email request)
    (Some (reg_field "phone" request))
    (generate_password_hash (reg_field "password" request))
    "customer" (current_timestamp w).

Variable w : World.
Variable request : Request.
Hypothesis posted : method request = POST.
Hypothesis anonymous : current_user w = None.
Hypothesis valid : reg_valid request = true.

Lemma register_checks_pass :
  register generate_password_hash request w
  = (existing <- execute_select [t_users] (select_user_id_by_email (reg_email request)) ;;
     match existing with
     | Some _ =>
         flash n_email_taken ;;
         ret (redirect (url_for_next ep_register (reg_next_url request)))
     | None =>
         user_id <-
           execute_insert t_users []
             (fun now d =>
                let users' :=
                  Sql.insert User.id
                    (fun i => User.mk i (reg_field "name" request) (reg_email request)
                                      (Some (reg_field "phone" request))
                                      (generate_password_hash
                                         (reg_field "password" request))
                                      "customer" now)
                    (users d) in
                (mkDatabase users' (cars d) (leads d) (tracking_events d),
                 Sql.seq users')) ;;
         session_set_user_id user_id ;;
         flash n_registered ;;
         ret (redirect (reg_next_url request))
     end) (after_auth w).
Proof.
  unfold register. unfold bind at 1. rewrite get_current_user_run, anonymous, posted.
  unfold reg_valid, reg_email, reg_field in valid.
  apply andb_true_iff in valid. destruct valid as [V1 V2].
  rewrite V1, V2. reflexivity.
Qed.

Lemma register_conflict (i : Z) :
  select_user_id_by_email (reg_email request) (db w) = Some i ->
  register generate_password_hash request w
  = (Returned (redirect (url_for_next ep_register (reg_next_url request))),
     mkWorld (db w) (session_user_id w) (g_current_user (after_auth w))
             (flashed w ++ [n_email_taken])
             (executed (after_auth w) ++ [SELECT [t_users]])
             (current_timestamp w)).
Proof.
  intros H. rewrite register_checks_pass.
  destruct (after_auth_same w) as (Hdb & Hs & Hf & Ht & _).
  unfold bind at 1. unfold execute_select. rewrite Hdb, H. cbn.
  rewrite ?Hdb, ?Hs, ?Hf, ?Ht. reflexivity.
Qed.

Lemma register_success :
  select_user_id_by_email (reg_email request) (db w) = None ->
  register generate_password_hash request w
  = (Returned (redirect (reg_next_url request)),
     mkWorld (mkDatabase
                (Sql.mkTable (Sql.rows (users (db w)) ++ [new_user w request])
                             (Sql.next_rowid User.id (users (db w))))
                (cars (db w)) (leads (db w)) (tracking_events (db w)))
             (Some (Sql.next_rowid User.id (users (db w))))
             (g_current_user (after_auth w))
             (flashed w ++ [n_registered])
             ((executed (after_auth w) ++ [SELECT [t_users]]) ++ [INSERT t_users])
             (current_timestamp w)).
Proof.
  intros H. rewrite register_checks_pass.
  destruct (after_auth_same w) as (Hdb & Hs & Hf & Ht & _).
  unfold bind at 1. unfold execute_select. rewrite Hdb, H. cbn.
  rewrite ?Hdb, ?Hf, ?Ht. reflexivity.
Qed.

End RegistrationFacts.

Lemma find_app_last (A : Type) (f : A -> bool) (l : list A) (x : A) :
  find f (l ++ [x])
  = match find f l with
    | Some y => Some y
    | None => if f x then Some x else None
    end.
Proof.
  induction l as [|a l IH]; simpl; [reflexivity|].
  destruct (f a); [reflexivity | exact IH].
Qed.

Lemma max_rowid_bound (R : Type) (id_of : R -> Z) (t : Sql.Table R) :
  0 <= Sql.max_rowid id_of t
  /\ forall r, In r (Sql.rows t) -> id_of r <= Sql.max_rowid id_of t.
Proof.
  unfold Sql.max_rowid. induction (Sql.rows t) as [|a l [IH0 IH]]; simpl.
  - split; [lia | easy].
  - split; [lia|]. intros r [<-|Hin]; [lia|]. specialize (IH r Hin). lia.
Qed.

(** The key of the next row is positive and belongs to no row. *)
Lemma next_rowid_fresh (R : Type) (id_of : R -> Z) (t : Sql.Table R) :
  1 <= Sql.next_rowid id_of t
  /\ find (fun r => id_of r =? Sql.next_rowid id_of t) (Sql.rows t) = None.
Proof.
  destruct (max_rowid_bound id_of t) as [H0 H]. unfold Sql.next_rowid. split; [lia|].
  destruct (find _ (Sql.rows t)) as [r|] eqn:E; [|reflexivity].
  apply find_some in E. destruct E as [Hin E]. apply Z.eqb_eq in E.
  specialize (H r Hin). unfold Sql.next_rowid in E. lia.
Qed.

(** C6. A first registration by a visitor whose email is not registered
    stores the user with the role [customer] and puts the new user's id in
    the session, so that the following request runs as that user. A second
    registration whose email equals the first up to case (and surrounding
    white space), sent by a visitor to the database the first one left, is
    rejected as a conflict and leaves the database, and so the [users]
    table, unchanged. *)
Theorem register_twice
    (generate_password_hash : string -> string)
    (w w2 : World) (first second : Request) (later : string) :
  method first = POST ->
  current_user w = None ->
  reg_valid first = true ->
  select_user_id_by_email (reg_email first) (db w) = None ->
  method second = POST ->
  current_user w2 = None ->
  db w2 = db (world_of (register generate_password_hash first w)) ->
  reg_valid second = true ->
  Python.lower (reg_field "email" second) = Python.lower (reg_field "email" first) ->
  let r1 := register generate_password_hash first w in
  let r2 := register generate_password_hash second w2 in
  let user := new_user generate_password_hash w first in
  (response_of r1 = Some (redirect (reg_next_url first))
   /\ Sql.rows (users (db (world_of r1))) = (Sql.rows (users (db w)) ++ [user])%list
   /\ User.role user = "customer"
   /\ session_user_id (world_of r1) = Some (User.id user)
   /\ current_user (fresh (db (world_of r1)) (session_user_id (world_of r1)) later)
      = Some user)
  /\ (failed_with ConflictError w2 r2 = true
      /\ response_of r2 = Some (redirect (url_for_next ep_register (reg_next_url second)))
      /\ db (world_of r2) = db w2
      /\ Sql.rows (users (db (world_of r2))) = (Sql.rows (users (db w)) ++ [user])%list).
Proof.
  intros Hp1 Ha1 Hv1 Hnew Hp2 Ha2 Hdb2 Hv2 Hsame r1 r2 user.
  pose proof (@register_success generate_password_hash w first Hp1 Ha1 Hv1 Hnew) as Hr1.
  fold r1 in Hr1. fold user in Hr1.
  destruct (next_rowid_fresh User.id (users (db w))) as [Hpos Hfresh].
  assert (Hfirst :
            response_of r1 = Some (redirect (reg_next_url first))
            /\ Sql.rows (users (db (world_of r1))) = (Sql.rows (users (db w)) ++ [user])%list
            /\ User.role user = "customer"
            /\ session_user_id (world_of r1) = Some (User.id user)
            /\ current_user (fresh (db (world_of r1)) (session_user_id (world_of r1)) later)
               = Some user).
  { rewrite Hr1. cbn [response_of world_of fst snd db users session_user_id Sql.rows].
    repeat split.
    unfold current_user, get_current_user, fresh.
    cbn [g_current_user session_user_id falsy_int].
    destruct (Sql.next_rowid User.id (users (db w)) =? 0) eqn:Z0;
      [apply Z.eqb_eq in Z0; lia|].
    cbn. rewrite find_app_last, Hfresh. cbn. now rewrite Z.eqb_refl. }
  split; [exact Hfirst|].
  destruct Hfirst as (_ & Hrows & _).
  assert (Hfound : exists i,
             select_user_id_by_email (reg_email second) (db w2) = Some i).
  { unfold select_user_id_by_email. rewrite Hdb2. fold r1. rewrite Hrows.
    destruct (find (fun u => String.eqb (User.email u) (reg_email second))
                   (Sql.rows (users (db w)) ++ [user])) as [y|] eqn:E; [cbn; eauto|].
    exfalso. apply find_none with (x := user) in E; [|apply in_or_app; right; now left].
    unfold reg_email in E. rewrite Hsame in E. cbn in E.
    now rewrite String.eqb_refl in E. }
  destruct Hfound as [i Hi].
  pose proof (@register_conflict generate_password_hash w2 second Hp2 Ha2 Hv2 i Hi) as Hr2.
  fold r2 in Hr2. rewrite Hr2.
  cbn [response_of world_of fst snd db]. repeat split.
  - unfold failed_with, flashed_by. cbn. now rewrite skipn_length_app.
  - rewrite Hdb2. exact Hrows.
Qed.

Definition register_request (email : string) : Request :=
  post_request "/auth/register"
    [("name", "Ivan"); ("email", email); ("phone", ""); ("password", "secret");
     ("password_confirm", "secret")].


(* ================================================================== *)
(** ** The remaining views of [app.py] *)
(* ================================================================== *)

(** [inject_user]: what the context processor hands to every template. *)
Record TemplateContext : Type := mkTemplateContext {
  ctx_current_user : option User.t;
  is_admin : bool;
  is_moderator : bool;
  is_customer : bool
}.

(** [bool(user and user['role'] == role)] *)
Definition user_has_role (user : option User.t) (role : string) : bool :=
  match user with
  | Some u => String.eqb (User.role u) role
  | None => false
  end.

Definition inject_user : Handler TemplateContext :=
  user <- get_current_user ;;
  ret (mkTemplateContext user (user_has_role user "admin")
                         (user_has_role user "moderator")
                         (user_has_role user "customer")).

(** One row of [tracking_overview]: the event with the brand, the model and
    the country of its car. *)
Definition OverviewRow : Type := (TrackingEvent.t * string * string * string)%type.

Definition overview_event (row : OverviewRow) : TrackingEvent.t := fst (fst (fst row)).

(** [SELECT tracking_events.*, cars.brand, cars.model, cars.country
    FROM tracking_events JOIN cars ON cars.id = tracking_events.car_id
    ORDER BY tracking_events.updated_at DESC] *)
Definition select_tracking_overview (d : Database) : list OverviewRow :=
  Sql.order_by
    (fun a b : OverviewRow =>
       String.leb (TrackingEvent.updated_at (overview_event b))
                  (TrackingEvent.updated_at (overview_event a)))
    (flat_map
       (fun e =>
          map (fun car => (e, Car.brand car, Car.model car, Car.country car))
              (filter (fun car => Car.id car =? TrackingEvent.car_id e)
                      (Sql.rows (cars d))))
       (Sql.rows (tracking_events d))).

(** [tracking_overview] always renders [tracking.html]; the model answers
    with the [events] it hands to the template. *)
Definition tracking_overview : Request -> Handler (list OverviewRow) :=
  fun _ => execute_select [t_tracking_events; t_cars] select_tracking_overview.

(** The messages [login] and [logout] flash, and what these two views
    answer: a redirect together with the message flashed on the way, or the
    login page with the [next_url] handed to it. *)
Inductive AuthNotice : Type :=
| n_bad_credentials        (* login: wrong email or password (error) *)
| n_welcome_back           (* login: welcome back (success) *)
| n_logged_out.            (* logout: you have left your account (success) *)

Inductive AuthAnswer : Type :=
| auth_redirect (notice : option AuthNotice) (to : Location)
| auth_login_html (next_url : Location).

(** [session.pop('user_id', None)] *)
Definition session_pop_user_id : Handler unit :=
  fun w => (Returned tt,
            mkWorld (db w) None (g_current_user w)
                    (flashed w) (executed w) (current_timestamp w)).

Section Login.

(** [werkzeug.security.check_password_hash(pwhash, password)] *)
Variable check_password_hash : string -> string -> bool.

(** [SELECT * FROM users WHERE email = ?] and [fetchone()] *)
Definition select_user_by_email (email : string) (d : Database) : option User.t :=
  find (fun u => String.eqb (User.email u) email) (Sql.rows (users d)).

Definition login : Request -> Handler AuthAnswer :=
  fun request =>
    user <- get_current_user ;;
    match user with
    | Some _ => ret (auth_redirect None (url_for ep_index))
    | None =>
        let next_url :=
          if PyStr.truthy_opt (multidict_get "next" (args request))
          then given_url (or_empty (multidict_get "next" (args request)))
          else if PyStr.truthy_opt (multidict_get "next" (form request))
          then given_url (or_empty (multidict_get "next" (form request)))
          else url_for ep_index in
        match method request with
        | POST =>
            let email :=
              Python.lower (Python.strip (multidict_get_or_empty "email" (form request))) in
            let password :=
              Python.strip (multidict_get_or_empty "password" (form request)) in
            user <- execute_select [t_users] (select_user_by_email email) ;;
            match user with
            | None =>
                ret (auth_redirect (Some n_bad_credentials)
                                   (url_for_next ep_login next_url))
            | Some u =>
                if negb (check_password_hash (User.password_hash u) password)
                then ret (auth_redirect (Some n_bad_credentials)
                                        (url_for_next ep_login next_url))
                else
                  session_set_user_id (User.id u) ;;
                  ret (auth_redirect (Some n_welcome_back) next_url)
            end
        | GET => ret (auth_login_html next_url)
        end
    end.

End Login.

Definition logout : Request -> Handler AuthAnswer :=
  fun _ =>
    session_pop_user_id ;;
    ret (auth_redirect (Some n_logged_out) (url_for ep_index)).

(* ================================================================== *)
(** ** What every view keeps of the database *)
(* ================================================================== *)

(** A relation between the database before and after a computation, kept
    by every step of it. The views are built from a few primitives; a
    reflexive and transitive relation that the four [INSERT] statements
    respect is respected by every view. *)
Section Preserves.

Variable R : Database -> Database -> Prop.
Hypothesis R_refl : forall d, R d d.
Hypothesis R_trans : forall a b c, R a b -> R b c -> R a c.

Hypothesis R_insert_user :
  forall d mk, (forall i, User.id (mk i) = i) ->
  R d (mkDatabase (Sql.insert User.id mk (users d)) (cars d) (leads d) (tracking_events d)).
Hypothesis R_insert_car :
  forall d mk, (forall i, Car.id (mk i) = i) ->
  R d (mkDatabase (users d) (Sql.insert Car.id mk (cars d)) (leads d) (tracking_events d)).
Hypothesis R_insert_lead :
  forall d mk, (forall i, Lead.id (mk i) = i) ->
  R d (mkDatabase (users d) (cars d) (Sql.insert Lead.id mk (leads d)) (tracking_events d)).
Hypothesis R_insert_event :
  forall d mk, (forall i, TrackingEvent.id (mk i) = i) ->
  R d (mkDatabase (users d) (cars d) (leads d)
                  (Sql.insert TrackingEvent.id mk (tracking_events d))).

Definition preserves (A : Type) (m : Handler A) : Prop :=
  forall w, R (db w) (db (snd (m w))).

Lemma preserves_ret (A : Type) (a : A) : preserves (ret a).
Proof. intros w. apply R_refl. Qed.

Lemma preserves_raise (A : Type) (e : Exception) : preserves (@raise A e).
Proof. intros w. apply R_refl. Qed.

Lemma preserves_bind (A B : Type) (m : Handler A) (k : A -> Handler B) :
  preserves m -> (forall a, preserves (k a)) -> preserves (bind m k).
Proof.
  intros Hm Hk w. unfold bind. specialize (Hm w).
  destruct (m w) as [[a|e] w']; simpl in *; [|exact Hm].
  apply R_trans with (db w'); [exact Hm | apply Hk].
Qed.

Lemma preserves_flash (n : Notice) : preserves (flash n).
Proof. intros w. apply R_refl. Qed.

Lemma preserves_execute_select (A : Type) (from : list TableName) (q : Database -> A) :
  preserves (execute_select from q).
Proof. intros w. apply R_refl. Qed.

Lemma preserves_execute_select_or_fail (A : Type) (from : list TableName)
    (fails : Database -> bool) (q : Database -> A) :
  preserves (execute_select_or_fail from fails q).
Proof.
  intros w. unfold execute_select_or_fail. destruct (fails (db w)); apply R_refl.
Qed.

Lemma preserves_session_set (i : Z) : preserves (session_set_user_id i).
Proof. intros w. apply R_refl. Qed.

Lemma preserves_session_pop : preserves session_pop_user_id.
Proof. intros w. apply R_refl. Qed.

Lemma preserves_get_current_user : preserves get_current_user.
Proof.
  intros w. fold (after_auth w).
  destruct (after_auth_same w) as [-> _]. apply R_refl.
Qed.

Lemma preserves_execute_insert (into : TableName) (integers : list (option Z))
    (statement : string -> Database -> Database * Z) :
  (forall now d, R d (fst (statement now d))) ->
  preserves (execute_insert into integers statement).
Proof.
  intros H w. unfold execute_insert.
  destruct (forallb Sql.fits_integer_opt integers); [|apply R_refl].
  specialize (H (current_timestamp w) (db w)).
  destruct (statement (current_timestamp w) (db w)). exact H.
Qed.

Ltac preserve :=
  repeat first
    [ apply preserves_ret | apply preserves_raise | apply preserves_flash
    | apply preserves_execute_select | apply preserves_execute_select_or_fail
    | apply preserves_session_set
    | apply preserves_session_pop | apply preserves_get_current_user
    | apply preserves_bind; [|intros ?]
    | apply preserves_execute_insert; intros ? ?; cbn [fst];
      first [ apply R_insert_user | apply R_insert_car
            | apply R_insert_lead | apply R_insert_event ]; reflexivity
    | match goal with
      | |- preserves (match ?x with _ => _ end) => destruct x
      end ].

Lemma preserves_role_required (roles : list string) (view : View) (request : Request) :
  preserves (view request) -> preserves (role_required roles view request).
Proof. intros H. unfold role_required. preserve; exact H. Qed.

Lemma preserves_login_required (view : View) (request : Request) :
  preserves (view request) -> preserves (login_required view request).
Proof. intros H. unfold login_required. preserve; exact H. Qed.

Lemma preserves_index (request : Request) : preserves (index request).
Proof. unfold index, latest_tracking. cbv zeta. preserve. Qed.

Lemma preserves_add_car (request : Request) : preserves (add_car request).
Proof.
  apply preserves_role_required. unfold add_car_body, strip_of, not_null.
  cbv zeta. preserve.
Qed.

Lemma preserves_create_lead (request : Request) : preserves (create_lead request).
Proof.
  apply preserves_login_required. unfold create_lead_body. cbv zeta. preserve.
Qed.

Lemma preserves_leads_list (request : Request) : preserves (leads_list request).
Proof. apply preserves_role_required. unfold leads_list_body. preserve. Qed.

Lemma preserves_manage_tracking (request : Request) :
  preserves (manage_tracking request).
Proof.
  apply preserves_role_required. unfold manage_tracking_body. cbv zeta. preserve.
Qed.

Lemma preserves_register (hash : string -> string) (request : Request) :
  preserves (register hash request).
Proof. unfold register. cbv zeta. preserve. Qed.

Lemma preserves_login (check : string -> string -> bool) (request : Request) :
  preserves (login check request).
Proof. unfold login. cbv zeta. preserve. Qed.

Lemma preserves_logout (request : Request) : preserves (logout request).
Proof. unfold logout. preserve. Qed.

Lemma preserves_tracking_overview (request : Request) :
  preserves (tracking_overview request).
Proof. unfold tracking_overview. preserve. Qed.

Lemma preserves_inject_user : preserves inject_user.
Proof. unfold inject_user. preserve. Qed.

End Preserves.

(* ------------------------------------------------------------------ *)
(** *** Views that only read, views that only append *)

(** [t'] holds the rows of [t], in their order, possibly followed by new
    rows. *)
Definition table_extends (R : Type) (t t' : Sql.Table R) : Prop :=
  exists added, Sql.rows t' = (Sql.rows t ++ added)%list.

Lemma table_extends_refl (R : Type) (t : Sql.Table R) : table_extends t t.
Proof. exists []. now rewrite app_nil_r. Qed.

Lemma table_extends_trans (R : Type) (a b c : Sql.Table R) :
  table_extends a b -> table_extends b c -> table_extends a c.
Proof.
  intros [x Hx] [y Hy]. exists (x ++ y)%list. now rewrite Hy, Hx, app_assoc.
Qed.

Lemma table_extends_insert (R : Type) (id_of : R -> Z) (mk : Z -> R) (t : Sql.Table R) :
  table_extends t (Sql.insert id_of mk t).
Proof. now exists [mk (Sql.next_rowid id_of t)]. Qed.

(** The views that have no [INSERT]: the database after the request is the
    database before it. *)
Theorem reading_views_write_nothing
    (check : string -> string -> bool) (request : Request) (w : World) :
  db (world_of (index request w)) = db w
  /\ db (world_of (leads_list request w)) = db w
  /\ db (world_of (tracking_overview request w)) = db w
  /\ db (world_of (login check request w)) = db w
  /\ db (world_of (logout request w)) = db w
  /\ db (world_of (inject_user w)) = db w.
Proof.
  assert (S : forall a b : Database, a = b -> b = a) by congruence.
  repeat apply conj; apply S.
  - apply (@preserves_index eq (@eq_refl _) (@eq_trans _)).
  - apply (@preserves_leads_list eq (@eq_refl _) (@eq_trans _)).
  - apply (@preserves_tracking_overview eq (@eq_refl _)).
  - apply (@preserves_login eq (@eq_refl _) (@eq_trans _)).
  - apply (@preserves_logout eq (@eq_refl _)).
  - apply (@preserves_inject_user eq (@eq_refl _) (@eq_trans _)).
Qed.

(** Only table [cars] may have grown. *)
Definition only_cars_grow (d d' : Database) : Prop :=
  users d' = users d /\ leads d' = leads d /\ tracking_events d' = tracking_events d
  /\ table_extends (cars d) (cars d').

Definition only_leads_grow (d d' : Database) : Prop :=
  users d' = users d /\ cars d' = cars d /\ tracking_events d' = tracking_events d
  /\ table_extends (leads d) (leads d').

Definition only_events_grow (d d' : Database) : Prop :=
  users d' = users d /\ cars d' = cars d /\ leads d' = leads d
  /\ table_extends (tracking_events d) (tracking_events d').

Definition only_users_grow (d d' : Database) : Prop :=
  cars d' = cars d /\ leads d' = leads d /\ tracking_events d' = tracking_events d
  /\ table_extends (users d) (users d').

(** The four views that write, on every path through them (rejected,
    failed or accepted): each leaves three tables as they were and keeps
    every row of its own table in place; rows are only ever added at the
    end. *)
Theorem writing_views_only_append
    (hash : string -> string) (request : Request) (w : World) :
  only_cars_grow (db w) (db (world_of (add_car request w)))
  /\ only_leads_grow (db w) (db (world_of (create_lead request w)))
  /\ only_events_grow (db w) (db (world_of (manage_tracking request w)))
  /\ only_users_grow (db w) (db (world_of (register hash request w))).
Proof.
  split; [|split; [|split]].
  - apply (@preserves_add_car only_cars_grow).
    + intros d. repeat split. apply table_extends_refl.
    + intros a b c (H1 & H2 & H3 & H4) (K1 & K2 & K3 & K4).
      repeat split; try congruence. now apply table_extends_trans with (cars b).
    + intros d mk _. repeat split. apply table_extends_insert.
  - apply (@preserves_create_lead only_leads_grow).
    + intros d. repeat split. apply table_extends_refl.
    + intros a b c (H1 & H2 & H3 & H4) (K1 & K2 & K3 & K4).
      repeat split; try congruence. now apply table_extends_trans with (leads b).
    + intros d mk _. repeat split. apply table_extends_insert.
  - apply (@preserves_manage_tracking only_events_grow).
    + intros d. repeat split. apply table_extends_refl.
    + intros a b c (H1 & H2 & H3 & H4) (K1 & K2 & K3 & K4).
      repeat split; try congruence.
      now apply table_extends_trans with (tracking_events b).
    + intros d mk _. repeat split. apply table_extends_insert.
  - apply (@preserves_register only_users_grow).
    + intros d. repeat split. apply table_extends_refl.
    + intros a b c (H1 & H2 & H3 & H4) (K1 & K2 & K3 & K4).
      repeat split; try congruence. now apply table_extends_trans with (users b).
    + intros d mk _. repeat split. apply table_extends_insert.
Qed.

(* ------------------------------------------------------------------ *)
(** *** Primary keys *)

(** No two rows of a table share their [id]. *)
Definition keys_unique (d : Database) : Prop :=
  NoDup (map User.id (Sql.rows (users d)))
  /\ NoDup (map Car.id (Sql.rows (cars d)))
  /\ NoDup (map Lead.id (Sql.rows (leads d)))
  /\ NoDup (map TrackingEvent.id (Sql.rows (tracking_events d))).

(** [AUTOINCREMENT] gives a key above those in use, so an insertion keeps
    the keys apart. *)
Lemma insert_keeps_keys_unique (R : Type) (id_of : R -> Z) (mk : Z -> R) (t : Sql.Table R) :
  (forall i, id_of (mk i) = i) ->
  NoDup (map id_of (Sql.rows t)) ->
  NoDup (map id_of (Sql.rows (Sql.insert id_of mk t))).
Proof.
  intros Hmk H. unfold Sql.insert. cbn [Sql.rows]. rewrite map_app. cbn [map].
  apply NoDup_app; [exact H | apply NoDup_cons; [intros [] | apply NoDup_nil] |].
  intros i Hi [E|[]]. rewrite Hmk in E. apply in_map_iff in Hi.
  destruct Hi as (r & Hr & Hin).
  destruct (max_rowid_bound id_of t) as [_ Hb]. specialize (Hb r Hin).
  unfold Sql.next_rowid in E. lia.
Qed.

(** Every view, on every path, leaves the primary keys of the four tables
    pairwise distinct when they were so before the request. *)
Theorem views_keep_keys_unique
    (hash : string -> string) (check : string -> string -> bool)
    (request : Request) (w : World) :
  keys_unique (db w) ->
  keys_unique (db (world_of (index request w)))
  /\ keys_unique (db (world_of (add_car request w)))
  /\ keys_unique (db (world_of (create_lead request w)))
  /\ keys_unique (db (world_of (leads_list request w)))
  /\ keys_unique (db (world_of (manage_tracking request w)))
  /\ keys_unique (db (world_of (register hash request w)))
  /\ keys_unique (db (world_of (login check request w)))
  /\ keys_unique (db (world_of (logout request w)))
  /\ keys_unique (db (world_of (tracking_overview request w))).
Proof.
  intros H.
  set (R := fun d d' : Database => keys_unique d -> keys_unique d').
  assert (Rr : forall d, R d d) by (intros d K; exact K).
  assert (Rt : forall a b c, R a b -> R b c -> R a c) by (unfold R; auto).
  assert (Ru : forall d mk, (forall i, User.id (mk i) = i) ->
             R d (mkDatabase (Sql.insert User.id mk (users d)) (cars d) (leads d)
                             (tracking_events d))).
  { intros d mk Hmk (K1 & K2 & K3 & K4). repeat split; try assumption.
    now apply insert_keeps_keys_unique. }
  assert (Rc : forall d mk, (forall i, Car.id (mk i) = i) ->
             R d (mkDatabase (users d) (Sql.insert Car.id mk (cars d)) (leads d)
                             (tracking_events d))).
  { intros d mk Hmk (K1 & K2 & K3 & K4). repeat split; try assumption.
    now apply insert_keeps_keys_unique. }
  assert (Rl : forall d mk, (forall i, Lead.id (mk i) = i) ->
             R d (mkDatabase (users d) (cars d) (Sql.insert Lead.id mk (leads d))
                             (tracking_events d))).
  { intros d mk Hmk (K1 & K2 & K3 & K4). repeat split; try assumption.
    now apply insert_keeps_keys_unique. }
  assert (Re : forall d mk, (forall i, TrackingEvent.id (mk i) = i) ->
             R d (mkDatabase (users d) (cars d) (leads d)
                             (Sql.insert TrackingEvent.id mk (tracking_events d)))).
  { intros d mk Hmk (K1 & K2 & K3 & K4). repeat split; try assumption.
    now apply insert_keeps_keys_unique. }
  split; [|split; [|split; [|split; [|split; [|split; [|split; [|split]]]]]]].
  - now apply (@preserves_index R Rr Rt request w).
  - now apply (@preserves_add_car R Rr Rt Rc request w).
  - now apply (@preserves_create_lead R Rr Rt Rl request w).
  - now apply (@preserves_leads_list R Rr Rt request w).
  - now apply (@preserves_manage_tracking R Rr Rt Re request w).
  - now apply (@preserves_register R Rr Rt Ru hash request w).
  - now apply (@preserves_login R Rr Rt check request w).
  - now apply (@preserves_logout R Rr request w).
  - now apply (@preserves_tracking_overview R Rr request w).
Qed.

(* ================================================================== *)
(** ** More on the current user and the guards *)
(* ================================================================== *)

(** At the start of a request (nothing cached in [g]) and with distinct
    user ids, the current user is [u] exactly when the session holds the id
    of [u], that id is not 0, and [u] is a row of [users]; a session whose
    id belongs to no row has no current user. *)
Theorem current_user_is_session_row (w : World) (u : User.t) :
  g_current_user w = None ->
  NoDup (map User.id (Sql.rows (users (db w)))) ->
  (current_user w = Some u <->
   session_user_id w = Some (User.id u) /\ User.id u <> 0
   /\ In u (Sql.rows (users (db w)))).
Proof.
  intros G N. unfold current_user, get_current_user. rewrite G.
  destruct (session_user_id w) as [i|]; cbn [falsy_int].
  - destruct (i =? 0) eqn:Z0.
    + cbn. apply Z.eqb_eq in Z0. split; [discriminate|].
      intros ([= ->] & H & _). congruence.
    + cbn. apply Z.eqb_neq in Z0. split.
      * intros H. apply find_some in H. destruct H as [Hin E].
        apply Z.eqb_eq in E. rewrite E. auto.
      * intros ([= ->] & _ & Hin).
        destruct (find (fun u0 => User.id u0 =? User.id u) (Sql.rows (users (db w))))
          as [v|] eqn:F.
        -- apply find_some in F. destruct F as [Hv E]. apply Z.eqb_eq in E.
           f_equal. clear Z0.
           induction (Sql.rows (users (db w))) as [|a l IH]; [easy|].
           inversion N as [|? ? Hna Hl]; subst.
           destruct Hv as [->|Hv], Hin as [->|Hin]; try reflexivity.
           ++ exfalso. apply Hna. rewrite E. now apply in_map.
           ++ exfalso. apply Hna. rewrite <- E. now apply in_map.
           ++ now apply IH.
        -- apply find_none with (x := u) in F; [|exact Hin].
           now rewrite Z.eqb_refl in F.
  - cbn. split; [discriminate | intros [H _]; discriminate].
Qed.

Lemma current_user_is_session_row_witness :
  current_user customer_world = Some customer.
Proof.
  apply (@current_user_is_session_row customer_world customer eq_refl).
  - cbn. repeat (apply NoDup_cons; [cbn; intuition discriminate|]). apply NoDup_nil.
  - cbn. intuition discriminate.
Defined.

(** [get_current_user] asks the database at most once in a request: the
    first call executes nothing or one [SELECT] on [users], and a second
    call gives the same answer and leaves the world, the list of executed
    statements included, as the first call left it. *)
Theorem get_current_user_memoised (w : World) :
  let r1 := get_current_user w in
  get_current_user (world_of r1) = r1
  /\ (executed_by w r1 = [] \/ executed_by w r1 = [SELECT [t_users]]).
Proof.
  intros r1. unfold r1, world_of. fold (after_auth w). split.
  - rewrite get_current_user_again. symmetry. apply get_current_user_run.
  - unfold executed_by, world_of. fold (after_auth w).
    destruct (after_auth_same w) as (_ & _ & _ & _ & [E|E]); rewrite E.
    + left. apply skipn_length_self.
    + right. apply skipn_length_app.
Qed.

(** [inject_user] hands the templates the current user and three flags; at
    most one flag is set, none without a current user, and a flag is set
    exactly when the current user has that role. *)
Theorem inject_user_flags (w : World) :
  exists ctx,
    response_of (inject_user w) = Some ctx
    /\ ctx_current_user ctx = current_user w
    /\ (is_admin ctx = true <-> exists u, current_user w = Some u /\ User.role u = "admin")
    /\ (is_moderator ctx = true <->
        exists u, current_user w = Some u /\ User.role u = "moderator")
    /\ (is_customer ctx = true <->
        exists u, current_user w = Some u /\ User.role u = "customer")
    /\ (is_admin ctx && is_moderator ctx = false)
    /\ (is_admin ctx && is_customer ctx = false)
    /\ (is_moderator ctx && is_customer ctx = false).
Proof.
  unfold inject_user, bind. rewrite get_current_user_run. cbn.
  eexists. split; [reflexivity|]. cbn.
  assert (F : forall role,
             user_has_role (current_user w) role = true <->
             exists u, current_user w = Some u /\ User.role u = role).
  { intros role. destruct (current_user w) as [u|]; cbn.
    - rewrite String.eqb_eq. split; [eauto | now intros (? & [= <-] & ?)].
    - split; [discriminate | now intros (? & ? & _)]. }
  split; [reflexivity|]. rewrite !F.
  split; [reflexivity|]. split; [reflexivity|]. split; [reflexivity|].
  destruct (current_user w) as [u|]; cbn; [|auto].
  repeat split.
  - destruct (String.eqb_spec (User.role u) "admin") as [->|]; reflexivity.
  - destruct (String.eqb_spec (User.role u) "admin") as [->|]; reflexivity.
  - destruct (String.eqb_spec (User.role u) "moderator") as [->|]; reflexivity.
Qed.

(** A logged-in user whose role is not among the roles of the guard is
    turned away by [role_required]: the answer is a redirect to the
    catalogue with the no-permission notice, it is the same whatever view
    stands behind the guard, and neither the database nor the session
    changes. *)
Theorem role_required_rejects_other_roles
    (roles : list string) (view : View) (request : Request) (w : World) (u : User.t) :
  current_user w = Some u ->
  roles <> [] ->
  has_role roles u = false ->
  let r := role_required roles view request w in
  response_of r = Some (redirect (url_for ep_index))
  /\ failed_with AuthorizationError w r = true
  /\ db (world_of r) = db w
  /\ session_user_id (world_of r) = session_user_id w
  /\ (forall other : View, role_required roles other request w = r).
Proof.
  intros Hu Hne Hr r.
  assert (E : forall v : View,
             role_required roles v request w
             = reject n_no_permission (url_for ep_index) (after_auth w)).
  { intros v. unfold role_required, bind. rewrite get_current_user_run, Hu.
    unfold has_role in Hr. rewrite Hr. destruct roles; [congruence|]. reflexivity. }
  destruct (after_auth_same w) as (Hdb & Hs & Hf & _ & _).
  unfold r. rewrite (E view). split; [reflexivity|]. split.
  { unfold failed_with, flashed_by. cbn. rewrite Hf, skipn_length_app. reflexivity. }
  split; [exact Hdb|]. split; [exact Hs|]. intros other. apply E.
Qed.

(** Whatever [role_required] lets through, [login_required] lets through
    as well, with the same outcome: for a logged-in user whose role is
    accepted (or when the guard names no role at all) both guards run the
    view in the same world. *)
Theorem role_required_implies_login_required
    (roles : list string) (view : View) (request : Request) (w : World) (u : User.t) :
  current_user w = Some u ->
  roles = [] \/ has_role roles u = true ->
  role_required roles view request w = login_required view request w
  /\ login_required view request w = view request (after_auth w).
Proof.
  intros Hu Hr.
  rewrite (@login_required_authenticated view request w u Hu). split; [|reflexivity].
  unfold role_required, bind. rewrite get_current_user_run, Hu.
  destruct Hr as [->|Hr]; [reflexivity|].
  unfold has_role in Hr. rewrite Hr, andb_false_r. reflexivity.
Qed.

Lemma role_required_implies_login_required_witness :
  role_required ["admin"] leads_list_body (get_request "/leads" []) admin_world
  = login_required leads_list_body (get_request "/leads" []) admin_world.
Proof.
  apply (@role_required_implies_login_required ["admin"] leads_list_body
           (get_request "/leads" []) admin_world
           (User.mk 1 "Demo Manager" "demo@asiadrive.com" (Some "+82 10 1234 5678")
                    "hash-of-demo1234" "admin" "2024-01-01 10:00:00") eq_refl).
  right. reflexivity.
Defined.

(** A visitor who is not logged in cannot send a lead: [create_lead]
    answers with the redirect to the login page, keeping the requested URL
    as [next]; the database is unchanged and no statement touches the
    [leads] table. *)
Theorem create_lead_unauthenticated (w : World) (request : Request) :
  current_user w = None ->
  let r := create_lead request w in
  response_of r = Some (redirect (url_for_next ep_login (given_url (url request))))
  /\ failed_with AuthenticationRequired w r = true
  /\ db (world_of r) = db w
  /\ forallb (fun s => negb (touches t_leads s)) (executed_by w r) = true.
Proof.
  intros H r.
  assert (Hr : r = reject n_login_to_send_lead
                     (url_for_next ep_login (given_url (url request))) (after_auth w))
    by (apply login_required_unauthenticated; exact H).
  destruct (after_auth_same w) as (Hdb & Hs & Hf & _ & He).
  rewrite Hr. split; [reflexivity|]. split.
  { unfold failed_with, flashed_by. cbn. rewrite Hf, skipn_length_app. reflexivity. }
  split; [exact Hdb|].
  unfold executed_by. cbn.
  destruct He as [-> | ->]; [now rewrite skipn_length_self|].
  now rewrite skipn_length_app.
Qed.

(* ================================================================== *)
(** ** More on the catalogue page *)
(* ================================================================== *)

(* ------------------------------------------------------------------ *)
(** *** [ORDER BY] sorts and keeps the rows *)

Section OrderByFacts.

Variable A : Type.
Variable le : A -> A -> bool.
Hypothesis le_total : forall a b, le a b = true \/ le b a = true.
Hypothesis le_trans : forall a b c, le a b = true -> le b c = true -> le a c = true.

Lemma insert_sorted_perm (x : A) (l : list A) :
  Permutation (Sql.insert_sorted le x l) (x :: l).
Proof.
  induction l as [|y r IH]; simpl; [reflexivity|].
  destruct (le x y); [reflexivity|].
  rewrite IH. apply perm_swap.
Qed.

Lemma order_by_perm (l : list A) : Permutation (Sql.order_by le l) l.
Proof.
  unfold Sql.order_by. induction l as [|x r IH]; simpl; [reflexivity|].
  rewrite insert_sorted_perm. now apply perm_skip.
Qed.

Lemma insert_sorted_sorted (x : A) (l : list A) :
  StronglySorted (fun a b => le a b = true) l ->
  StronglySorted (fun a b => le a b = true) (Sql.insert_sorted le x l).
Proof.
  induction l as [|y r IH]; intros H; simpl.
  - constructor; constructor.
  - inversion H as [|? ? Hr Hy]; subst.
    destruct (le x y) eqn:E.
    + constructor; [exact H|]. constructor; [exact E|].
      rewrite Forall_forall in *. intros z Hz. apply le_trans with y; auto.
    + constructor; [now apply IH|].
      rewrite Forall_forall in *. intros z Hz.
      apply In_insert_sorted in Hz. destruct Hz as [->|Hz]; [|auto].
      destruct (le_total x y) as [K|K]; congruence.
Qed.

Lemma order_by_sorted (l : list A) :
  StronglySorted (fun a b => le a b = true) (Sql.order_by le l).
Proof.
  unfold Sql.order_by. induction l as [|x r IH]; simpl; [constructor|].
  now apply insert_sorted_sorted.
Qed.

End OrderByFacts.

Lemma StronglySorted_weaken (A : Type) (P Q : A -> A -> Prop) (l : list A) :
  (forall a b, P a b -> Q a b) -> StronglySorted P l -> StronglySorted Q l.
Proof.
  intros H S. induction S as [|a l S IH F]; constructor; [exact IH|].
  rewrite Forall_forall in *. auto.
Qed.

(** The list of countries handed to the catalogue page. *)
Definition countries_shown (r : option Response) : option (list string) :=
  match r with
  | Some (render_template (index_html _ countries _ _ _)) => Some countries
  | _ => None
  end.

Lemma filter_split_perm (A : Type) (p : A -> bool) (l : list A) :
  Permutation (filter p l ++ filter (fun a => negb (p a)) l) l.
Proof.
  induction l as [|a l IH]; cbn; [reflexivity|].
  destruct (p a); cbn.
  - now apply perm_skip.
  - rewrite <- Permutation_middle. now apply perm_skip.
Qed.

(** [index] shows the catalogue page whenever the pattern of the search is
    within the limit of [LIKE]. The page lists its cars by model year,
    newest first; the cars listed are rows of [cars], and none is listed
    more often than it is stored. Without [country] and [q] the page lists
    the whole table. *)
Theorem index_lists_by_year (request : Request) (w : World) :
  (within_like_limit (multidict_get "q" (args request)) = true ->
   exists shown, cars_shown (response_of (index request w)) = Some shown)
  /\ (forall shown,
        cars_shown (response_of (index request w)) = Some shown ->
        StronglySorted (fun a b => Car.year b <= Car.year a) shown
        /\ (exists others, Permutation (shown ++ others) (Sql.rows (cars (db w))))
        /\ (multidict_get "country" (args request) = None ->
            multidict_get "q" (args request) = None ->
            Permutation shown (Sql.rows (cars (db w))))).
Proof.
  split.
  { intros Hl. rewrite index_cars_shown, index_within_limit by exact Hl. eauto. }
  intros shown. rewrite index_cars_shown.
  destruct (index_fails request (db w)); [discriminate|]. intros [= <-].
  unfold select_cars. split; [|split].
  - apply StronglySorted_weaken
      with (P := fun a b => (Car.year b <=? Car.year a) = true).
    + intros a b. apply Z.leb_le.
    + apply order_by_sorted.
      * intros a b. rewrite !Z.leb_le. lia.
      * intros a b c. rewrite !Z.leb_le. lia.
  - eexists. rewrite order_by_perm. apply filter_split_perm.
  - intros -> ->. rewrite order_by_perm. cbn.
    induction (Sql.rows (cars (db w))) as [|a l IH]; cbn; [reflexivity|].
    now apply perm_skip.
Qed.

(** The countries offered for filtering: exactly the non-empty countries
    of the cars in the table, each once, in ascending order. They do not
    depend on the arguments of the request: every request that [index]
    answers with the page gets them, and so does every request whose search
    pattern is within the limit of [LIKE]. *)
Theorem index_countries (w : World) :
  exists countries,
    (forall c,
       In c countries <->
       c <> "" /\ exists car, In car (Sql.rows (cars (db w))) /\ Car.country car = c)
    /\ NoDup countries
    /\ StronglySorted (fun a b => String.leb a b = true) countries
    /\ (forall request,
          countries_shown (response_of (index request w))
          = if index_fails request (db w) then None else Some countries)
    /\ (forall request,
          within_like_limit (multidict_get "q" (args request)) = true ->
          countries_shown (response_of (index request w)) = Some countries).
Proof.
  exists (sorted (nodup string_dec (filter PyStr.truthy (select_distinct_country (db w))))).
  unfold sorted, select_distinct_country.
  split; [|split; [|split; [|split]]].
  - intros c. rewrite In_order_by, nodup_In, filter_In, nodup_In, in_map_iff.
    split.
    + intros [(car & E & Hin) T]. split; [|eauto].
      intros ->. discriminate T.
    + intros [N (car & Hin & E)]. split; [eauto|]. destruct c; [congruence | reflexivity].
  - eapply Permutation_NoDup; [symmetry; apply order_by_perm | apply NoDup_nodup].
  - apply order_by_sorted; [apply String.leb_total | apply text_leb_trans].
  - intros request. unfold response_of. rewrite index_run.
    destruct (index_fails request (db w)); reflexivity.
  - intros request Hl. unfold response_of.
    rewrite index_run, index_within_limit by exact Hl. reflexivity.
Qed.


(** For a logged-in administrator or moderator, [add_car] rejects the
    request as a validation error exactly when one of [brand], [model],
    [year], [price], [country] is missing or empty, and then stores
    nothing. *)
Theorem add_car_validation (w : World) (request : Request) (u : User.t) :
  current_user w = Some u ->
  has_role staff u = true ->
  let r := add_car request w in
  (failed_with ValidationError w r = true <->
   exists field,
     In field ["brand"; "model"; "year"; "price"; "country"]
     /\ (multidict_get field (form request) = None
         \/ multidict_get field (form request) = Some ""))
  /\ (failed_with ValidationError w r = true ->
      response_of r = Some (redirect (url_for ep_add_car_form))
      /\ db (world_of r) = db w).
Proof.
  intros Hu Hs r.
  assert (P : car_fields_present request = false <->
              exists field,
                In field ["brand"; "model"; "year"; "price"; "country"]
                /\ (multidict_get field (form request) = None
                    \/ multidict_get field (form request) = Some "")).
  { unfold car_fields_present. rewrite <- not_true_iff_false, forallb_forall. split.
    - intros N.
      destruct (forallb (fun field => PyStr.truthy_opt (multidict_get field (form request)))
                  ["brand"; "model"; "year"; "price"; "country"]) eqn:F.
      + exfalso. apply N. now apply forallb_forall.
      + apply not_true_iff_false in F. rewrite forallb_forall in F.
        clear N. cbn [In] in *.
        destruct (PyStr.truthy_opt (multidict_get "brand" (form request))) eqn:B;
          [|exists "brand"]; [
        destruct (PyStr.truthy_opt (multidict_get "model" (form request))) eqn:M;
          [|exists "model"]; [
        destruct (PyStr.truthy_opt (multidict_get "year" (form request))) eqn:Y;
          [|exists "year"]; [
        destruct (PyStr.truthy_opt (multidict_get "price" (form request))) eqn:Pr;
          [|exists "price"]; [
        destruct (PyStr.truthy_opt (multidict_get "country" (form request))) eqn:C;
          [|exists "country"] | ] | ] | ] | ];
          try (exfalso; apply F; intros x [<-|[<-|[<-|[<-|[<-|[]]]]]]; assumption);
          (split; [tauto|]);
          match goal with
          | H : PyStr.truthy_opt ?v = false |- _ =>
              destruct v as [[|]|]; [now right | discriminate H | now left]
          end.
    - intros (field & Hin & Hv) N. specialize (N field Hin).
      destruct Hv as [E|E]; rewrite E in N; discriminate N. }
  rewrite <- P. destruct (after_auth_same w) as (Hdb & _ & Hf & _ & _).
  destruct (car_fields_present request) eqn:E.
  - assert (Hv : failed_with ValidationError w r = false).
    { unfold r. rewrite (@add_car_run w request u Hu Hs E).
      destruct (forallb Sql.fits_integer_opt (car_integers request));
        unfold failed_with, flashed_by; cbn.
      - now rewrite skipn_length_app.
      - now rewrite Hf, skipn_length_self. }
    rewrite Hv. split; [split; discriminate | discriminate].
  - assert (Hr : r = reject n_car_fields_required (url_for ep_add_car_form) (after_auth w))
      by (apply add_car_missing with u; assumption).
    assert (Hv : failed_with ValidationError w r = true).
    { rewrite Hr. unfold failed_with, flashed_by. cbn.
      now rewrite Hf, skipn_length_app. }
    rewrite Hv. split; [tauto|]. intros _. rewrite Hr. split; [reflexivity | exact Hdb].
Qed.

(* ================================================================== *)
(** ** The list of leads and the tracking pages *)
(* ================================================================== *)

(** The leads a response lists, when it is the page of leads. *)
Definition leads_shown (r : option Response) : option (list LeadRow) :=
  match r with
  | Some (render_template (leads_html leads)) => Some leads
  | _ => None
  end.

Definition lead_of (row : LeadRow) : Lead.t := fst (fst row).

(** An administrator gets every lead of the table, each as often as it is
    stored, the most recent first. A lead comes with the brand and model of
    the first car whose id it refers to and with the name, email and role of
    the first user whose id it refers to, and without them when it refers to
    none or to an id that no row has. *)
Theorem leads_list_shows_all_leads (w : World) (request : Request) (u : User.t) :
  current_user w = Some u ->
  User.role u = "admin" ->
  exists shown,
    leads_shown (response_of (leads_list request w)) = Some shown
    /\ Permutation (map lead_of shown) (Sql.rows (leads (db w)))
    /\ StronglySorted
         (fun a b => String.leb (Lead.created_at (lead_of b))
                                (Lead.created_at (lead_of a)) = true) shown
    /\ (forall l car usr,
          In (l, car, usr) shown ->
          car = match Lead.car_id l with
                | Some c =>
                    option_map (fun x => (Car.brand x, Car.model x))
                      (find (fun x => Car.id x =? c) (Sql.rows (cars (db w))))
                | None => None
                end
          /\ usr = match Lead.user_id l with
                   | Some i =>
                       option_map (fun x => (User.name x, User.email x, User.role x))
                         (find (fun x => User.id x =? i) (Sql.rows (users (db w))))
                   | None => None
                   end).
Proof.
  intros Hu Hr.
  assert (Ha : has_role ["admin"] u = true).
  { unfold has_role. cbn. now rewrite Hr. }
  unfold leads_list. rewrite (@role_required_allowed ["admin"] _ request w u Hu Ha).
  destruct (after_auth_same w) as (Hdb & _).
  eexists. split; [reflexivity|]. rewrite Hdb. unfold select_leads.
  split; [|split].
  - rewrite map_map. cbn. rewrite map_id. apply order_by_perm.
  - set (le := fun a b => String.leb (Lead.created_at b) (Lead.created_at a)).
    assert (S : StronglySorted (fun a b => le a b = true)
                  (Sql.order_by le (Sql.rows (leads (db w))))).
    { apply order_by_sorted; unfold le.
      - intros a b. apply String.leb_total.
      - intros a b c H1 H2. now apply text_leb_trans with (Lead.created_at b). }
    induction S as [|a l S IH F]; cbn; constructor; [exact IH|].
    rewrite Forall_forall in *. intros row Hrow.
    apply in_map_iff in Hrow. destruct Hrow as (x & <- & Hx). cbn. now apply F.
  - intros l car usr Hin. apply in_map_iff in Hin.
    destruct Hin as (x & E & _). injection E as -> <- <-. split; reflexivity.
Qed.

Lemma leads_list_shows_all_leads_witness :
  exists shown,
    leads_shown (response_of (leads_list (get_request "/leads" []) admin_world))
    = Some shown
    /\ Permutation (map lead_of shown) (Sql.rows (leads seed_db)).
Proof.
  destruct (@leads_list_shows_all_leads admin_world (get_request "/leads" [])
              (User.mk 1 "Demo Manager" "demo@asiadrive.com" (Some "+82 10 1234 5678")
                       "hash-of-demo1234" "admin" "2024-01-01 10:00:00")
              eq_refl eq_refl) as (shown & H1 & H2 & _).
  exists shown. split; [exact H1 | exact H2].
Defined.

Lemma map_flat_map (A B C : Type) (f : B -> C) (g : A -> list B) (l : list A) :
  map f (flat_map g l) = flat_map (fun x => map f (g x)) l.
Proof.
  induction l as [|x r IH]; [reflexivity|]. cbn. now rewrite map_app, IH.
Qed.

Lemma filter_key_unique (A : Type) (key : A -> Z) (c : Z) (l : list A) :
  NoDup (map key l) ->
  List.length (filter (fun x => key x =? c) l)
  = if existsb (fun x => key x =? c) l then 1%nat else 0%nat.
Proof.
  induction l as [|a l IH]; cbn; intros N; [reflexivity|].
  inversion N as [|? ? Ha Hl]; subst. specialize (IH Hl).
  destruct (key a =? c) eqn:E; cbn; [|exact IH].
  rewrite IH. destruct (existsb (fun x => key x =? c) l) eqn:X; [|reflexivity].
  exfalso. apply existsb_exists in X. destruct X as (x & Hx & K).
  apply Ha. apply Z.eqb_eq in E, K. rewrite E, <- K. now apply in_map.
Qed.

(** [tracking_overview] needs no login and lists an event once for every
    car that has the id the event refers to, with the brand, model and
    country of that car, the most recent event first: an event is listed as
    many times as there are such cars, so exactly once when the ids of the
    cars are distinct and its car exists. An event whose [car_id] belongs
    to no car is not listed. *)
Theorem tracking_overview_lists_events_of_cars (request : Request) (w : World) :
  exists rows,
    response_of (tracking_overview request w) = Some rows
    /\ (forall e brand model country,
          In (e, brand, model, country) rows <->
          In e (Sql.rows (tracking_events (db w)))
          /\ exists car,
               In car (Sql.rows (cars (db w)))
               /\ Car.id car = TrackingEvent.car_id e
               /\ Car.brand car = brand /\ Car.model car = model
               /\ Car.country car = country)
    /\ StronglySorted
         (fun a b =>
            String.leb (TrackingEvent.updated_at (overview_event b))
                       (TrackingEvent.updated_at (overview_event a)) = true) rows
    /\ (forall e,
          In e (Sql.rows (tracking_events (db w))) ->
          (forall car, In car (Sql.rows (cars (db w))) ->
                       Car.id car <> TrackingEvent.car_id e) ->
          forall row, In row rows -> overview_event row <> e)
    /\ Permutation (map overview_event rows)
         (flat_map
            (fun e =>
               repeat e (List.length
                           (filter (fun car => Car.id car =? TrackingEvent.car_id e)
                                   (Sql.rows (cars (db w))))))
            (Sql.rows (tracking_events (db w))))
    /\ (NoDup (map Car.id (Sql.rows (cars (db w)))) ->
        Permutation (map overview_event rows)
          (filter
             (fun e => existsb (fun car => Car.id car =? TrackingEvent.car_id e)
                               (Sql.rows (cars (db w))))
             (Sql.rows (tracking_events (db w))))).
Proof.
  eexists. split; [reflexivity|]. cbn [db]. unfold select_tracking_overview.
  assert (M : forall e brand model country,
             In (e, brand, model, country)
               (flat_map
                  (fun e0 =>
                     map (fun car => (e0, Car.brand car, Car.model car, Car.country car))
                         (filter (fun car => Car.id car =? TrackingEvent.car_id e0)
                                 (Sql.rows (cars (db w)))))
                  (Sql.rows (tracking_events (db w)))) <->
             In e (Sql.rows (tracking_events (db w)))
             /\ exists car,
                  In car (Sql.rows (cars (db w)))
                  /\ Car.id car = TrackingEvent.car_id e
                  /\ Car.brand car = brand /\ Car.model car = model
                  /\ Car.country car = country).
  { intros e brand model country. rewrite in_flat_map. split.
    - intros (e0 & He0 & Hin). apply in_map_iff in Hin.
      destruct Hin as (car & E & Hcar). injection E as -> <- <- <-.
      apply filter_In in Hcar. destruct Hcar as [Hcar K]. apply Z.eqb_eq in K.
      split; [exact He0|]. exists car. auto.
    - intros (He & car & Hcar & K & <- & <- & <-). exists e. split; [exact He|].
      apply in_map_iff. exists car. split; [reflexivity|].
      apply filter_In. split; [exact Hcar | now apply Z.eqb_eq]. }
  assert (P : Permutation
               (map overview_event
                  (Sql.order_by
                     (fun a b : OverviewRow =>
                        String.leb (TrackingEvent.updated_at (overview_event b))
                                   (TrackingEvent.updated_at (overview_event a)))
                     (flat_map
                        (fun e0 =>
                           map (fun car =>
                                  (e0, Car.brand car, Car.model car, Car.country car))
                               (filter (fun car => Car.id car =? TrackingEvent.car_id e0)
                                       (Sql.rows (cars (db w)))))
                        (Sql.rows (tracking_events (db w))))))
               (flat_map
                  (fun e =>
                     repeat e (List.length
                                 (filter (fun car => Car.id car =? TrackingEvent.car_id e)
                                         (Sql.rows (cars (db w))))))
                  (Sql.rows (tracking_events (db w))))).
  { clear M. rewrite order_by_perm, map_flat_map.
    induction (Sql.rows (tracking_events (db w))) as [|e l IH]; [reflexivity|].
    cbn [flat_map]. apply Permutation_app; [|exact IH].
    rewrite map_map. unfold overview_event. cbn [fst].
    now rewrite map_const. }
  split; [|split; [|split; [|split]]].
  - intros e brand model country. rewrite In_order_by. apply M.
  - apply order_by_sorted.
    + intros a b. apply String.leb_total.
    + intros a b c H1 H2.
      now apply text_leb_trans with (TrackingEvent.updated_at (overview_event b)).
  - intros e He Hno [[[e' brand] model] country] Hrow E.
    unfold overview_event in E. cbn in E. subst e'.
    apply In_order_by in Hrow. apply M in Hrow.
    destruct Hrow as (_ & car & Hcar & K & _). now apply (Hno car).
  - exact P.
  - intros N. rewrite P. clear M P.
    induction (Sql.rows (tracking_events (db w))) as [|e l IH]; [reflexivity|].
    cbn [flat_map filter]. rewrite (filter_key_unique Car.id _ _ N).
    destruct (existsb _ (Sql.rows (cars (db w)))); cbn; [now apply perm_skip | exact IH].
Qed.

Example tracking_overview_seed :
  map (fun row : OverviewRow => TrackingEvent.id (overview_event row))
      (select_tracking_overview seed_db) = [1; 2; 3; 4].
Proof. reflexivity. Qed.

(** No check ties an event to an existing car. An event recorded for a
    [car_id] that no car has is stored like any other; afterwards the
    tracking overview does not list it, while [latest_tracking] has an
    entry under that [car_id]. *)
Theorem event_for_unknown_car
    (w w2 : World) (request later : Request) (u : User.t) :
  method request = POST ->
  current_user w = Some u ->
  has_role staff u = true ->
  event_incomplete request = false ->
  Sql.fits_integer_opt (event_car_id request) = true ->
  (forall car, In car (Sql.rows (cars (db w))) ->
               Car.id car <> or_zero (event_car_id request)) ->
  db w2 = db (world_of (manage_tracking request w)) ->
  response_of (manage_tracking request w) = Some (redirect (url_for ep_manage_tracking))
  /\ In (new_event w request) (Sql.rows (tracking_events (db w2)))
  /\ (exists rows,
        response_of (tracking_overview later w2) = Some rows
        /\ forall row, In row rows -> overview_event row <> new_event w request)
  /\ (exists m r,
        response_of (latest_tracking w2) = Some m
        /\ PyDict.get (or_zero (event_car_id request)) m = Some r).
Proof.
  intros Hp Hu Hs Hc Hf Hno Hdb.
  pose proof (@manage_tracking_complete w request u Hp Hu Hs Hc Hf) as Hr.
  rewrite Hr in Hdb. cbn in Hdb.
  assert (Hin : In (new_event w request) (Sql.rows (tracking_events (db w2)))).
  { rewrite Hdb. cbn. apply in_or_app. right. now left. }
  split; [now rewrite Hr|]. split; [exact Hin|]. split.
  - eexists. split; [reflexivity|]. intros [[[e brand] model] country] Hrow E.
    unfold overview_event in E. cbn in E. subst e.
    cbn [db] in Hrow. unfold select_tracking_overview in Hrow.
    apply In_order_by in Hrow. apply in_flat_map in Hrow.
    destruct Hrow as (e0 & _ & Hrow). apply in_map_iff in Hrow.
    destruct Hrow as (car & E & Hcar). injection E as -> _ _ _.
    apply filter_In in Hcar. destruct Hcar as [Hcar K]. apply Z.eqb_eq in K.
    rewrite Hdb in Hcar. cbn in Hcar. now apply (Hno car).
  - destruct (@tracking_entry_exists (Sql.rows (tracking_events (db w2)))
                (or_zero (event_car_id request))) as [r Hget].
    + exists (new_event w request). split; [exact Hin | reflexivity].
    + eexists. exists r. split; [apply latest_tracking_returns | exact Hget].
Qed.

(* ------------------------------------------------------------------ *)
(** *** The management page *)

Lemma order_by_map (A B : Type) (f : A -> B) (le : A -> A -> bool) (le' : B -> B -> bool)
    (l : list A) :
  (forall a b, le' (f a) (f b) = le a b) ->
  map f (Sql.order_by le l) = Sql.order_by le' (map f l).
Proof.
  intros H. unfold Sql.order_by. induction l as [|x r IH]; [reflexivity|].
  cbn. rewrite <- IH. generalize (fold_right (Sql.insert_sorted le) [] r). intros s.
  induction s as [|y t IHt]; cbn; [reflexivity|].
  rewrite H. destruct (le x y); cbn; [reflexivity|]. now rewrite IHt.
Qed.

(** The page of a response, when it is the management page. *)
Definition manage_page (r : option Response)
  : option (list (Z * string * string * Z) * list EventRow) :=
  match r with
  | Some (render_template (tracking_manage_html cars events)) => Some (cars, events)
  | _ => None
  end.

(** The event of the overview without the country of its car. *)
Definition overview_to_event_row (row : OverviewRow) : EventRow :=
  (overview_event row, snd (fst (fst row)), snd (fst row)).

(** A GET of the management page by an administrator or a moderator
    changes nothing. The page lists at most twenty events: they are the
    first twenty rows of the tracking overview, without the country. It
    lists every car of the table once, ordered by brand. *)
Theorem manage_tracking_page (w : World) (request : Request) (u : User.t) :
  method request = GET ->
  current_user w = Some u ->
  has_role staff u = true ->
  exists listed events,
    manage_page (response_of (manage_tracking request w)) = Some (listed, events)
    /\ db (world_of (manage_tracking request w)) = db w
    /\ (List.length events <= 20)%nat
    /\ events = firstn 20 (map overview_to_event_row (select_tracking_overview (db w)))
    /\ Permutation listed
         (map (fun car => (Car.id car, Car.brand car, Car.model car, Car.year car))
              (Sql.rows (cars (db w))))
    /\ StronglySorted
         (fun a b : Z * string * string * Z =>
            String.leb (snd (fst (fst a))) (snd (fst (fst b))) = true) listed.
Proof.
  intros Hg Hu Hs. unfold manage_tracking.
  rewrite (@role_required_allowed staff _ request w u Hu Hs).
  unfold manage_tracking_body. rewrite Hg.
  destruct (after_auth_same w) as (Hdb & _).
  eexists. eexists. split; [reflexivity|]. cbn [world_of snd bind execute_select db].
  split; [exact Hdb|]. rewrite Hdb. split; [|split; [|split]].
  - unfold select_recent_events, Sql.limit. rewrite length_firstn. lia.
  - unfold select_recent_events, select_tracking_overview, Sql.limit. f_equal.
    rewrite (@order_by_map _ _ overview_to_event_row _
               (fun a b : EventRow =>
                  String.leb (TrackingEvent.updated_at (fst (fst b)))
                             (TrackingEvent.updated_at (fst (fst a)))))
      by reflexivity.
    f_equal. rewrite map_flat_map. apply flat_map_ext. intros e.
    now rewrite map_map.
  - unfold select_cars_by_brand. apply Permutation_map, order_by_perm.
  - unfold select_cars_by_brand.
    set (le := fun a b => String.leb (Car.brand a) (Car.brand b)).
    assert (S : StronglySorted (fun a b => le a b = true)
                  (Sql.order_by le (Sql.rows (cars (db w))))).
    { apply order_by_sorted; unfold le.
      - intros a b. apply String.leb_total.
      - intros a b c H1 H2. now apply text_leb_trans with (Car.brand b). }
    induction S as [|a l S IH F]; cbn; constructor; [exact IH|].
    rewrite Forall_forall in *. intros row Hrow.
    apply in_map_iff in Hrow. destruct Hrow as (x & <- & Hx). cbn. now apply F.
Qed.

(* ================================================================== *)
(** ** More on registration, login and logout *)
(* ================================================================== *)

Lemma register_logged_in (hash : string -> string) (request : Request) (w : World)
    (u : User.t) :
  current_user w = Some u ->
  register hash request w = (Returned (redirect (url_for ep_index)), after_auth w).
Proof.
  intros H. unfold register, bind. now rewrite get_current_user_run, H.
Qed.

Lemma register_get (hash : string -> string) (request : Request) (w : World) :
  current_user w = None ->
  method request = GET ->
  register hash request w
  = (Returned (render_template (auth_register_html (reg_next_url request))),
     after_auth w).
Proof.
  intros H G. unfold register, bind. now rewrite get_current_user_run, H, G.
Qed.

Lemma register_invalid (hash : string -> string) (request : Request) (w : World) :
  current_user w = None ->
  method request = POST ->
  reg_valid request = false ->
  register hash request w
  = reject (if forallb PyStr.truthy
                 [reg_field "name" request; reg_email request;
                  reg_field "password" request; reg_field "password_confirm" request]
            then n_passwords_differ else n_register_fields_required)
           (url_for_next ep_register (reg_next_url request)) (after_auth w).
Proof.
  intros H P V. unfold register, bind. rewrite get_current_user_run, H, P.
  unfold reg_valid, reg_email, reg_field in *.
  destruct (forallb PyStr.truthy _); cbn [negb andb] in *; [|reflexivity].
  rewrite V. reflexivity.
Qed.

(** A POST to [register] by a visitor is rejected as a validation error
    exactly when the name, the email, the password or its confirmation is
    blank after trimming or the two passwords differ; the rejected request
    stores no user and does not log anyone in. *)
Theorem register_validation (hash : string -> string) (w : World) (request : Request) :
  method request = POST ->
  current_user w = None ->
  let r := register hash request w in
  (failed_with ValidationError w r = true <->
   reg_field "name" request = "" \/ reg_email request = ""
   \/ reg_field "password" request = "" \/ reg_field "password_confirm" request = ""
   \/ reg_field "password" request <> reg_field "password_confirm" request)
  /\ (failed_with ValidationError w r = true ->
      response_of r = Some (redirect (url_for_next ep_register (reg_next_url request)))
      /\ db (world_of r) = db w
      /\ session_user_id (world_of r) = session_user_id w).
Proof.
  intros Hp Ha r.
  assert (V : reg_valid request = false <->
              reg_field "name" request = "" \/ reg_email request = ""
              \/ reg_field "password" request = ""
              \/ reg_field "password_confirm" request = ""
              \/ reg_field "password" request <> reg_field "password_confirm" request).
  { unfold reg_valid. cbn [forallb]. rewrite !andb_false_iff, !truthy_false_iff.
    rewrite String.eqb_neq. intuition discriminate. }
  rewrite <- V. destruct (after_auth_same w) as (Hdb & Hs & Hf & _ & _).
  destruct (reg_valid request) eqn:E.
  - assert (Hv : failed_with ValidationError w r = false).
    { destruct (select_user_id_by_email (reg_email request) (db w)) as [i|] eqn:S.
      - unfold r. rewrite (@register_conflict hash w request Hp Ha E i S).
        unfold failed_with, flashed_by. cbn. now rewrite skipn_length_app.
      - unfold r. rewrite (@register_success hash w request Hp Ha E S).
        unfold failed_with, flashed_by. cbn. now rewrite skipn_length_app. }
    rewrite Hv. split; [split; discriminate | discriminate].
  - pose proof (@register_invalid hash request w Ha Hp E) as Hr. fold r in Hr.
    assert (Hv : failed_with ValidationError w r = true).
    { assert (K : forall b : bool,
                 error_kind (if b then n_passwords_differ else n_register_fields_required)
                 = Some ValidationError) by (intros []; reflexivity).
      rewrite Hr. unfold failed_with, flashed_by, reject, world_of.
      cbn [snd flashed]. rewrite Hf, skipn_length_app. cbn [existsb].
      rewrite K. reflexivity. }
    rewrite Hv. split; [tauto|]. intros _. rewrite Hr. unfold reject. cbn. auto.
Qed.

(** [register] keeps the emails of [users] pairwise distinct, on every
    path: the only row it ever adds carries an email that no row had. *)
Theorem register_keeps_emails_unique
    (hash : string -> string) (w : World) (request : Request) :
  NoDup (map User.email (Sql.rows (users (db w)))) ->
  NoDup (map User.email (Sql.rows (users (db (world_of (register hash request w)))))).
Proof.
  intros N. destruct (after_auth_same w) as (Hdb & _).
  destruct (current_user w) as [u|] eqn:Hu.
  { rewrite (@register_logged_in hash request w u Hu). cbn. now rewrite Hdb. }
  destruct (method request) eqn:Hm.
  { rewrite (@register_get hash request w Hu Hm). cbn. now rewrite Hdb. }
  destruct (reg_valid request) eqn:Hv.
  2: { rewrite (@register_invalid hash request w Hu Hm Hv). cbn. now rewrite Hdb. }
  destruct (select_user_id_by_email (reg_email request) (db w)) as [i|] eqn:S.
  { now rewrite (@register_conflict hash w request Hm Hu Hv i S). }
  rewrite (@register_success hash w request Hm Hu Hv S). cbn.
  rewrite map_app. cbn.
  apply NoDup_app; [exact N | apply NoDup_cons; [intros [] | apply NoDup_nil] |].
  intros e He [E|[]]. apply in_map_iff in He. destruct He as (x & Hx & Hin).
  unfold select_user_id_by_email in S.
  destruct (find (fun u => String.eqb (User.email u) (reg_email request))
                 (Sql.rows (users (db w)))) as [y|] eqn:F; [discriminate S|].
  apply find_none with (x := x) in F; [|exact Hin].
  rewrite Hx, <- E, String.eqb_refl in F. discriminate.
Qed.

(** The values [login] reads from a submitted form. *)
Definition login_email (request : Request) : string :=
  Python.lower (Python.strip (multidict_get_or_empty "email" (form request))).

Definition login_password (request : Request) : string :=
  Python.strip (multidict_get_or_empty "password" (form request)).

Section LoginFacts.

Variable check : string -> string -> bool.
Variable w : World.
Variable request : Request.
Hypothesis posted : method request = POST.
Hypothesis anonymous : current_user w = None.

Lemma login_run :
  login check request w
  = match select_user_by_email (login_email request) (db w) with
    | Some u =>
        if check (User.password_hash u) (login_password request) then
          (Returned (auth_redirect (Some n_welcome_back) (reg_next_url request)),
           mkWorld (db w) (Some (User.id u)) (g_current_user (after_auth w))
                   (flashed w) (executed (after_auth w) ++ [SELECT [t_users]])
                   (current_timestamp w))
        else
          (Returned (auth_redirect (Some n_bad_credentials)
                                   (url_for_next ep_login (reg_next_url request))),
           mkWorld (db w) (session_user_id w) (g_current_user (after_auth w))
                   (flashed w) (executed (after_auth w) ++ [SELECT [t_users]])
                   (current_timestamp w))
    | None =>
        (Returned (auth_redirect (Some n_bad_credentials)
                                 (url_for_next ep_login (reg_next_url request))),
         mkWorld (db w) (session_user_id w) (g_current_user (after_auth w))
                 (flashed w) (executed (after_auth w) ++ [SELECT [t_users]])
                 (current_timestamp w))
    end.
Proof.
  unfold login. unfold bind at 1. rewrite get_current_user_run, anonymous, posted.
  destruct (after_auth_same w) as (Hdb & Hs & Hf & Ht & _).
  unfold bind, execute_select. rewrite Hdb. fold (login_email request).
  fold (login_password request). fold (reg_next_url request).
  destruct (select_user_by_email (login_email request) (db w)) as [u|].
  - destruct (check (User.password_hash u) (login_password request)); cbn;
      rewrite ?Hdb, ?Hs, ?Hf, ?Ht; reflexivity.
  - cbn. rewrite ?Hdb, ?Hs, ?Hf, ?Ht. reflexivity.
Qed.

End LoginFacts.

(** A POST to [login] by a visitor succeeds exactly when the first user
    with the submitted email (trimmed, lower-cased) exists and the password
    checks against its hash: the session then holds the id of that user.
    Otherwise the visitor is sent back to the login page with the
    bad-credentials message and the session is as before. Whatever the
    outcome, [login] writes nothing to the database. *)
Theorem login_authenticates
    (check : string -> string -> bool) (w : World) (request : Request) :
  method request = POST ->
  current_user w = None ->
  let r := login check request w in
  (response_of r = Some (auth_redirect (Some n_welcome_back) (reg_next_url request)) <->
   exists u, select_user_by_email (login_email request) (db w) = Some u
             /\ check (User.password_hash u) (login_password request) = true)
  /\ (forall u, select_user_by_email (login_email request) (db w) = Some u ->
                check (User.password_hash u) (login_password request) = true ->
                session_user_id (world_of r) = Some (User.id u))
  /\ (response_of r <> Some (auth_redirect (Some n_welcome_back) (reg_next_url request)) ->
      response_of r = Some (auth_redirect (Some n_bad_credentials)
                                          (url_for_next ep_login (reg_next_url request)))
      /\ session_user_id (world_of r) = session_user_id w)
  /\ db (world_of r) = db w.
Proof.
  intros Hp Ha r. unfold r. rewrite (@login_run check w request Hp Ha).
  destruct (select_user_by_email (login_email request) (db w)) as [u|].
  - destruct (check (User.password_hash u) (login_password request)) eqn:C; cbn.
    + split; [split; [eauto | reflexivity]|].
      split; [now intros ? [= <-] _|]. split; [congruence | reflexivity].
    + split; [split; [discriminate | intros (? & [= <-] & ?); congruence]|].
      split; [intros ? [= <-]; congruence|]. split; [auto | reflexivity].
  - cbn. split; [split; [discriminate | intros (? & ? & _); discriminate]|].
    split; [discriminate|]. split; [auto | reflexivity].
Qed.

(** A user who registered can log in. Provided a password checks against
    its own hash, a login sent by a visitor to the database the
    registration left, with the same email up to case and surrounding white
    space and the same password, succeeds and opens a session for the
    registered user. *)
Theorem register_then_login
    (hash : string -> string) (check : string -> string -> bool)
    (w w2 : World) (registration attempt : Request) (later : string) :
  (forall password, check (hash password) password = true) ->
  method registration = POST ->
  current_user w = None ->
  reg_valid registration = true ->
  select_user_id_by_email (reg_email registration) (db w) = None ->
  method attempt = POST ->
  current_user w2 = None ->
  db w2 = db (world_of (register hash registration w)) ->
  login_email attempt = reg_email registration ->
  login_password attempt = reg_field "password" registration ->
  let r := login check attempt w2 in
  response_of r = Some (auth_redirect (Some n_welcome_back) (reg_next_url attempt))
  /\ session_user_id (world_of r) = Some (User.id (new_user hash w registration))
  /\ current_user (fresh (db (world_of r)) (session_user_id (world_of r)) later)
     = Some (new_user hash w registration).
Proof.
  intros Hc Hp1 Ha1 Hv1 Hnew Hp2 Ha2 Hdb He Hpw r.
  rewrite (@register_success hash w registration Hp1 Ha1 Hv1 Hnew) in Hdb.
  cbn in Hdb.
  assert (F : select_user_by_email (login_email attempt) (db w2)
              = Some (new_user hash w registration)).
  { unfold select_user_by_email. rewrite Hdb. cbn. rewrite find_app_last, He.
    unfold select_user_id_by_email in Hnew.
    destruct (find (fun u => String.eqb (User.email u) (reg_email registration))
                   (Sql.rows (users (db w)))); [discriminate Hnew|].
    cbn. now rewrite String.eqb_refl. }
  unfold r. rewrite (@login_run check w2 attempt Hp2 Ha2), F.
  cbn [User.password_hash new_user]. rewrite Hpw, Hc. cbn.
  split; [reflexivity|]. split; [reflexivity|].
  destruct (next_rowid_fresh User.id (users (db w))) as [Hpos Hfresh].
  unfold current_user, get_current_user, fresh.
  cbn [g_current_user session_user_id falsy_int].
  destruct (Sql.next_rowid User.id (users (db w)) =? 0) eqn:Z0;
    [apply Z.eqb_eq in Z0; lia|].
  cbn. rewrite Hdb. cbn. rewrite find_app_last, Hfresh. cbn. now rewrite Z.eqb_refl.
Qed.

(** [logout] clears the session whoever calls it and writes nothing. In
    the request that follows there is no current user: sending a lead and
    listing the leads are both turned away to the login page. *)
Theorem logout_ends_session (w : World) (request next : Request) (later : string) :
  let r := logout request w in
  let w' := fresh (db (world_of r)) (session_user_id (world_of r)) later in
  response_of r = Some (auth_redirect (Some n_logged_out) (url_for ep_index))
  /\ session_user_id (world_of r) = None
  /\ db (world_of r) = db w
  /\ current_user w' = None
  /\ failed_with AuthenticationRequired w' (create_lead next w') = true
  /\ failed_with AuthenticationRequired w' (leads_list next w') = true
  /\ db (world_of (create_lead next w')) = db w.
Proof.
  intros r w'. repeat split.
Qed.

(* ================================================================== *)
(** ** Recording an event and reading it back *)
(* ================================================================== *)

(** An event recorded at a time that is not before the events already
    stored for its car is what [latest_tracking] then shows for the car:
    the entry of the car carries the time of the recording, and it is the
    new event itself when every earlier event of the car is strictly
    older. *)
Theorem recorded_event_becomes_latest
    (w w2 : World) (request : Request) (u : User.t) :
  method request = POST ->
  current_user w = Some u ->
  has_role staff u = true ->
  event_incomplete request = false ->
  Sql.fits_integer_opt (event_car_id request) = true ->
  (forall e, In e (Sql.rows (tracking_events (db w))) ->
             TrackingEvent.car_id e = or_zero (event_car_id request) ->
             String.leb (TrackingEvent.updated_at e) (current_timestamp w) = true) ->
  db w2 = db (world_of (manage_tracking request w)) ->
  exists m r,
    response_of (latest_tracking w2) = Some m
    /\ PyDict.get (or_zero (event_car_id request)) m = Some r
    /\ TrackingEvent.car_id r = or_zero (event_car_id request)
    /\ TrackingEvent.updated_at r = current_timestamp w
    /\ ((forall e, In e (Sql.rows (tracking_events (db w))) ->
                   TrackingEvent.car_id e = or_zero (event_car_id request) ->
                   TrackingEvent.updated_at e <> current_timestamp w) ->
        r = new_event w request).
Proof.
  intros Hp Hu Hs Hc Hf Hold Hdb.
  rewrite (@manage_tracking_complete w request u Hp Hu Hs Hc Hf) in Hdb. cbn in Hdb.
  assert (Hrows : Sql.rows (tracking_events (db w2))
                  = (Sql.rows (tracking_events (db w)) ++ [new_event w request])%list)
    by now rewrite Hdb.
  destruct (@tracking_entry_exists (Sql.rows (tracking_events (db w2)))
              (or_zero (event_car_id request))) as [r Hget].
  { exists (new_event w request). split; [|reflexivity].
    rewrite Hrows. apply in_or_app. right. now left. }
  destruct (tracking_entry_is_newest _ _ Hget) as (Hin & Hcar & Hmax).
  assert (Hnew : String.leb (current_timestamp w) (TrackingEvent.updated_at r) = true).
  { apply (Hmax (new_event w request)); [|reflexivity].
    rewrite Hrows. apply in_or_app. right. now left. }
  rewrite Hrows in Hin. apply in_app_or in Hin.
  eexists. exists r. split; [apply latest_tracking_returns|]. split; [exact Hget|].
  split; [exact Hcar|].
  destruct Hin as [Hin|[<-|[]]].
  - assert (E : TrackingEvent.updated_at r = current_timestamp w)
      by (apply String.leb_antisym; [now apply Hold | exact Hnew]).
    split; [exact E|]. intros Hstrict. exfalso. now apply (Hstrict r Hin Hcar).
  - split; reflexivity.
Qed.

(** A user who is logged in and opens the registration or the login page
    is sent to the catalogue: no account is created, the session and the
    database stay as they are and nothing is flashed, whatever the request
    carries. *)
Theorem auth_pages_skip_logged_in
    (hash : string -> string) (check : string -> string -> bool)
    (w : World) (request : Request) (u : User.t) :
  current_user w = Some u ->
  response_of (register hash request w) = Some (redirect (url_for ep_index))
  /\ response_of (login check request w) = Some (auth_redirect None (url_for ep_index))
  /\ db (world_of (register hash request w)) = db w
  /\ db (world_of (login check request w)) = db w
  /\ session_user_id (world_of (register hash request w)) = session_user_id w
  /\ session_user_id (world_of (login check request w)) = session_user_id w
  /\ flashed_by w (register hash request w) = [].
Proof.
  intros Hu. destruct (after_auth_same w) as (Hdb & Hs & Hf & _ & _).
  assert (L : login check request w
              = (Returned (auth_redirect None (url_for ep_index)), after_auth w)).
  { unfold login, bind. now rewrite get_current_user_run, Hu. }
  rewrite (@register_logged_in hash request w u Hu), L. cbn.
  repeat split; try assumption.
  unfold flashed_by. cbn. rewrite Hf. apply skipn_length_self.
Qed.

End Application.

(* ================================================================== *)
(** ** The application on ASCII requests *)
(* ================================================================== *)

(** The requests below carry ASCII text, on which Python's text functions
    are those of [PyStr]. *)
Section AsciiRequests.

#[local] Existing Instance ascii_text.

(* ------------------------------------------------------------------ *)
(** *** The catalogue *)

Example index_plain :
  cars_shown (response_of (index (get_request "/" []) (fresh seed_db None "2024-02-01 00:00:00")))
  = Some (map (fun i => nth i seed_cars (Car.mk 0 "" "" 0 0 None None "" None None))
              [2; 1; 3; 0]%nat).
Proof. reflexivity. Qed.

Example index_search_so :
  option_map (map Car.model)
    (cars_shown (response_of (index (get_request "/?q=SO" [("q", "SO")])
                                    (fresh seed_db None "2024-02-01 00:00:00"))))
  = Some ["Sorento"; "Sonata"].
Proof. reflexivity. Qed.

(** A capitalised name of the allow-list starts with an upper-case letter. *)
Lemma allowed_capitalized_initial (a : ascii) (r : string) :
  in_allow_list (String (PyStr.upper_char a) r) = true ->
  PyStr.isupper (PyStr.upper_char a) = true.
Proof.
  intros H. unfold in_allow_list in H.
  each_ascii a; try reflexivity; cbn in H; discriminate.
Qed.

(** [LOWER(x)] never equals a capitalised name of the allow-list. *)
Lemma lower_ne_allowed_capitalized (x m : string) :
  in_allow_list (PyStr.capitalize m) = true ->
  String.eqb (Sql.LOWER x) (PyStr.capitalize m) = false.
Proof.
  intros H. apply String.eqb_neq. intros E.
  destruct m as [|a r]; [discriminate H|].
  simpl in H, E. apply allowed_capitalized_initial in H.
  unfold Sql.LOWER in E. destruct x as [|d x']; [discriminate E|].
  simpl in E. injection E as E1 E2.
  rewrite <- E1, lower_char_not_upper in H. discriminate.
Qed.

(** Whenever [index] applies its country condition, no car satisfies it:
    [LOWER(country)] is compared with the capitalised parameter. *)
Lemma index_allowed_country_shows_nothing (request : Request) (w : World) (c : string) :
  multidict_get "country" (args request) = Some c ->
  PyStr.truthy c = true ->
  in_allow_list (normalize_country c) = true ->
  cars_shown (response_of (index request w)) = Some [].
Proof.
  intros Hc Ht Ha. apply index_country_shows_nothing with c; try assumption.
  apply String.eqb_neq. unfold normalize_country in *.
  now apply lower_ne_allowed_capitalized.
Qed.

(** C1 (the code departs from it). The specification says that a country
    filter of the allow-list selects the cars of that country. On the seeded
    catalogue, which holds two cars whose country is "China", the request
    [/?country=china] passes the allow-list test and [index] shows no car at
    all: the condition [LOWER(country) = ?] receives the capitalised
    "China". *)
Theorem index_country_china_shows_no_car :
  in_allow_list (normalize_country "china") = true
  /\ cars_shown (response_of (index china_request (fresh seed_db None "2024-02-01 00:00:00")))
     = Some []
  /\ map Car.brand
       (filter (fun car => String.eqb (PyStr.lower (Car.country car)) (PyStr.lower "china"))
               (Sql.rows (cars seed_db)))
     = ["BYD"; "Geely"].
Proof. repeat split; reflexivity. Qed.

Lemma index_ignores_country_outside_allow_list_witness :
  let w := fresh seed_db None "2024-02-01 00:00:00" in
  let request := get_request "/?country=Japan&q=kia" [("country", "Japan"); ("q", "kia")] in
  let request0 := get_request "/?q=kia" [("q", "kia")] in
  cars_shown (response_of (index request w)) = cars_shown (response_of (index request0 w))
  /\ (forall e, fst (index request w) = Raised e <-> fst (index request0 w) = Raised e)
  /\ option_map (map Car.brand) (cars_shown (response_of (index request w))) = Some ["Kia"].
Proof.
  intros w request request0.
  destruct (@index_ignores_country_outside_allow_list ascii_text w request request0 "Japan"
              eq_refl ltac:(discriminate) ltac:(discriminate) eq_refl eq_refl)
    as (H1 & H2 & _).
  split; [exact H1|]. split; [exact H2 | reflexivity].
Defined.

(** C4 (the code departs from it). The specification says that the search
    shows exactly the cars whose brand or model contains the query. The
    query [_] occurs in no brand and in no model of the seeded catalogue,
    and [index] shows all four cars: the query is pasted into the [LIKE]
    pattern, where [_] stands for any character. *)
Theorem index_search_underscore_shows_every_car :
  option_map (map Car.brand)
    (cars_shown (response_of (index underscore_request
                                    (fresh seed_db None "2024-02-01 00:00:00"))))
  = Some ["BYD"; "Kia"; "Geely"; "Hyundai"]
  /\ filter (fun car =>
               PyStr.contains (PyStr.lower "_") (PyStr.lower (Car.brand car))
               || PyStr.contains (PyStr.lower "_") (PyStr.lower (Car.model car)))
            (Sql.rows (cars seed_db))
     = [].
Proof. split; reflexivity. Qed.

(* ------------------------------------------------------------------ *)
(** *** Recording a tracking event *)

Lemma record_event_validation_witness :
  let r := manage_tracking (event_request "3") admin_world in
  failed_with ValidationError admin_world r = false
  /\ response_of r = Some (redirect (url_for ep_manage_tracking))
  /\ Sql.rows (tracking_events (db (world_of r)))
     = (seed_events
        ++ [TrackingEvent.mk 5 3 "At sea" "Busan" (Some "") (Some "") "2024-02-01 00:00:00"])%list.
Proof.
  intros r.
  destruct (@record_event_validation ascii_text admin_world (event_request "3")
              (User.mk 1 "Demo Manager" "demo@asiadrive.com" (Some "+82 10 1234 5678")
                       "hash-of-demo1234" "admin" "2024-01-01 10:00:00")
              eq_refl eq_refl eq_refl) as (_ & _ & H).
  assert (Hv : failed_with ValidationError admin_world r = false) by reflexivity.
  destruct (H Hv eq_refl) as (H1 & H2 & _).
  split; [exact Hv|]. split; [exact H1 | exact H2].
Defined.

(** The car id "abc" is not blank and does not parse: [manage_tracking]
    rejects the request, against the claim as worded. *)
Lemma record_event_unparsable_car_id_rejected :
  ~ record_event_as_specified admin_world (event_request "abc").
Proof.
  intros [[H _] _].
  assert (E : failed_with ValidationError admin_world
                (manage_tracking (event_request "abc") admin_world) = true)
    by reflexivity.
  destruct (H E) as [B|[B|B]]; discriminate B.
Qed.

(* ------------------------------------------------------------------ *)
(** *** Sending a lead and adding a car *)

Lemma create_lead_validation_witness :
  let request := post_request "/lead" [("name", "Ivan"); ("phone", "   ")] in
  let r := create_lead request customer_world in
  failed_with ValidationError customer_world r = true
  /\ response_of r = Some (redirect (with_fragment (url_for ep_index) "#request"))
  /\ db (world_of r) = shop_db.
Proof.
  intros request r.
  destruct (@create_lead_validation ascii_text customer_world request customer eq_refl) as [H1 H2].
  assert (Hv : failed_with ValidationError customer_world r = true)
    by (apply H1; right; reflexivity).
  split; [exact Hv | exact (H2 Hv)].
Defined.

Lemma unparsable_numbers_are_not_rejected_witness :
  let car_request :=
    post_request "/add"
      [("brand", " Kia "); ("model", "Rio"); ("year", "last year"); ("price", "15k");
       ("mileage", "n/a"); ("country", "Korea")] in
  let lead_request :=
    post_request "/lead"
      [("name", "Ivan"); ("phone", "+7 900 000 00 00"); ("car_id", "two");
       ("budget", "about 20000")] in
  Sql.rows (cars (db (world_of (add_car car_request admin_world))))
  = (seed_cars ++ [Car.mk 5 "Kia" "Rio" 0 0 (Some 0) None "Korea" (Some "") (Some "")])%list
  /\ Sql.rows (leads (db (world_of (create_lead lead_request customer_world))))
     = [Lead.mk 1 "Ivan" "+7 900 000 00 00" (Some "") None (Some "") (Some "") None None
                (Some "") "2024-02-01 00:00:00" (Some 3)].
Proof.
  intros car_request lead_request.
  destruct (@unparsable_numbers_are_not_rejected ascii_text admin_world customer_world
              car_request lead_request
              (User.mk 1 "Demo Manager" "demo@asiadrive.com" (Some "+82 10 1234 5678")
                       "hash-of-demo1234" "admin" "2024-01-01 10:00:00")
              customer
              eq_refl eq_refl eq_refl eq_refl eq_refl eq_refl eq_refl)
    as [(_ & _ & Hc & _) (_ & _ & Hl & _)].
  split; [exact Hc | exact Hl].
Defined.

(** A year that does not parse is not always stored as 0. The first
    request lacks the country and is rejected for it; the second carries a
    price beyond 64 bits, which [sqlite3] refuses to bind: the request ends
    in [OverflowError]. Neither inserts a car. *)
Lemma unparsable_year_not_stored :
  ~ unparsable_year_as_specified admin_world
      (post_request "/add"
         [("brand", "Kia"); ("model", "Rio"); ("year", "last year"); ("price", "15000")])
  /\ ~ unparsable_year_as_specified admin_world
        (post_request "/add"
           [("brand", "Kia"); ("model", "Rio"); ("year", "last year");
            ("price", "99999999999999999999"); ("country", "Korea")])
  /\ fst (add_car
            (post_request "/add"
               [("brand", "Kia"); ("model", "Rio"); ("year", "last year");
                ("price", "99999999999999999999"); ("country", "Korea")])
            admin_world)
     = Raised OverflowError.
Proof.
  split; [|split; [|reflexivity]]; intros H; destruct (H eq_refl) as (car & E & _);
    apply (f_equal (@List.length Car.t)) in E; vm_compute in E; discriminate E.
Qed.

(** A required number left empty is a missing field, and [add_car] does
    reject it: the leniency is for input that is present. *)
Example add_car_empty_year :
  let request :=
    post_request "/add"
      [("brand", "Kia"); ("model", "Rio"); ("year", ""); ("price", "15000");
       ("country", "Korea")] in
  let r := add_car request admin_world in
  failed_with ValidationError admin_world r = true /\ db (world_of r) = seed_db.
Proof. split; reflexivity. Qed.

(* ------------------------------------------------------------------ *)
(** *** Registration and login *)

Lemma register_twice_witness :
  let hash := fun password : string => "salted:" ++ password in
  let w := fresh seed_db None "2024-02-01 00:00:00" in
  let r1 := register hash (register_request "Ivan@Example.com") w in
  let w2 := fresh (db (world_of r1)) None "2024-02-02 00:00:00" in
  let r2 := register hash (register_request " ivan@example.COM ") w2 in
  Sql.rows (users (db (world_of r1)))
  = (seed_users
     ++ [User.mk 3 "Ivan" "ivan@example.com" (Some "") "salted:secret" "customer"
                 "2024-02-01 00:00:00"])%list
  /\ session_user_id (world_of r1) = Some 3
  /\ failed_with ConflictError w2 r2 = true
  /\ db (world_of r2) = db (world_of r1).
Proof.
  intros hash w r1 w2 r2.
  destruct (@register_twice ascii_text hash w w2 (register_request "Ivan@Example.com")
              (register_request " ivan@example.COM ") "2024-02-03 00:00:00"
              eq_refl eq_refl eq_refl eq_refl eq_refl eq_refl eq_refl eq_refl eq_refl)
    as [(_ & H1 & _ & H2 & _) (H3 & _ & H4 & _)].
  split; [exact H1|]. split; [exact H2|]. split; [exact H3 | exact H4].
Defined.

Example login_seeded_admin :
  let check := fun pwhash password : string => String.eqb pwhash ("hash-of-" ++ password) in
  let request :=
    post_request "/auth/login" [("email", " Demo@AsiaDrive.com"); ("password", "demo1234")] in
  let r := login check request (fresh seed_db None "2024-02-01 00:00:00") in
  response_of r = Some (auth_redirect (Some n_welcome_back) (url_for ep_index))
  /\ session_user_id (world_of r) = Some 1.
Proof. split; reflexivity. Qed.

(* ------------------------------------------------------------------ *)
(** *** Primary keys and guards *)

Lemma views_keep_keys_unique_witness :
  let hash := fun password : string => "salted:" ++ password in
  let check := fun pwhash password : string => String.eqb pwhash ("salted:" ++ password) in
  keys_unique (db (world_of (add_car (post_request "/add"
      [("brand", "Kia"); ("model", "Rio"); ("year", "2020"); ("price", "15000");
       ("country", "Korea")]) admin_world))).
Proof.
  intros hash check.
  assert (K : keys_unique (db admin_world)).
  { repeat split; cbn;
      repeat (apply NoDup_cons; [cbn; intuition discriminate|]); apply NoDup_nil. }
  exact (proj1 (proj2 (@views_keep_keys_unique ascii_text hash check _ admin_world K))).
Defined.

Lemma role_required_rejects_other_roles_witness :
  let request :=
    post_request "/add"
      [("brand", "Kia"); ("model", "Rio"); ("year", "2020"); ("price", "15000");
       ("country", "Korea")] in
  let r := add_car request customer_world in
  response_of r = Some (redirect (url_for ep_index))
  /\ failed_with AuthorizationError customer_world r = true
  /\ db (world_of r) = shop_db.
Proof.
  intros request r.
  destruct (@role_required_rejects_other_roles staff add_car_body request
              customer_world customer eq_refl) as (H1 & H2 & H3 & _);
    [discriminate | reflexivity |].
  split; [exact H1|]. split; [exact H2 | exact H3].
Defined.

Lemma create_lead_unauthenticated_witness :
  let w := fresh seed_db None "2024-02-01 00:00:00" in
  let request := post_request "/lead" [("name", "Ivan"); ("phone", "+7 900")] in
  let r := create_lead request w in
  response_of r = Some (redirect (url_for_next ep_login (given_url "/lead")))
  /\ failed_with AuthenticationRequired w r = true
  /\ db (world_of r) = db w
  /\ forallb (fun s => negb (touches t_leads s)) (executed_by w r) = true.
Proof.
  intros w request. apply (@create_lead_unauthenticated ascii_text w request). reflexivity.
Defined.

(* ------------------------------------------------------------------ *)
(** *** More on the catalogue and the tracking pages *)


Lemma add_car_validation_witness :
  let request := post_request "/add" [("brand", "Kia"); ("model", "Rio"); ("year", "2020")] in
  let r := add_car request admin_world in
  failed_with ValidationError admin_world r = true
  /\ response_of r = Some (redirect (url_for ep_add_car_form))
  /\ db (world_of r) = seed_db.
Proof.
  intros request r.
  destruct (@add_car_validation ascii_text admin_world request
              (User.mk 1 "Demo Manager" "demo@asiadrive.com" (Some "+82 10 1234 5678")
                       "hash-of-demo1234" "admin" "2024-01-01 10:00:00")
              eq_refl eq_refl) as [H1 H2].
  assert (Hv : failed_with ValidationError admin_world r = true).
  { apply H1. exists "price". split; [cbn; tauto | now left]. }
  split; [exact Hv | exact (H2 Hv)].
Defined.

Lemma index_search_without_wildcards_witness :
  exists shown,
    cars_shown (response_of (index (get_request "/?q=SO" [("q", "SO")])
                                   (fresh seed_db None "2024-02-01 00:00:00"))) = Some shown
    /\ forall car,
         In car shown <->
         In car seed_cars
         /\ (PyStr.contains "so" (PyStr.lower (Car.brand car))
             || PyStr.contains "so" (PyStr.lower (Car.model car))) = true.
Proof.
  apply (@index_search_without_wildcards ascii_text (get_request "/?q=SO" [("q", "SO")])
           (fresh seed_db None "2024-02-01 00:00:00") "SO");
    first [ reflexivity
          | intros car [<-|[<-|[<-|[<-|[]]]]]; split; reflexivity ].
Defined.

Lemma event_for_unknown_car_witness :
  let request := event_request "99" in
  let w2 := fresh (db (world_of (manage_tracking request admin_world))) None
                  "2024-02-02 00:00:00" in
  In (TrackingEvent.mk 5 99 "At sea" "Busan" (Some "") (Some "") "2024-02-01 00:00:00")
     (Sql.rows (tracking_events (db w2)))
  /\ exists rows,
       response_of (tracking_overview (get_request "/tracking" []) w2) = Some rows
       /\ forall row, In row rows ->
            overview_event row
            <> TrackingEvent.mk 5 99 "At sea" "Busan" (Some "") (Some "")
                                "2024-02-01 00:00:00".
Proof.
  intros request w2.
  destruct (@event_for_unknown_car ascii_text admin_world w2 request (get_request "/tracking" [])
              (User.mk 1 "Demo Manager" "demo@asiadrive.com" (Some "+82 10 1234 5678")
                       "hash-of-demo1234" "admin" "2024-01-01 10:00:00")
              eq_refl eq_refl eq_refl eq_refl eq_refl) as (_ & H1 & H2 & _).
  - intros car [<-|[<-|[<-|[<-|[]]]]]; discriminate.
  - reflexivity.
  - split; [exact H1 | exact H2].
Defined.

Lemma manage_tracking_page_witness :
  exists listed events,
    manage_page (response_of (manage_tracking (get_request "/tracking/manage" [])
                                              admin_world)) = Some (listed, events)
    /\ map (fun row : EventRow => TrackingEvent.id (fst (fst row))) events = [1; 2; 3; 4]
    /\ map (fun row : Z * string * string * Z => snd (fst (fst row))) listed
       = ["BYD"; "Geely"; "Hyundai"; "Kia"].
Proof.
  destruct (@manage_tracking_page ascii_text admin_world (get_request "/tracking/manage" [])
              (User.mk 1 "Demo Manager" "demo@asiadrive.com" (Some "+82 10 1234 5678")
                       "hash-of-demo1234" "admin" "2024-01-01 10:00:00")
              eq_refl eq_refl eq_refl) as (listed & events & H & _).
  exists listed, events. split; [exact H|].
  injection H as <- <-. split; reflexivity.
Defined.

(* ------------------------------------------------------------------ *)
(** *** More on registration and login *)

Lemma register_validation_witness :
  let hash := fun password : string => "salted:" ++ password in
  let w := fresh seed_db None "2024-02-01 00:00:00" in
  let request :=
    post_request "/auth/register"
      [("name", "A"); ("email", "a@b.com"); ("password", "x1");
       ("password_confirm", "x2")] in
  let r := register hash request w in
  failed_with ValidationError w r = true
  /\ response_of r = Some (redirect (url_for_next ep_register (url_for ep_index)))
  /\ db (world_of r) = seed_db
  /\ session_user_id (world_of r) = None.
Proof.
  intros hash w request r.
  destruct (@register_validation ascii_text hash w request eq_refl eq_refl) as [H1 H2].
  assert (Hv : failed_with ValidationError w r = true).
  { apply H1. do 4 right. discriminate. }
  split; [exact Hv | exact (H2 Hv)].
Defined.

Lemma register_keeps_emails_unique_witness :
  NoDup (map User.email
           (Sql.rows (users (db (world_of
              (register (fun p : string => "salted:" ++ p)
                        (register_request "Ivan@Example.com")
                        (fresh seed_db None "2024-02-01 00:00:00"))))))).
Proof.
  apply (@register_keeps_emails_unique ascii_text (fun p : string => "salted:" ++ p)
           (fresh seed_db None "2024-02-01 00:00:00")
           (register_request "Ivan@Example.com")).
  cbn. repeat (apply NoDup_cons; [cbn; intuition discriminate|]). apply NoDup_nil.
Defined.

Lemma login_authenticates_witness :
  let check := fun pwhash password : string => String.eqb pwhash ("hash-of-" ++ password) in
  let w := fresh seed_db None "2024-02-01 00:00:00" in
  let request :=
    post_request "/auth/login" [("email", "demo@asiadrive.com"); ("password", "wrong")] in
  let r := login check request w in
  response_of r
  = Some (auth_redirect (Some n_bad_credentials) (url_for_next ep_login (url_for ep_index)))
  /\ session_user_id (world_of r) = None.
Proof.
  intros check w request r.
  destruct (@login_authenticates ascii_text check w request eq_refl eq_refl) as (_ & _ & H & _).
  apply H. discriminate.
Defined.

Lemma register_then_login_witness :
  let hash := fun password : string => "salted:" ++ password in
  let check := fun pwhash password : string => String.eqb pwhash ("salted:" ++ password) in
  let w := fresh seed_db None "2024-02-01 00:00:00" in
  let w2 := fresh (db (world_of (register hash (register_request "Ivan@Example.com") w)))
                  None "2024-02-02 00:00:00" in
  let attempt :=
    post_request "/auth/login" [("email", " IVAN@example.com "); ("password", "secret")] in
  response_of (login check attempt w2)
  = Some (auth_redirect (Some n_welcome_back) (url_for ep_index))
  /\ session_user_id (world_of (login check attempt w2)) = Some 3.
Proof.
  intros hash check w w2 attempt.
  destruct (@register_then_login ascii_text hash check w w2 (register_request "Ivan@Example.com")
              attempt "2024-02-03 00:00:00") as (H1 & H2 & _);
    try reflexivity.
  - intros password. unfold check, hash. apply String.eqb_refl.
  - split; [exact H1 | exact H2].
Defined.

(* ------------------------------------------------------------------ *)
(** *** A recorded event read back *)

Lemma recorded_event_becomes_latest_witness :
  let request := event_request "3" in
  let w2 := fresh (db (world_of (manage_tracking request admin_world))) None
                  "2024-02-02 00:00:00" in
  exists m r,
    response_of (latest_tracking w2) = Some m
    /\ PyDict.get 3 m = Some r
    /\ r = TrackingEvent.mk 5 3 "At sea" "Busan" (Some "") (Some "") "2024-02-01 00:00:00".
Proof.
  intros request w2.
  destruct (@recorded_event_becomes_latest ascii_text admin_world w2 request
              (User.mk 1 "Demo Manager" "demo@asiadrive.com" (Some "+82 10 1234 5678")
                       "hash-of-demo1234" "admin" "2024-01-01 10:00:00")
              eq_refl eq_refl eq_refl eq_refl eq_refl)
    as (m & r & H1 & H2 & _ & _ & H3).
  - intros e [<-|[<-|[<-|[<-|[]]]]] E; first [reflexivity | discriminate E].
  - reflexivity.
  - exists m, r. split; [exact H1|]. split; [exact H2|]. apply H3.
    intros e [<-|[<-|[<-|[<-|[]]]]] E; discriminate.
Defined.

Lemma auth_pages_skip_logged_in_witness :
  let hash := fun password : string => "salted:" ++ password in
  let r := register hash (register_request "new@example.com") customer_world in
  response_of r = Some (redirect (url_for ep_index))
  /\ db (world_of r) = shop_db.
Proof.
  intros hash r.
  destruct (@auth_pages_skip_logged_in ascii_text hash (fun _ _ => true) customer_world
              (register_request "new@example.com") customer eq_refl)
    as (H1 & _ & H2 & _).
  split; [exact H1 | exact H2].
Defined.

End AsciiRequests.

(* ================================================================== *)
(** ** The schema: [ensure_column_exists] and [ensure_tables] *)
(* ================================================================== *)

(** What SQLite records of a table: its name, its columns (name and
    definition) in order, and its table constraints. A schema is the list
    of the tables, in the order of their creation. *)
Module Schema.

Definition Column : Type := (string * string)%type.

Record TableDef : Type := mkTableDef {
  table_name : string;
  columns : list Column;
  constraints : list string
}.

Definition t : Type := list TableDef.

(** SQLite compares the names of tables and columns without regard to the
    case of ASCII letters. *)
Definition same_name (a b : string) : bool :=
  String.eqb (PyStr.lower a) (PyStr.lower b).

Definition find_table (name : string) (s : t) : option TableDef :=
  find (fun d => same_name (table_name d) name) s.

(** [CREATE TABLE IF NOT EXISTS] *)
Definition create_table_if_not_exists (def : TableDef) (s : t) : t :=
  match find_table (table_name def) s with
  | Some _ => s
  | None => (s ++ [def])%list
  end.

(** [PRAGMA table_info(table)]: the columns of the table, none when there
    is no such table. *)
Definition table_info (table : string) (s : t) : list Column :=
  match find_table table s with
  | Some d => columns d
  | None => []
  end.

(** The table [table] with one more column at the end. *)
Fixpoint alter (table : string) (column : Column) (s : t) : t :=
  match s with
  | [] => []
  | d :: r =>
      if same_name (table_name d) table
      then mkTableDef (table_name d) (columns d ++ [column]) (constraints d) :: r
      else d :: alter table column r
  end.

(** [ALTER TABLE table ADD COLUMN column definition]; [None] stands for
    [sqlite3.OperationalError]: no such table, or a column of that name
    exists already. *)
Definition add_column (table column definition : string) (s : t) : option t :=
  match find_table table s with
  | None => None
  | Some d =>
      if existsb (fun c => same_name (fst c) column) (columns d) then None
      else Some (alter table (column, definition) s)
  end.

End Schema.

(** [ensure_column_exists(connection, table_name, column_name,
    column_definition)] *)
Definition ensure_column_exists (table_name column_name column_definition : string)
    (s : Schema.t) : option Schema.t :=
  let columns := map fst (Schema.table_info table_name s) in
  if negb (existsb (String.eqb column_name) columns)
  then Schema.add_column table_name column_name column_definition s
  else Some s.

Definition users_table : Schema.TableDef :=
  Schema.mkTableDef "users"
    [ ("id", "INTEGER PRIMARY KEY AUTOINCREMENT");
      ("name", "TEXT NOT NULL");
      ("email", "TEXT NOT NULL UNIQUE");
      ("phone", "TEXT");
      ("password_hash", "TEXT NOT NULL");
      ("role", "TEXT NOT NULL DEFAULT 'customer'");
      ("created_at", "TEXT DEFAULT CURRENT_TIMESTAMP") ]
    [].

Definition cars_table : Schema.TableDef :=
  Schema.mkTableDef "cars"
    [ ("id", "INTEGER PRIMARY KEY AUTOINCREMENT");
      ("brand", "TEXT NOT NULL");
      ("model", "TEXT NOT NULL");
      ("year", "INTEGER NOT NULL");
      ("price", "INTEGER NOT NULL");
      ("mileage", "INTEGER");
      ("fuel_type", "TEXT");
      ("country", "TEXT NOT NULL");
      ("image_url", "TEXT");
      ("description", "TEXT") ]
    [].

Definition leads_table : Schema.TableDef :=
  Schema.mkTableDef "leads"
    [ ("id", "INTEGER PRIMARY KEY AUTOINCREMENT");
      ("name", "TEXT NOT NULL");
      ("phone", "TEXT NOT NULL");
      ("email", "TEXT");
      ("car_id", "INTEGER");
      ("preferred_brand", "TEXT");
      ("preferred_model", "TEXT");
      ("country", "TEXT");
      ("budget", "INTEGER");
      ("comment", "TEXT");
      ("created_at", "TEXT DEFAULT CURRENT_TIMESTAMP");
      ("user_id", "INTEGER") ]
    [ "FOREIGN KEY (car_id) REFERENCES cars (id) ON DELETE SET NULL";
      "FOREIGN KEY (user_id) REFERENCES users (id) ON DELETE SET NULL" ].

Definition tracking_events_table : Schema.TableDef :=
  Schema.mkTableDef "tracking_events"
    [ ("id", "INTEGER PRIMARY KEY AUTOINCREMENT");
      ("car_id", "INTEGER NOT NULL");
      ("status", "TEXT NOT NULL");
      ("location", "TEXT NOT NULL");
      ("eta", "TEXT");
      ("comment", "TEXT");
      ("updated_at", "TEXT DEFAULT CURRENT_TIMESTAMP") ]
    [ "FOREIGN KEY (car_id) REFERENCES cars (id) ON DELETE CASCADE" ].

(** [ensure_tables()]: the four [CREATE TABLE IF NOT EXISTS] and the two
    calls of [ensure_column_exists]; an exception of the first call ends
    the function. *)
Definition ensure_tables (s : Schema.t) : option Schema.t :=
  let s := Schema.create_table_if_not_exists users_table s in
  let s := Schema.create_table_if_not_exists cars_table s in
  let s := Schema.create_table_if_not_exists leads_table s in
  let s := Schema.create_table_if_not_exists tracking_events_table s in
  match ensure_column_exists "leads" "user_id"
          "INTEGER REFERENCES users(id) ON DELETE SET NULL" s with
  | Some s => ensure_column_exists "users" "role" "TEXT NOT NULL DEFAULT 'customer'" s
  | None => None
  end.

(** A database of the first release: [users] without [role], [leads]
    without [user_id]. *)
Definition legacy_schema : Schema.t :=
  [ Schema.mkTableDef "users"
      [ ("id", "INTEGER PRIMARY KEY AUTOINCREMENT"); ("name", "TEXT NOT NULL");
        ("email", "TEXT NOT NULL UNIQUE"); ("password_hash", "TEXT NOT NULL") ] [];
    Schema.mkTableDef "leads"
      [ ("id", "INTEGER PRIMARY KEY AUTOINCREMENT"); ("name", "TEXT NOT NULL");
        ("phone", "TEXT NOT NULL") ] [] ].

Example ensure_tables_empty :
  ensure_tables [] = Some [users_table; cars_table; leads_table; tracking_events_table].
Proof. reflexivity. Qed.

Example ensure_tables_legacy :
  option_map (map (fun d => (Schema.table_name d, map fst (Schema.columns d))))
             (ensure_tables legacy_schema)
  = Some [ ("users", ["id"; "name"; "email"; "password_hash"; "role"]);
           ("leads", ["id"; "name"; "phone"; "user_id"]);
           ("cars", map fst (Schema.columns cars_table));
           ("tracking_events", map fst (Schema.columns tracking_events_table)) ].
Proof. reflexivity. Qed.

(** A column the check of [ensure_column_exists] does not see, since the
    check compares the names exactly: [ALTER TABLE] then fails. *)
Example ensure_tables_other_case :
  ensure_tables [Schema.mkTableDef "leads" [("id", "INTEGER"); ("USER_ID", "INTEGER")] []]
  = None.
Proof. reflexivity. Qed.

(* ------------------------------------------------------------------ *)
(** *** Migrations only add *)

Lemma same_name_iff (a b : string) :
  Schema.same_name a b = true <-> PyStr.lower a = PyStr.lower b.
Proof. unfold Schema.same_name. apply String.eqb_eq. Qed.

Lemma same_name_refl (a : string) : Schema.same_name a a = true.
Proof. now apply same_name_iff. Qed.

Lemma same_name_congr (a b c : string) :
  Schema.same_name a b = true -> Schema.same_name c a = Schema.same_name c b.
Proof.
  intros H. apply same_name_iff in H. unfold Schema.same_name. now rewrite H.
Qed.

(** The check of [ensure_column_exists]: the table has a column with
    exactly this name. *)
Definition has_column (table column : string) (s : Schema.t) : bool :=
  existsb (String.eqb column) (map fst (Schema.table_info table s)).

Definition has_table (table : string) (s : Schema.t) : bool :=
  match Schema.find_table table s with Some _ => true | None => false end.

(** Every table of [s] is still found in [s'], under the same name, with
    the same constraints, and with its columns in place, possibly followed
    by new ones. *)
Definition schema_extends (s s' : Schema.t) : Prop :=
  forall name d,
    Schema.find_table name s = Some d ->
    exists d',
      Schema.find_table name s' = Some d'
      /\ Schema.table_name d' = Schema.table_name d
      /\ Schema.constraints d' = Schema.constraints d
      /\ exists added, Schema.columns d' = (Schema.columns d ++ added)%list.

Lemma schema_extends_refl (s : Schema.t) : schema_extends s s.
Proof.
  intros name d H. exists d. repeat split; [exact H|]. exists []. now rewrite app_nil_r.
Qed.

Lemma schema_extends_trans (a b c : Schema.t) :
  schema_extends a b -> schema_extends b c -> schema_extends a c.
Proof.
  intros H1 H2 name d Hd.
  destruct (H1 name d Hd) as (d1 & F1 & N1 & C1 & x & X).
  destruct (H2 name d1 F1) as (d2 & F2 & N2 & C2 & y & Y).
  exists d2. repeat split; [exact F2 | congruence | congruence|].
  exists (x ++ y)%list. now rewrite Y, X, app_assoc.
Qed.

Lemma find_app_first (A : Type) (f : A -> bool) (l r : list A) (x : A) :
  find f l = Some x -> find f (l ++ r) = Some x.
Proof.
  induction l as [|a l IH]; cbn; [discriminate|].
  destruct (f a); [auto | exact IH].
Qed.

Lemma create_extends (def : Schema.TableDef) (s : Schema.t) :
  schema_extends s (Schema.create_table_if_not_exists def s).
Proof.
  unfold Schema.create_table_if_not_exists.
  destruct (Schema.find_table (Schema.table_name def) s); [apply schema_extends_refl|].
  intros name d H. exists d. repeat split.
  - now apply find_app_first.
  - exists []. now rewrite app_nil_r.
Qed.

Lemma create_has_table (def : Schema.TableDef) (s : Schema.t) :
  has_table (Schema.table_name def) (Schema.create_table_if_not_exists def s) = true.
Proof.
  unfold has_table, Schema.create_table_if_not_exists.
  destruct (Schema.find_table (Schema.table_name def) s) eqn:E; [now rewrite E|].
  unfold Schema.find_table in *. rewrite find_app_last, E, same_name_refl. reflexivity.
Qed.

Lemma create_existing (def : Schema.TableDef) (s : Schema.t) :
  has_table (Schema.table_name def) s = true ->
  Schema.create_table_if_not_exists def s = s.
Proof.
  unfold has_table, Schema.create_table_if_not_exists.
  now destruct (Schema.find_table (Schema.table_name def) s).
Qed.

Lemma find_alter_same (name table : string) (column : Schema.Column) (s : Schema.t) :
  Schema.same_name name table = true ->
  Schema.find_table name (Schema.alter table column s)
  = option_map (fun d => Schema.mkTableDef (Schema.table_name d)
                           (Schema.columns d ++ [column]) (Schema.constraints d))
               (Schema.find_table name s).
Proof.
  intros H. unfold Schema.find_table.
  assert (P : forall c, Schema.same_name c name = Schema.same_name c table)
    by (intros c; now apply same_name_congr).
  induction s as [|d r IH]; [reflexivity|]. cbn [Schema.alter find].
  destruct (Schema.same_name (Schema.table_name d) table) eqn:E.
  - cbn [find Schema.table_name]. rewrite !P, E. reflexivity.
  - cbn [find]. rewrite !P, E. exact IH.
Qed.

Lemma find_alter_other (name table : string) (column : Schema.Column) (s : Schema.t) :
  Schema.same_name name table = false ->
  Schema.find_table name (Schema.alter table column s) = Schema.find_table name s.
Proof.
  intros H. unfold Schema.find_table.
  induction s as [|d r IH]; [reflexivity|]. cbn [Schema.alter find].
  destruct (Schema.same_name (Schema.table_name d) table) eqn:E;
    cbn [find Schema.table_name].
  - assert (N : Schema.same_name (Schema.table_name d) name = false).
    { destruct (Schema.same_name (Schema.table_name d) name) eqn:K; [|reflexivity].
      apply same_name_iff in E, K. unfold Schema.same_name in H.
      apply String.eqb_neq in H. congruence. }
    now rewrite N.
  - destruct (Schema.same_name (Schema.table_name d) name); [reflexivity | exact IH].
Qed.

Lemma alter_extends (table : string) (column : Schema.Column) (s : Schema.t) :
  schema_extends s (Schema.alter table column s).
Proof.
  intros name d H. destruct (Schema.same_name name table) eqn:E.
  - rewrite (@find_alter_same name table column s E), H. cbn. eexists. repeat split. now exists [column].
  - rewrite (@find_alter_other name table column s E), H. exists d. repeat split.
    exists []. now rewrite app_nil_r.
Qed.

Lemma ensure_column_extends (table column definition : string) (s s' : Schema.t) :
  ensure_column_exists table column definition s = Some s' -> schema_extends s s'.
Proof.
  unfold ensure_column_exists, Schema.add_column.
  destruct (negb _); [|intros [= <-]; apply schema_extends_refl].
  destruct (Schema.find_table table s) as [d|]; [|discriminate].
  destruct (existsb (fun c => Schema.same_name (fst c) column) (Schema.columns d));
    [discriminate|].
  intros [= <-]. apply alter_extends.
Qed.

Lemma ensure_column_has_column (table column definition : string) (s s' : Schema.t) :
  ensure_column_exists table column definition s = Some s' ->
  has_column table column s' = true.
Proof.
  unfold ensure_column_exists, Schema.add_column.
  destruct (negb _) eqn:N.
  - destruct (Schema.find_table table s) as [d|] eqn:F; [|discriminate].
    destruct (existsb (fun c => Schema.same_name (fst c) column) (Schema.columns d));
      [discriminate|].
    intros [= <-]. unfold has_column, Schema.table_info.
    rewrite (@find_alter_same table table (column, definition) s (same_name_refl table)), F. cbn.
    rewrite map_app, existsb_app. cbn. now rewrite String.eqb_refl, orb_true_r.
  - intros [= <-]. apply negb_false_iff in N. exact N.
Qed.

Lemma has_column_extends (table column : string) (s s' : Schema.t) :
  schema_extends s s' -> has_column table column s = true ->
  has_column table column s' = true.
Proof.
  unfold has_column, Schema.table_info. intros H.
  destruct (Schema.find_table table s) as [d|] eqn:F; [|discriminate].
  destruct (H table d F) as (d' & -> & _ & _ & added & ->).
  rewrite map_app, existsb_app. intros E. apply orb_true_iff. left. exact E.
Qed.

Lemma has_table_extends (table : string) (s s' : Schema.t) :
  schema_extends s s' -> has_table table s = true -> has_table table s' = true.
Proof.
  unfold has_table. intros H.
  destruct (Schema.find_table table s) as [d|] eqn:F; [|discriminate].
  now destruct (H table d F) as (d' & -> & _).
Qed.

Lemma ensure_column_present (table column definition : string) (s : Schema.t) :
  has_column table column s = true ->
  ensure_column_exists table column definition s = Some s.
Proof. unfold ensure_column_exists, has_column. now intros ->. Qed.

(** The schema has the four tables, [leads.user_id] and [users.role]. *)
Definition schema_complete (s : Schema.t) : Prop :=
  has_table "users" s = true /\ has_table "cars" s = true
  /\ has_table "leads" s = true /\ has_table "tracking_events" s = true
  /\ has_column "leads" "user_id" s = true /\ has_column "users" "role" s = true.

(** When [ensure_tables] returns, every table that existed is still there
    with its columns in place (new columns come last), and the schema has
    the four tables of the application with [leads.user_id] and
    [users.role]. *)
Lemma ensure_tables_only_adds_parts (s s' : Schema.t) :
  ensure_tables s = Some s' ->
  schema_extends s s' /\ schema_complete s'.
Proof.
  unfold ensure_tables.
  set (s1 := Schema.create_table_if_not_exists users_table s).
  set (s2 := Schema.create_table_if_not_exists cars_table s1).
  set (s3 := Schema.create_table_if_not_exists leads_table s2).
  set (s4 := Schema.create_table_if_not_exists tracking_events_table s3).
  destruct (ensure_column_exists "leads" "user_id" _ s4) as [s5|] eqn:E5; [|discriminate].
  intros E6.
  assert (X1 : schema_extends s s1) by apply create_extends.
  assert (X2 : schema_extends s1 s2) by apply create_extends.
  assert (X3 : schema_extends s2 s3) by apply create_extends.
  assert (X4 : schema_extends s3 s4) by apply create_extends.
  assert (X5 : schema_extends s4 s5) by (eapply ensure_column_extends; exact E5).
  assert (X6 : schema_extends s5 s') by (eapply ensure_column_extends; exact E6).
  assert (T1 : has_table "users" s1 = true) by apply (create_has_table users_table).
  assert (T2 : has_table "cars" s2 = true) by apply (create_has_table cars_table).
  assert (T3 : has_table "leads" s3 = true) by apply (create_has_table leads_table).
  assert (T4 : has_table "tracking_events" s4 = true)
    by apply (create_has_table tracking_events_table).
  pose proof (schema_extends_trans X5 X6) as X46.
  pose proof (schema_extends_trans X4 X46) as X36.
  pose proof (schema_extends_trans X3 X36) as X26.
  pose proof (schema_extends_trans X2 X26) as X16.
  split; [exact (schema_extends_trans X1 X16)|].
  repeat split.
  - exact (@has_table_extends _ _ _ X16 T1).
  - exact (@has_table_extends _ _ _ X26 T2).
  - exact (@has_table_extends _ _ _ X36 T3).
  - exact (@has_table_extends _ _ _ X46 T4).
  - apply (@has_column_extends _ _ _ _ X6). eapply ensure_column_has_column. exact E5.
  - eapply ensure_column_has_column. exact E6.
Qed.

Theorem ensure_tables_only_adds (s s' : Schema.t) :
  ensure_tables s = Some s' ->
  schema_extends s s' /\ schema_complete s'.
Proof. apply ensure_tables_only_adds_parts. Qed.

Lemma ensure_tables_only_adds_witness :
  exists s', ensure_tables legacy_schema = Some s'
             /\ schema_extends legacy_schema s' /\ schema_complete s'.
Proof.
  eexists. split; [reflexivity|].
  apply (@ensure_tables_only_adds legacy_schema). reflexivity.
Defined.

Lemma ensure_tables_complete (s : Schema.t) :
  schema_complete s -> ensure_tables s = Some s.
Proof.
  intros (T1 & T2 & T3 & T4 & C1 & C2). unfold ensure_tables.
  rewrite (@create_existing users_table s T1), (@create_existing cars_table s T2),
    (@create_existing leads_table s T3), (@create_existing tracking_events_table s T4).
  rewrite (@ensure_column_present _ _ _ _ C1). now apply ensure_column_present.
Qed.

(** Running [ensure_tables] again changes nothing: on the schema a
    successful run leaves, a second run succeeds and returns that schema. *)
Theorem ensure_tables_idempotent (s s' : Schema.t) :
  ensure_tables s = Some s' -> ensure_tables s' = Some s'.
Proof.
  intros H. apply ensure_tables_complete.
  exact (proj2 (@ensure_tables_only_adds_parts s s' H)).
Qed.

Lemma ensure_tables_idempotent_witness :
  exists s', ensure_tables legacy_schema = Some s' /\ ensure_tables s' = Some s'.
Proof.
  eexists. split; [reflexivity|].
  apply (@ensure_tables_idempotent legacy_schema). reflexivity.
Defined.

(* ------------------------------------------------------------------ *)
(** *** When the migration succeeds *)

Lemma find_table_congr (a b : string) (s : Schema.t) :
  Schema.same_name a b = true -> Schema.find_table a s = Schema.find_table b s.
Proof.
  intros H. unfold Schema.find_table. induction s as [|d r IH]; [reflexivity|].
  cbn [find]. rewrite (@same_name_congr a b _ H), IH. reflexivity.
Qed.

Lemma create_find (name : string) (def : Schema.TableDef) (s : Schema.t) :
  Schema.find_table name (Schema.create_table_if_not_exists def s)
  = match Schema.find_table name s with
    | Some d => Some d
    | None => if Schema.same_name (Schema.table_name def) name then Some def else None
    end.
Proof.
  unfold Schema.create_table_if_not_exists.
  destruct (Schema.find_table (Schema.table_name def) s) as [x|] eqn:F.
  - destruct (Schema.find_table name s) as [d|] eqn:G; [reflexivity|].
    destruct (Schema.same_name (Schema.table_name def) name) eqn:E; [|reflexivity].
    rewrite (@find_table_congr _ _ s E) in F. congruence.
  - unfold Schema.find_table. now rewrite find_app_last.
Qed.

(** No column of the table is named like [column] up to case without being
    named exactly [column]. *)
Definition no_case_variant (table column : string) (s : Schema.t) : Prop :=
  forall c, In c (Schema.table_info table s) ->
            Schema.same_name (fst c) column = true -> fst c = column.

Lemma ensure_column_succeeds (table column definition : string) (s : Schema.t) :
  has_table table s = true ->
  no_case_variant table column s ->
  exists s', ensure_column_exists table column definition s = Some s'
             /\ (s' = s \/ s' = Schema.alter table (column, definition) s).
Proof.
  intros T N. unfold ensure_column_exists.
  destruct (negb _) eqn:C; [|eauto].
  apply negb_true_iff in C. unfold Schema.add_column.
  unfold has_table in T. unfold no_case_variant, Schema.table_info in N.
  unfold Schema.table_info in C.
  destruct (Schema.find_table table s) as [d|]; [|discriminate].
  destruct (existsb (fun c => Schema.same_name (fst c) column) (Schema.columns d)) eqn:E;
    [|eauto].
  exfalso. apply existsb_exists in E. destruct E as (c & Hc & Hs).
  specialize (N c Hc Hs).
  assert (K : existsb (String.eqb column) (map fst (Schema.columns d)) = true);
    [|congruence].
  apply existsb_exists. exists (fst c). split; [now apply in_map|].
  rewrite N. apply String.eqb_refl.
Qed.

(** [ensure_tables] succeeds on every schema in which neither an existing
    [leads] table has a column named like [user_id] in another case nor an
    existing [users] table a column named like [role] in another case (the
    only way its [ALTER TABLE] can fail). *)
Theorem ensure_tables_succeeds (s : Schema.t) :
  no_case_variant "leads" "user_id" s ->
  no_case_variant "users" "role" s ->
  exists s', ensure_tables s = Some s'.
Proof.
  intros NL NU. unfold ensure_tables.
  set (s1 := Schema.create_table_if_not_exists users_table s).
  set (s2 := Schema.create_table_if_not_exists cars_table s1).
  set (s3 := Schema.create_table_if_not_exists leads_table s2).
  set (s4 := Schema.create_table_if_not_exists tracking_events_table s3).
  assert (FL : Schema.find_table "leads" s4
               = match Schema.find_table "leads" s with
                 | Some d => Some d
                 | None => Some leads_table
                 end).
  { unfold s4, s3, s2, s1. rewrite !create_find.
    now destruct (Schema.find_table "leads" s). }
  assert (FU : Schema.find_table "users" s4
               = match Schema.find_table "users" s with
                 | Some d => Some d
                 | None => Some users_table
                 end).
  { unfold s4, s3, s2, s1. rewrite !create_find.
    now destruct (Schema.find_table "users" s). }
  assert (NL4 : no_case_variant "leads" "user_id" s4).
  { unfold no_case_variant, Schema.table_info in *. rewrite FL.
    destruct (Schema.find_table "leads" s); [exact NL|].
    intros c Hc Hs. cbn in Hc.
    repeat (destruct Hc as [<-|Hc]; [first [reflexivity | discriminate Hs]|]).
    destruct Hc. }
  assert (NU4 : no_case_variant "users" "role" s4).
  { unfold no_case_variant, Schema.table_info in *. rewrite FU.
    destruct (Schema.find_table "users" s); [exact NU|].
    intros c Hc Hs. cbn in Hc.
    repeat (destruct Hc as [<-|Hc]; [first [reflexivity | discriminate Hs]|]).
    destruct Hc. }
  assert (TL : has_table "leads" s4 = true).
  { unfold has_table. rewrite FL. now destruct (Schema.find_table "leads" s). }
  assert (TU : has_table "users" s4 = true).
  { unfold has_table. rewrite FU. now destruct (Schema.find_table "users" s). }
  destruct (@ensure_column_succeeds "leads" "user_id"
              "INTEGER REFERENCES users(id) ON DELETE SET NULL" s4 TL NL4)
    as (s5 & -> & Hs5).
  assert (F5 : Schema.find_table "users" s5 = Schema.find_table "users" s4).
  { destruct Hs5 as [->| ->]; [reflexivity|]. now apply find_alter_other. }
  destruct (@ensure_column_succeeds "users" "role" "TEXT NOT NULL DEFAULT 'customer'" s5)
    as (s6 & -> & _); [| |eauto].
  - unfold has_table in *. now rewrite F5.
  - unfold no_case_variant, Schema.table_info in *. now rewrite F5.
Qed.

Lemma ensure_tables_succeeds_witness :
  exists s', ensure_tables legacy_schema = Some s'.
Proof.
  apply (@ensure_tables_succeeds legacy_schema).
  - intros c Hc Hs. cbn in Hc.
    repeat (destruct Hc as [<-|Hc]; [first [reflexivity | discriminate Hs]|]).
    destruct Hc.
  - intros c Hc Hs. cbn in Hc.
    repeat (destruct Hc as [<-|Hc]; [first [reflexivity | discriminate Hs]|]).
    destruct Hc.
Defined.

(* ================================================================== *)
(** ** [init_db.py]: seeding the database *)
(* ================================================================== *)

(** The script creates the schema with the statements of [ensure_tables]
    and then fills the tables; this is what it does to the rows. *)

(** [cursor.executemany]: one [INSERT] after the other. *)
Definition executemany (R : Type) (id_of : R -> Z) (rows : list (Z -> R)) (t : Sql.Table R)
  : Sql.Table R :=
  fold_left (fun t mk => Sql.insert id_of mk t) rows t.

(** [UPDATE users SET role = 'admin' WHERE id = ?] *)
Definition set_admin (user_id : Z) (t : Sql.Table User.t) : Sql.Table User.t :=
  Sql.mkTable
    (map (fun u =>
            if User.id u =? user_id
            then User.mk (User.id u) (User.name u) (User.email u) (User.phone u)
                         (User.password_hash u) "admin" (User.created_at u)
            else u)
         (Sql.rows t))
    (Sql.seq t).

Definition init_cars : list (Z -> Car.t) :=
  [ (fun i => Car.mk i "Hyundai" "Sonata" 2021 25000 (Some 15000) (Some "Petrol") "Korea"
       (Some "https://images.pexels.com/photos/102399/pexels-photo-102399.jpeg")
       (Some "Современный бизнес-седан для долгих поездок."));
    (fun i => Car.mk i "Kia" "Sorento" 2022 42000 (Some 5000) (Some "Hybrid") "Korea"
       (Some "https://images.pexels.com/photos/97075/pexels-photo-97075.jpeg")
       (Some "Полный привод, 7 мест, топовая комплектация."));
    (fun i => Car.mk i "BYD" "Han" 2023 45000 (Some 0) (Some "Electric") "China"
       (Some "https://images.pexels.com/photos/210019/pexels-photo-210019.jpeg")
       (Some "Премиальный электромобиль с запасом хода 600 км."));
    (fun i => Car.mk i "Geely" "Monjaro" 2022 36000 (Some 8000) (Some "Petrol") "China"
       (Some "https://images.pexels.com/photos/358070/pexels-photo-358070.jpeg")
       (Some "Большой кроссовер «под ключ» за 30 дней.")) ].

Definition init_events (now : string) : list (Z -> TrackingEvent.t) :=
  [ (fun i => TrackingEvent.mk i 1 "На складе Пусан" "Пусан, Южная Корея"
       (Some "7 дней") (Some "Ждём место на пароме.") now);
    (fun i => TrackingEvent.mk i 2 "В пути по морю" "Жёлтое море"
       (Some "12 дней") (Some "Контейнер закреплён на судне AsiaStar.") now);
    (fun i => TrackingEvent.mk i 3 "Таможня РФ" "Владивосток"
       (Some "5 дней") (Some "Оформление ПТС.") now);
    (fun i => TrackingEvent.mk i 4 "Доставка по РФ" "Новосибирск"
       (Some "3 дня") (Some "Отправлено автотранспортом.") now) ].

Section InitDb.

Variable generate_password_hash : string -> string.

(** [now] is [CURRENT_TIMESTAMP] during the run. *)
Variable now : string.

Definition seed_demo (t : Sql.Table User.t) : Sql.Table User.t :=
  match find (fun u => String.eqb (User.email u) "demo@asiadrive.com") (Sql.rows t) with
  | None =>
      Sql.insert User.id
        (fun i => User.mk i "Demo Manager" "demo@asiadrive.com" (Some "+82 10 1234 5678")
                          (generate_password_hash "demo1234") "admin" now)
        t
  | Some user => set_admin (User.id user) t
  end.

Definition seed_moderator (t : Sql.Table User.t) : Sql.Table User.t :=
  match find (fun u => String.eqb (User.email u) "moderator@asiadrive.com") (Sql.rows t) with
  | None =>
      Sql.insert User.id
        (fun i => User.mk i "Moderator Kim" "moderator@asiadrive.com"
                          (Some "+82 10 3434 5656")
                          (generate_password_hash "mod1234") "moderator" now)
        t
  | Some _ => t
  end.

Definition init_db (d : Database) : Database :=
  let cars' :=
    if (List.length (Sql.rows (cars d)) =? 0)%nat
    then executemany Car.id init_cars (cars d)
    else cars d in
  let users' := seed_moderator (seed_demo (users d)) in
  let events' :=
    if (List.length (Sql.rows (tracking_events d)) =? 0)%nat
    then executemany TrackingEvent.id (init_events now) (tracking_events d)
    else tracking_events d in
  mkDatabase users' cars' (leads d) events'.

End InitDb.

Definition empty_db : Database :=
  mkDatabase (Sql.empty_table User.t) (Sql.empty_table Car.t)
             (Sql.empty_table Lead.t) (Sql.empty_table TrackingEvent.t).

Example init_db_empty :
  let d := init_db (fun p => "hash-of-" ++ p) "2024-01-01 10:00:00" empty_db in
  map (fun c => (Car.id c, Car.brand c, Car.country c)) (Sql.rows (cars d))
  = [(1, "Hyundai", "Korea"); (2, "Kia", "Korea"); (3, "BYD", "China"); (4, "Geely", "China")]
  /\ map (fun u => (User.id u, User.email u, User.role u)) (Sql.rows (users d))
     = [(1, "demo@asiadrive.com", "admin"); (2, "moderator@asiadrive.com", "moderator")]
  /\ map (fun e => (TrackingEvent.id e, TrackingEvent.car_id e))
         (Sql.rows (tracking_events d))
     = [(1, 1); (2, 2); (3, 3); (4, 4)].
Proof. repeat split; reflexivity. Qed.

Lemma executemany_rows (R : Type) (id_of : R -> Z) (mks : list (Z -> R)) (t : Sql.Table R) :
  exists added,
    Sql.rows (executemany id_of mks t) = (Sql.rows t ++ added)%list
    /\ List.length added = List.length mks.
Proof.
  unfold executemany. revert t. induction mks as [|mk l IH]; intros t; cbn.
  - exists []. now rewrite app_nil_r.
  - destruct (IH (Sql.insert id_of mk t)) as (added & E & L).
    exists (mk (Sql.next_rowid id_of t) :: added). split; [|cbn; now rewrite L].
    rewrite E. cbn. now rewrite <- app_assoc.
Qed.

Definition is_demo (u : User.t) : bool := String.eqb (User.email u) "demo@asiadrive.com".

Definition is_moderator_account (u : User.t) : bool :=
  String.eqb (User.email u) "moderator@asiadrive.com".

(** What a run of [init_db] establishes: cars and events exist, the first
    account with the demo email is an administrator (as is every row with
    its id), and an account with the moderator email exists. *)
Definition seeded (d : Database) : Prop :=
  Sql.rows (cars d) <> []
  /\ Sql.rows (tracking_events d) <> []
  /\ (exists u, find is_demo (Sql.rows (users d)) = Some u
                /\ forall x, In x (Sql.rows (users d)) -> User.id x = User.id u ->
                             User.role x = "admin")
  /\ (exists m, find is_moderator_account (Sql.rows (users d)) = Some m).

Lemma executemany_nonempty (R : Type) (id_of : R -> Z) (mk : Z -> R) (mks : list (Z -> R))
    (t : Sql.Table R) :
  Sql.rows (executemany id_of (mk :: mks) t) <> [].
Proof.
  destruct (executemany_rows id_of (mk :: mks) t) as (added & E & L).
  rewrite E. destruct added; [discriminate L|].
  intros H. apply app_eq_nil in H. destruct H. discriminate.
Qed.

Lemma length_zero_nil (A : Type) (l : list A) :
  (List.length l =? 0)%nat = false -> l <> [].
Proof. destruct l; [discriminate | discriminate]. Qed.

Lemma find_map_same (A : Type) (p : A -> bool) (f : A -> A) (l : list A) :
  (forall x, p (f x) = p x) -> find p (map f l) = option_map f (find p l).
Proof.
  intros H. induction l as [|a l IH]; [reflexivity|]. cbn.
  rewrite H. destruct (p a); [reflexivity | exact IH].
Qed.

Section InitDbFacts.

Variable hash : string -> string.
Variable now : string.

Lemma seed_demo_admin (t : Sql.Table User.t) :
  exists u, find is_demo (Sql.rows (seed_demo hash now t)) = Some u
            /\ forall x, In x (Sql.rows (seed_demo hash now t)) ->
                         User.id x = User.id u -> User.role x = "admin".
Proof.
  unfold seed_demo. fold is_demo.
  destruct (find is_demo (Sql.rows t)) as [user|] eqn:F.
  - unfold set_admin. cbn [Sql.rows].
    rewrite find_map_same, F.
    + cbn. eexists. split; [reflexivity|]. rewrite Z.eqb_refl. cbn.
      intros x Hx E. apply in_map_iff in Hx. destruct Hx as (y & <- & _).
      destruct (User.id y =? User.id user) eqn:K; [reflexivity|].
      apply Z.eqb_neq in K. cbn in E. congruence.
    + intros x. unfold is_demo. now destruct (User.id x =? User.id user).
  - cbn [Sql.insert Sql.rows]. rewrite find_app_last, F. cbn.
    eexists. split; [reflexivity|]. cbn.
    intros x Hx E. apply in_app_or in Hx. destruct Hx as [Hx|[<-|[]]]; [|reflexivity].
    destruct (max_rowid_bound User.id t) as [_ B]. specialize (B x Hx).
    unfold Sql.next_rowid in E. lia.
Qed.

Lemma seed_moderator_keeps (t : Sql.Table User.t) (u : User.t) :
  find is_demo (Sql.rows t) = Some u ->
  (forall x, In x (Sql.rows t) -> User.id x = User.id u -> User.role x = "admin") ->
  find is_demo (Sql.rows (seed_moderator hash now t)) = Some u
  /\ (forall x, In x (Sql.rows (seed_moderator hash now t)) ->
                User.id x = User.id u -> User.role x = "admin")
  /\ exists m, find is_moderator_account (Sql.rows (seed_moderator hash now t)) = Some m.
Proof.
  intros F A. unfold seed_moderator. fold is_moderator_account.
  destruct (find is_moderator_account (Sql.rows t)) as [m|] eqn:M.
  - split; [exact F|]. split; [exact A|]. rewrite M. eauto.
  - cbn [Sql.insert Sql.rows]. split; [now apply find_app_first|]. split.
    + intros x Hx E. apply in_app_or in Hx. destruct Hx as [Hx|[<-|[]]]; [now apply A|].
      apply find_some in F. destruct F as [Hu _].
      destruct (max_rowid_bound User.id t) as [_ B]. specialize (B u Hu).
      cbn in E. unfold Sql.next_rowid in E. lia.
    + rewrite find_app_last, M. cbn. eauto.
Qed.

Lemma init_db_seeded (d : Database) : seeded (init_db hash now d).
Proof.
  unfold seeded, init_db. cbn [cars tracking_events users]. repeat apply conj.
  - destruct (List.length (Sql.rows (cars d)) =? 0)%nat eqn:E.
    + apply executemany_nonempty.
    + now apply length_zero_nil.
  - destruct (List.length (Sql.rows (tracking_events d)) =? 0)%nat eqn:E.
    + apply executemany_nonempty.
    + now apply length_zero_nil.
  - destruct (seed_demo_admin (users d)) as (u & F & A).
    destruct (seed_moderator_keeps _ F A) as (F' & A' & _). eauto.
  - destruct (seed_demo_admin (users d)) as (u & F & A).
    destruct (seed_moderator_keeps _ F A) as (_ & _ & M). exact M.
Qed.

End InitDbFacts.

Lemma init_db_fixed (hash : string -> string) (now : string) (d : Database) :
  seeded d -> init_db hash now d = d.
Proof.
  intros (C & E & (u & F & A) & (m & M)). unfold init_db.
  destruct (Sql.rows (cars d)) as [|c cs] eqn:RC; [congruence|].
  destruct (Sql.rows (tracking_events d)) as [|e es] eqn:RE; [congruence|].
  cbn [List.length Nat.eqb].
  assert (U : seed_moderator hash now (seed_demo hash now (users d)) = users d).
  { assert (D : seed_demo hash now (users d) = users d).
    { unfold seed_demo. fold is_demo. rewrite F. unfold set_admin.
      destruct (users d) as [rows seq]. cbn in *. f_equal.
      rewrite <- (map_id rows) at 2. apply map_ext_in. intros x Hx.
      destruct (User.id x =? User.id u) eqn:K; [|reflexivity].
      apply Z.eqb_eq in K. specialize (A x Hx K). destruct x. cbn in *. now subst. }
    rewrite D. unfold seed_moderator. fold is_moderator_account. now rewrite M. }
  rewrite U. now destruct d.
Qed.

(** After [init_db] the catalogue and the tracking table are not empty,
    the first account with the demo email is an administrator whatever its
    role was, and an account with the moderator email exists; the leads are
    untouched and every car and every event that was stored is still in
    place. *)
Theorem init_db_seeds (hash : string -> string) (now : string) (d : Database) :
  seeded (init_db hash now d)
  /\ leads (init_db hash now d) = leads d
  /\ table_extends (cars d) (cars (init_db hash now d))
  /\ table_extends (tracking_events d) (tracking_events (init_db hash now d)).
Proof.
  split; [apply init_db_seeded|]. split; [reflexivity|].
  unfold init_db. cbn [cars tracking_events]. split.
  - destruct (List.length (Sql.rows (cars d)) =? 0)%nat; [|apply table_extends_refl].
    destruct (executemany_rows Car.id init_cars (cars d)) as (added & E & _).
    now exists added.
  - destruct (List.length (Sql.rows (tracking_events d)) =? 0)%nat;
      [|apply table_extends_refl].
    destruct (executemany_rows TrackingEvent.id (init_events now) (tracking_events d))
      as (added & E & _).
    now exists added.
Qed.

(** Running [init_db] a second time, at any later time and with any other
    salts, changes nothing. *)
Theorem init_db_idempotent
    (hash hash' : string -> string) (now now' : string) (d : Database) :
  init_db hash' now' (init_db hash now d) = init_db hash now d.
Proof. apply init_db_fixed, init_db_seeded. Qed.
